(** * Process-state reconstruction: the BPMN model adapter and the state computer

    A shallow embedding of [src/bpmn_handler.py] and [src/state_computer.py]
    and the properties of the state reconstruction that follow from the code.

    Conventions of the embedding
    - Python [dict]s that are only looked up are [gmap]s; [sequence_flows],
      which is also iterated with [.items()], is an association list in
      insertion order.
    - Python [set]s are [gset]s; [list(s)] and [for x in s] go through
      [elements s].
    - An exception is a value [Raise e] of the type [result]; [None], [NaN]
      and [NaT] are the [None] of an [option].
    - Timestamps are integers ([Z], nanoseconds since the epoch, which is how
      pandas stores them); the one sum that the code forms of them is out of
      bounds beyond [pd.Timestamp.max].
    - The collaborators that the repository takes from the library
      [ongoing_process_state] and from its caller (the n-gram index, the
      reachability graph, the concurrency oracle) are records with the
      fields and queries that the code uses. *)

From Stdlib Require Import ZArith List Permutation.
From stdpp Require Import base option list sorting sets gmap strings.

#[local] Set Warnings "-register-all,-clear-no-such-hyp".

Local Open Scope string_scope.
Local Open Scope list_scope.
Local Open Scope Z_scope.

(** ** Exceptions *)

Inductive exn : Type :=
  | KeyError     (* [d[k]] on a missing key *)
  | ParseError   (* [ET.parse] on a source that is not well-formed *)
  | ValueError   (* [min()] of an empty sequence *)
  | TypeError    (* [None + pd.Timedelta(...)] *)
  | OutOfBoundsDatetime.   (* a timestamp beyond [pd.Timestamp.max] *)

Inductive result (A : Type) : Type :=
  | Ok (a : A)
  | Raise (e : exn).
Arguments Ok {A} a.
Arguments Raise {A} e.

Definition is_Ok {A} (r : result A) : Prop := ∃ a, r = Ok a.
Definition is_Raise {A} (r : result A) : Prop := ∃ e, r = Raise e.

#[global] Instance result_ret : MRet result := λ A a, Ok a.
#[global] Instance result_bind : MBind result := λ A B f r,
  match r with
  | Ok a => f a
  | Raise e => Raise e
  end.

(** [d[k]] of a Python dict. *)
Definition getitem `{Countable K} {V} (d : gmap K V) (k : K) : result V :=
  match d !! k with
  | Some v => Ok v
  | None => Raise KeyError
  end.

(** A [for] loop whose body may raise: the loop state is threaded through
    the elements in order and the first exception ends the loop. *)
Fixpoint for_each {A S} (body : S → A → result S) (l : list A) (s : S) : result S :=
  match l with
  | [] => Ok s
  | x :: l' => s' ← body s x; for_each body l' s'
  end.

(** ** Insertion-ordered dictionaries ([sequence_flows]) *)

Definition odict : Type := list (string * string).

Fixpoint odict_get (d : odict) (k : string) : option string :=
  match d with
  | [] => None
  | (k', v) :: d' => if decide (k' = k) then Some v else odict_get d' k
  end.

(** [d[k] = v]: an existing key keeps its position, a new key goes last. *)
Fixpoint odict_set (d : odict) (k v : string) : odict :=
  match d with
  | [] => [(k, v)]
  | (k', v') :: d' =>
      if decide (k' = k) then (k, v) :: d' else (k', v') :: odict_set d' k v
  end.

(** ** The parsed model document

    [xml.etree.ElementTree] elements: a tag (in Clark notation,
    ["{namespace}local"]), the attribute dictionary and the children. *)

Inductive Element : Type :=
  | Elem (tag : string) (attrib : gmap string string) (children : list Element).

Definition tag (e : Element) : string := let 'Elem t _ _ := e in t.
Definition attrib (e : Element) : gmap string string := let 'Elem _ a _ := e in a.
Definition children (e : Element) : list Element := let 'Elem _ _ c := e in c.

(** [Element.iter()]: the element and all its descendants in document order. *)
Fixpoint iter (e : Element) : list Element :=
  match e with
  | Elem _ _ cs =>
      e :: (fix iter_all (l : list Element) : list Element :=
              match l with
              | [] => []
              | c :: l' => iter c ++ iter_all l'
              end) cs
  end.

(** [root.findall('.//t')]: the descendants of [root] (not [root] itself)
    with tag [t], in document order. *)
Definition findall (root : Element) (t : string) : list Element :=
  filter (λ e, tag e = t) (tail (iter root)).

Definition bpmn_ns : string := "{http://www.omg.org/spec/BPMN/20100524/MODEL}".

(** ** [class BPMNHandler] *)

Record BPMNHandler : Type := mkBPMNHandler {
  sequence_flows : odict;                 (* flow id -> targetRef *)
  activities : gmap string string;        (* task id -> task name *)
  flow_sources : gmap string string;      (* flow id -> sourceRef *)
  task_name_to_id : gmap string string;   (* task name -> task id *)
  end_events : gset string
}.

(** The tables as [__init__] leaves them before [parse_bpmn_xml] runs
    (lines 12-16). *)
Definition empty_handler : BPMNHandler :=
  mkBPMNHandler [] ∅ ∅ ∅ ∅.

(** The bodies of the four loops of [parse_bpmn_xml] (lines 26-46). *)
Definition add_task (h : BPMNHandler) (task : Element) : result BPMNHandler :=
  t_id ← getitem (attrib task) "id";
  let t_name := default ("Unnamed Task " +:+ t_id) (attrib task !! "name") in
  Ok (mkBPMNHandler (sequence_flows h) (<[t_id := t_name]> (activities h))
        (flow_sources h) (<[t_name := t_id]> (task_name_to_id h)) (end_events h)).

Definition add_end_event (h : BPMNHandler) (end_event : Element) : result BPMNHandler :=
  event_id ← getitem (attrib end_event) "id";
  Ok (mkBPMNHandler (sequence_flows h) (activities h) (flow_sources h)
        (task_name_to_id h) ({[event_id]} ∪ end_events h)).

Definition add_seq_flow (h : BPMNHandler) (seq_flow : Element) : result BPMNHandler :=
  sf_id ← getitem (attrib seq_flow) "id";
  tgt ← getitem (attrib seq_flow) "targetRef";
  src ← getitem (attrib seq_flow) "sourceRef";
  Ok (mkBPMNHandler (odict_set (sequence_flows h) sf_id tgt) (activities h)
        (<[sf_id := src]> (flow_sources h)) (task_name_to_id h) (end_events h)).

(** [ET.parse] (line 21): the XML parser is outside the core; its outcome on
    the model source is the input, [None] for a source that is not
    well-formed. *)
Definition ET_parse (source : option Element) : result Element :=
  match source with
  | Some root => Ok root
  | None => Raise ParseError
  end.

(** [BPMNHandler.__init__] with [parse_bpmn_xml] (lines 8-46): the handler
    exists only if no loop raises. *)
Definition parse_bpmn_xml (source : option Element) : result BPMNHandler :=
  root ← ET_parse source;
  h ← for_each add_task (findall root (bpmn_ns +:+ "task")) empty_handler;
  h ← for_each add_end_event (findall root (bpmn_ns +:+ "endEvent")) h;
  h ← for_each add_end_event (findall root "endEvent") h;
  for_each add_seq_flow (findall root (bpmn_ns +:+ "sequenceFlow")) h.

Definition is_end_event (h : BPMNHandler) (element_id : string) : bool :=
  bool_decide (element_id ∈ end_events h).

Definition get_task_id_by_name (h : BPMNHandler) (name : string) : option string :=
  task_name_to_id h !! name.

(** *** [get_upstream_tasks_through_gateways] (lines 56-71)

    The state of the [while stack:] loop.  The Python list [stack] is kept
    with its top (the end of the Python list) at the head. *)

Record Search : Type := mkSearch {
  visited : gset string;
  stack : list string;
  tasks_found : gset string
}.

(** The body of [for sf_id, tgt in self.sequence_flows.items()]
    (lines 66-70). *)
Definition scan_flow (h : BPMNHandler) (current : string)
    (vs : gset string * list string) (item : string * string)
    : result (gset string * list string) :=
  let '(sf_id, tgt) := item in
  if decide (tgt = current) then
    src ← getitem (flow_sources h) sf_id;
    if decide (src ∈ vs.1) then Ok vs
    else Ok ({[src]} ∪ vs.1, src :: vs.2)
  else Ok vs.

(** The body of the [while] loop (lines 61-70), for a non-empty stack. *)
Definition search_step (h : BPMNHandler) (s : Search) : result Search :=
  match stack s with
  | [] => Ok s
  | current :: rest =>
      if decide (current ∈ dom (activities h)) then
        Ok (mkSearch (visited s) rest ({[current]} ∪ tasks_found s))
      else
        vs ← for_each (scan_flow h current) (sequence_flows h) (visited s, rest);
        Ok (mkSearch vs.1 vs.2 (tasks_found s))
  end.

(** At most [n] iterations of [while stack:]. *)
Fixpoint search_loop (h : BPMNHandler) (n : nat) (s : Search) : result Search :=
  match stack s, n with
  | [], _ => Ok s
  | _, O => Ok s
  | _, S n' => s' ← search_step h s; search_loop h n' s'
  end.

Definition search_init (gateway_id : string) : Search :=
  mkSearch ∅ [gateway_id] ∅.

(** Every iteration pops one element, and only sources that were not yet
    visited are pushed, each at most once: one iteration more than there are
    sequence flows always empties the stack ([search_loop_exits_from] and
    [search_init_measure] below), so that the loop has ended by itself when
    [search_loop] returns. *)
Definition search_bound (h : BPMNHandler) : nat := S (length (sequence_flows h)).

Definition get_upstream_tasks_through_gateways (h : BPMNHandler) (gateway_id : string)
    : result (gset string) :=
  s ← search_loop h (search_bound h) (search_init gateway_id);
  Ok (tasks_found s).

(** ** The event log (a pandas data frame, one [Event] per row) *)

Record Event : Type := mkEvent {
  case_id : string;
  activity : string;
  resource : string;
  start_time : option Z;
  end_time : option Z;      (* [None]: the activity is still running *)
  enabled_time : option Z
}.

(** [pd.Timedelta(seconds=1)] *)
Definition one_second : Z := 1000000000.

(** Stable insertion of [x] in front of the first element it does not
    exceed. *)
Fixpoint insert_by {A} (le : A → A → bool) (x : A) (l : list A) : list A :=
  match l with
  | [] => [x]
  | y :: l' => if le x y then x :: l else y :: insert_by le x l'
  end.

Definition sort_by {A} (le : A → A → bool) (l : list A) : list A :=
  foldr (insert_by le) [] l.

(** [sorted(xs)] on strings: by code points. *)
Definition sorted (xs : list string) : list string := sort_by String.leb xs.

(** The order [sort_values] uses on a time column: [NaT] last. *)
Definition time_le (a b : option Z) : bool :=
  match a, b with
  | Some x, Some y => (x <=? y)%Z
  | _, None => true
  | None, Some _ => false
  end.

(** [df.sort_values(ids.start_time)]: by start time, [NaT] last; rows with
    equal start times keep their order. *)
Definition sort_values (df : list Event) : list Event :=
  sort_by (λ e1 e2, time_le (start_time e1) (start_time e2)) df.

(** [df.groupby(ids.case)]: one group per case id, in the order of the
    keys, each with the rows of the case in their order in the frame. *)
Definition groupby (df : list Event) : list (string * list Event) :=
  (λ k, (k, filter (λ e, case_id e = k) df)) <$> sorted (remove_dups (case_id <$> df)).

(** [series.max()]: the greatest value that is not [NaT], [NaT] when there is
    none. *)
Definition nat_max (a b : option Z) : option Z :=
  match a, b with
  | Some x, Some y => Some (Z.max x y)
  | Some x, None => Some x
  | None, _ => b
  end.

Definition series_max (s : list (option Z)) : option Z := foldr nat_max None s.

(** The built-in [min] over a time column: the first value is kept until a
    later one compares smaller, and every comparison with [NaT] is false. *)
Definition time_lt (a b : option Z) : bool :=
  match a, b with
  | Some x, Some y => (x <? y)%Z
  | _, _ => false
  end.

Definition py_min (s : list (option Z)) : result (option Z) :=
  match s with
  | [] => Raise ValueError
  | x :: s' => Ok (fold_left (λ cur item, if time_lt item cur then item else cur) s' x)
  end.

(** ** The collaborators *)

(** Modelled from the spec: the class of the reachability graph is not in the
    repository; the record has the tables of its read contract, which are
    the attributes the code reads. *)

Record ReachabilityGraph : Type := mkReachabilityGraph {
  marking_to_key : gmap (list string) Z;   (* sorted marking -> node id *)
  incoming_edges : gmap Z (list Z);        (* node id -> edge ids *)
  edges : gmap Z (Z * Z);                  (* edge id -> (source node, target node) *)
  edge_to_activity : gmap Z string;        (* edge id -> activity id *)
  markings : gmap Z (gset string)          (* node id -> marking *)
}.

(** Modelled from the spec: the class [NGramIndex] is not in the repository;
    the trace matcher is a black box with one query, from a sequence of
    activity labels that starts with [TRACE_START] to a marking. *)

Record NGramIndex : Type := mkNGramIndex {
  TRACE_START : string;
  get_best_marking_state_for : list string → gset string
}.

(** The probe event handed to [enabled_since]. *)
Record Probe : Type := mkProbe {
  probe_activity : string;
  probe_start_time : Z;
  probe_end_time : Z
}.

(** Modelled from the spec: the class of the concurrency oracle is not in
    the repository; it has its table from activity names to the activities
    they are concurrent with, and its query, which reads the table. *)

Record ConcurrencyOracle : Type := mkConcurrencyOracle {
  concurrency : gmap string (gset string);
  enabled_since : gmap string (gset string) → list Event → Probe → option Z
}.

(** ** Case states (the output) *)

Record Ongoing : Type := mkOngoing {
  og_id : option string;
  og_start_time : option Z;
  og_resource : string;
  og_enabled_time : option Z
}.

Record Enabled : Type := mkEnabled {
  en_id : string;
  en_enabled_time : option Z
}.

Record CaseState : Type := mkCaseState {
  cfs_flows : list string;                 (* control_flow_state.flows *)
  cfs_activities : list (option string);   (* control_flow_state.activities *)
  ongoing_activities : list Ongoing;
  enabled_activities : list Enabled;
  enabled_gateways : list Enabled
}.

(** ** [class StateComputer]

    The object with the attributes that [compute_case_states] reads; the
    column names [event_log_ids] are the fields of [Event]. *)

Record StateComputer : Type := mkStateComputer {
  n_gram_index : NGramIndex;
  reachability_graph : ReachabilityGraph;
  event_log_df : list Event;
  bpmn_handler : BPMNHandler;
  concurrency_oracle : ConcurrencyOracle
}.

(** Methods of the state computer: they read and update the object and may
    raise; the object is kept when they raise. *)
Definition M (A : Type) : Type := StateComputer → result A * StateComputer.

#[global] Instance M_ret : MRet M := λ A a self, (Ok a, self).
#[global] Instance M_bind : MBind M := λ A B f m self,
  match m self with
  | (Ok a, self') => f a self'
  | (Raise e, self') => (Raise e, self')
  end.

Definition get_self : M StateComputer := λ self, (Ok self, self).

Definition lift {A} (r : result A) : M A := λ self, (r, self).

(** [self.concurrency_oracle.concurrency[name] = {}] *)
Definition register_activity (name : string) : M unit := λ self,
  (Ok (),
   mkStateComputer (n_gram_index self) (reachability_graph self) (event_log_df self)
     (bpmn_handler self)
     (mkConcurrencyOracle (<[name := ∅]> (concurrency (concurrency_oracle self)))
        (enabled_since (concurrency_oracle self)))).

Fixpoint for_each_M {A S} (body : S → A → M S) (l : list A) (s : S) : M S :=
  match l with
  | [] => mret s
  | x :: l' => s' ← body s x; for_each_M body l' s'
  end.

(** *** [_compute_gateway_enabled_time] (lines 146-159) *)

Definition _compute_gateway_enabled_time (h : BPMNHandler) (gateway_id : string)
    (group_df ended_df : list Event) : result (option Z) :=
  tasks_upstream ← get_upstream_tasks_through_gateways h gateway_id;
  if decide (tasks_upstream = ∅) then
    Ok (series_max (end_time <$> ended_df))
  else
    let task_names := omap (λ t_id, activities h !! t_id) (elements tasks_upstream) in
    let sub_df := filter (λ e, activity e ∈ task_names) ended_df in
    let max_et := series_max (end_time <$> sub_df) in
    Ok (match max_et with
        | None => series_max (end_time <$> ended_df)
        | Some _ => max_et
        end).

(** *** [compute_case_states], one case *)

(** The record of one ongoing row (the body of the loop of lines 29-55). *)
Definition ongoing_record (h : BPMNHandler) (oracle : ConcurrencyOracle) (row : Event)
    : Ongoing :=
  let original_activity := activity row in
  let task_id := get_task_id_by_name h original_activity in
  let stime := start_time row in
  let enabled_time :=
    match stime, task_id with
    | Some _, Some _ =>
        if decide (original_activity ∈ dom (concurrency oracle))
        then enabled_time row
        else None
    | _, _ => None
    end in
  mkOngoing task_id stime (resource row) enabled_time.

Definition collect_ongoing (h : BPMNHandler) (oracle : ConcurrencyOracle)
    (group : list Event) : list Ongoing :=
  ongoing_record h oracle <$> filter (λ e, end_time e = None) group.

(** The scan of the incoming edges for one ongoing activity (lines 73-81):
    the first edge whose label equals the id of the activity narrows
    [state_flows] and ends the scan.  The label is what
    [edge_to_activity.get] returns and the id what [get_task_id_by_name]
    returned; both may be [None]. *)
Fixpoint scan_edges (rg : ReachabilityGraph) (t_id : option string)
    (incoming : list Z) (state_flows : gset string) : result (gset string) :=
  match incoming with
  | [] => Ok state_flows
  | edge_id :: incoming' =>
      if decide (edge_to_activity rg !! edge_id = t_id) then
        st ← getitem (edges rg) edge_id;
        source_marking ← getitem (markings rg) st.1;
        Ok (state_flows ∩ source_marking)
      else scan_edges rg t_id incoming' state_flows
  end.

(** The body of [for activity in ongoing_activities] (lines 68-81). *)
Definition narrow (rg : ReachabilityGraph) (current_marking_id : Z)
    (state_flows : gset string) (act : Ongoing) : result (gset string) :=
  scan_edges rg (og_id act) (default [] (incoming_edges rg !! current_marking_id))
    state_flows.

(** The ongoing-activity correction (lines 62-81), from the marking the
    matcher returned. *)
Definition correct_flows (rg : ReachabilityGraph) (ongoing : list Ongoing)
    (state_marking : gset string) : result (gset string) :=
  let current_marking_key := sorted (elements state_marking) in
  match marking_to_key rg !! current_marking_key with
  | Some current_marking_id => for_each (narrow rg current_marking_id) ongoing state_marking
  | None => Ok state_marking
  end.

(** [pd.Timestamp.max]: a timestamp is a 64-bit count of nanoseconds. *)
Definition timestamp_max : Z := 9223372036854775807.

(** [max_end_time + pd.Timedelta(seconds=1)]: the sum is out of bounds when
    it is beyond [pd.Timestamp.max]. *)
Definition plus_one_second (max_end_time : option Z) : result Z :=
  match max_end_time with
  | Some t =>
      if decide (t + one_second ≤ timestamp_max) then Ok (t + one_second)
      else Raise OutOfBoundsDatetime
  | None => Raise TypeError
  end.

(** The body of the loop over [state_flows] that collects the enabled
    activities (lines 90-110). *)
Definition enabled_activity (group finished_activities : list Event)
    (acc : list Enabled) (flow_id : string) : M (list Enabled) :=
  self ← get_self;
  match odict_get (sequence_flows (bpmn_handler self)) flow_id with
  | Some target_ref =>
      match activities (bpmn_handler self) !! target_ref with
      | Some activity_name =>
          enabled_time ←
            (if decide (length finished_activities = 0%nat) then
               lift (py_min (start_time <$> group))
             else
               _ ← (if decide (activity_name ∈ dom (concurrency (concurrency_oracle self)))
                    then mret ()
                    else register_activity activity_name);
               t ← lift (plus_one_second (series_max (end_time <$> finished_activities)));
               self ← get_self;
               mret (enabled_since (concurrency_oracle self)
                       (concurrency (concurrency_oracle self))
                       finished_activities (mkProbe activity_name t t)));
          mret (acc ++ [mkEnabled target_ref enabled_time])
      | None => mret acc
      end
  | None => mret acc
  end.

(** [tasks_upstream.intersection(ongoing_activity_ids)]: the upstream tasks
    that are ids of ongoing activities. *)
Definition upstream_ongoing (tasks_upstream : gset string)
    (ongoing_activity_ids : gset (option string)) : gset string :=
  filter (λ t, Some t ∈ ongoing_activity_ids) tasks_upstream.

(** The body of the loop over [state_flows] that collects the enabled
    gateways (lines 114-127); [gw_id] is true when it is not the empty
    string. *)
Definition enabled_gateway (h : BPMNHandler) (ongoing_activity_ids : gset (option string))
    (group finished_activities : list Event)
    (acc : list Enabled) (flow_id : string) : result (list Enabled) :=
  match odict_get (sequence_flows h) flow_id with
  | Some gw_id =>
      if decide (gw_id ≠ "" ∧ gw_id ∉ dom (activities h)) then
        tasks_upstream ← get_upstream_tasks_through_gateways h gw_id;
        if decide (upstream_ongoing tasks_upstream ongoing_activity_ids ≠ ∅) then
          Ok acc
        else
          gw_enabled_time ← _compute_gateway_enabled_time h gw_id group finished_activities;
          match gw_enabled_time with
          | Some t => Ok (acc ++ [mkEnabled gw_id (Some t)])
          | None => Ok acc
          end
      else Ok acc
  | None => Ok acc
  end.

Definition collect_enabled_gateways (h : BPMNHandler)
    (ongoing_activity_ids : gset (option string))
    (group finished_activities : list Event) (state_flows : gset string)
    : result (list Enabled) :=
  for_each (enabled_gateway h ongoing_activity_ids group finished_activities)
    (elements state_flows) [].

(** [set([activity['id'] for activity in ongoing_activities])] *)
Definition ongoing_ids (ongoing : list Ongoing) : gset (option string) :=
  list_to_set (og_id <$> ongoing).

(** The marking the trace matcher returns for the (sorted) group
    (lines 58-61). *)
Definition matched_marking (ng : NGramIndex) (group : list Event) : gset string :=
  get_best_marking_state_for ng (TRACE_START ng :: (activity <$> group)).

(** The body of the loop over the cases (lines 26-143), for the sorted group
    of one case: [None] when the case is skipped by [continue], its state
    otherwise. *)
Definition compute_case (group : list Event) : M (option CaseState) :=
  self ← get_self;
  let h := bpmn_handler self in
  let ongoing := collect_ongoing h (concurrency_oracle self) group in
  let state_marking := matched_marking (n_gram_index self) group in
  state_flows ← lift (correct_flows (reachability_graph self) ongoing state_marking);
  let ongoing_activity_ids := ongoing_ids ongoing in
  let finished_activities := filter (λ e, end_time e ≠ None) group in
  enabled ← for_each_M (enabled_activity group finished_activities) (elements state_flows) [];
  gateways ← lift (collect_enabled_gateways h ongoing_activity_ids group
                     finished_activities state_flows);
  if existsb (λ gateway, is_end_event h (en_id gateway)) gateways then
    mret None
  else
    mret (Some (mkCaseState (elements state_flows) (elements ongoing_activity_ids)
                  ongoing enabled gateways)).

(** One iteration of [for case_id, group in grouped] (lines 22-143). *)
Definition case_step (case_states : gmap string CaseState) (item : string * list Event)
    : M (gmap string CaseState) :=
  r ← compute_case (sort_values item.2);
  match r with
  | Some st => mret (<[item.1 := st]> case_states)
  | None => mret case_states
  end.

(** [compute_case_states] (lines 16-144). *)
Definition compute_case_states : M (gmap string CaseState) :=
  self ← get_self;
  for_each_M case_step (groupby (event_log_df self)) ∅.

(** ** Notions the properties are stated with *)

(** A sequence flow from [x] to [y]. *)
Definition flow_edge (h : BPMNHandler) (x y : string) : Prop :=
  ∃ sf_id, (sf_id, y) ∈ sequence_flows h ∧ flow_sources h !! sf_id = Some x.

(** [x] is strictly upstream of [y]: a non-empty path of flows leads from
    [x] to [y]. *)
Definition strictly_upstream (h : BPMNHandler) : relation string := tc (flow_edge h).

(** One backward step of the search: from [y], which is not an activity, to
    the source [x] of a flow into [y]. *)
Definition looks_back (h : BPMNHandler) (y x : string) : Prop :=
  (y ∉ dom (activities h)) ∧ flow_edge h x y.

(** [x] is reached from [start] by going backwards over flows, never going
    on from an activity. *)
Definition gateway_path (h : BPMNHandler) : relation string := rtc (looks_back h).

(** Every flow of [sequence_flows] has its source recorded, as it has after
    [parse_bpmn_xml]. *)
Definition flow_sources_total (h : BPMNHandler) : Prop :=
  ∀ sf_id tgt, (sf_id, tgt) ∈ sequence_flows h → is_Some (flow_sources h !! sf_id).

(** The sources of the flows: the only elements the search can push. *)
Definition sources (h : BPMNHandler) : gset string :=
  list_to_set (omap (λ item, flow_sources h !! item.1) (sequence_flows h)).

(** The measure of the search: what is on the stack and what can still be
    pushed. *)
Definition search_measure (h : BPMNHandler) (s : Search) : nat :=
  (length (stack s) + size (sources h ∖ visited s))%nat.

(** Invariants of the search from [start]. *)

(** Soundness: whatever is on the stack or among the tasks found was
    reached from the start without going on from an activity. *)
Definition search_sound (h : BPMNHandler) (start : string) (s : Search) : Prop :=
  (∀ x, x ∈ stack s → gateway_path h start x) ∧
  (∀ t, t ∈ tasks_found s → t ∈ dom (activities h) ∧ gateway_path h start t).

(** Completeness: an element that was visited (or the start) and is no more
    on the stack has been dealt with: an activity is among the tasks found,
    and the sources of the flows into any other element are visited. *)
Definition search_complete (h : BPMNHandler) (start : string) (s : Search) : Prop :=
  ∀ y, (y ∈ visited s ∨ y = start) → y ∉ stack s →
    (y ∈ dom (activities h) → y ∈ tasks_found s) ∧
    (y ∉ dom (activities h) → ∀ x, flow_edge h x y → x ∈ visited s).

(** The element [e] of the model document lacks the attribute [a]. *)
Definition lacks (e : Element) (a : string) : Prop := attrib e !! a = None.

(** Some task, end event (under either naming convention) or sequence flow
    of the document lacks an attribute that loading requires. *)
Definition missing_required (root : Element) : Prop :=
  (∃ e, e ∈ findall root (bpmn_ns +:+ "task") ∧ lacks e "id") ∨
  (∃ e, e ∈ findall root (bpmn_ns +:+ "endEvent") ∧ lacks e "id") ∨
  (∃ e, e ∈ findall root "endEvent" ∧ lacks e "id") ∨
  (∃ e, e ∈ findall root (bpmn_ns +:+ "sequenceFlow") ∧
        (lacks e "id" ∨ lacks e "targetRef" ∨ lacks e "sourceRef")).

(** [r] is the maximum end time over the events of [events] that satisfy
    [P]: the greatest end time there is, undefined when there is none. *)
Definition is_max_end_time (P : Event → Prop) (events : list Event) (r : option Z) : Prop :=
  match r with
  | Some m =>
      (∃ e, e ∈ events ∧ P e ∧ end_time e = Some m) ∧
      (∀ e t, e ∈ events → P e → end_time e = Some t → t ≤ m)
  | None => ∀ e, e ∈ events → P e → end_time e = None
  end.

(** The event is an execution of one of the tasks [ts]: its activity name
    is the name of one of them. *)
Definition event_of_tasks (h : BPMNHandler) (ts : gset string) (e : Event) : Prop :=
  ∃ t, t ∈ ts ∧ activities h !! t = Some (activity e).

(** The failure of model loading, which the specification calls
    ModelParseError: the parser's [ParseError] for a source that is not
    well-formed and the [KeyError] of a missing attribute. *)
Definition ModelParseError (e : exn) : Prop := e = ParseError ∨ e = KeyError.

(** What a run of the state computer leaves as it was: everything but the
    table of the concurrency oracle. *)
Definition same_inputs (s s' : StateComputer) : Prop :=
  n_gram_index s' = n_gram_index s ∧
  reachability_graph s' = reachability_graph s ∧
  event_log_df s' = event_log_df s ∧
  bpmn_handler s' = bpmn_handler s ∧
  enabled_since (concurrency_oracle s') = enabled_since (concurrency_oracle s).

(** The table [t'] is [t] with empty entries added for names that had none. *)
Definition lazily_extends (t t' : gmap string (gset string)) : Prop :=
  ∀ name, t' !! name = t !! name ∨ (t !! name = None ∧ t' !! name = Some ∅).

Definition frame (s s' : StateComputer) : Prop :=
  same_inputs s s' ∧
  lazily_extends (concurrency (concurrency_oracle s)) (concurrency (concurrency_oracle s')).

(** What [compute_case] computes for the sorted group of a case, as
    functions of the state computer: the ongoing records, the corrected
    [state_flows] and the enabled gateways. *)
Definition case_ongoing (self : StateComputer) (group : list Event) : list Ongoing :=
  collect_ongoing (bpmn_handler self) (concurrency_oracle self) group.

Definition case_flows (self : StateComputer) (group : list Event) : result (gset string) :=
  correct_flows (reachability_graph self) (case_ongoing self group)
    (matched_marking (n_gram_index self) group).

Definition case_gateways (self : StateComputer) (group : list Event)
    : result (list Enabled) :=
  state_flows ← case_flows self group;
  collect_enabled_gateways (bpmn_handler self) (ongoing_ids (case_ongoing self group))
    group (filter (λ e, end_time e ≠ None) group) state_flows.

(** The reachability graph is as its builder leaves it: every incoming edge
    of a node has its activity, its end points and the marking of its
    source. *)
Definition graph_wf (rg : ReachabilityGraph) : Prop :=
  ∀ node incoming edge_id,
    incoming_edges rg !! node = Some incoming → edge_id ∈ incoming →
    is_Some (edge_to_activity rg !! edge_id) ∧
    ∃ st, edges rg !! edge_id = Some st ∧ is_Some (markings rg !! st.1).

(** The ongoing records whose activity name resolved to a model activity. *)
Definition resolved (ongoing : list Ongoing) : list Ongoing :=
  filter (λ act, og_id act ≠ None) ongoing.

(** A method keeps the frame, whether it returns or raises. *)
Definition keeps_frame {A} (m : M A) : Prop := ∀ s r s', m s = (r, s') → frame s s'.

(** The gateway [gw] is reported for the flows [l]: it is the target of one
    of them, it passes the test on its upstream tasks, and its enabled time
    [t] is defined. *)
Definition reported (h : BPMNHandler) (ids : gset (option string))
    (group finished : list Event) (l : list string) (gw : Enabled) : Prop :=
  ∃ flow_id ts,
    flow_id ∈ l ∧ odict_get (sequence_flows h) flow_id = Some (en_id gw) ∧
    en_id gw ≠ "" ∧ (en_id gw ∉ dom (activities h)) ∧
    get_upstream_tasks_through_gateways h (en_id gw) = Ok ts ∧
    upstream_ongoing ts ids = ∅ ∧
    en_enabled_time gw ≠ None ∧
    _compute_gateway_enabled_time h (en_id gw) group finished = Ok (en_enabled_time gw).

(** The property "[control_flow_state.activities] is exactly the set of the
    resolved ids of the ongoing events of the case". *)
Definition activities_are_resolved_ids (h : BPMNHandler) (group : list Event)
    (st : CaseState) : Prop :=
  ∀ x, x ∈ cfs_activities st ↔
       ∃ e t, e ∈ group ∧ end_time e = None ∧
              get_task_id_by_name h (activity e) = Some t ∧ x = Some t.

(** The target [gw] of a flow is kept out of the enabled gateways: its
    upstream tasks meet the ongoing activities, or its enabled time is
    undefined. *)
Definition held_back (self : StateComputer) (group : list Event) (gw : string) : Prop :=
  (∃ ts, get_upstream_tasks_through_gateways (bpmn_handler self) gw = Ok ts ∧
         upstream_ongoing ts (ongoing_ids (case_ongoing self group)) ≠ ∅) ∨
  _compute_gateway_enabled_time (bpmn_handler self) gw group
    (filter (λ e, end_time e ≠ None) group) = Ok None.

(** The property "no task of the result is strictly upstream of another
    task of the result". *)
Definition no_task_upstream_of_another (h : BPMNHandler) (ts : gset string) : Prop :=
  ∀ t t', t ∈ ts → t' ∈ ts → t ≠ t' → ¬ strictly_upstream h t t'.

(** The collaborators the state computer works with are well-formed. *)
Definition wf_computer (s : StateComputer) : Prop :=
  graph_wf (reachability_graph s) ∧ flow_sources_total (bpmn_handler s).

(** Every end time of the log is at least one second before
    [pd.Timestamp.max]. *)
Definition end_times_in_range (df : list Event) : Prop :=
  ∀ e t, e ∈ df → end_time e = Some t → t + one_second ≤ timestamp_max.

(** The property "the case tolerates its ongoing event [e], whose activity
    name is not a model activity": the run does not fail, the event is in
    [ongoing_activities] of the state of the case with a null id, and the
    correction of the marking and the test on the upstream tasks of a
    gateway are those without the records that have no id. *)
Definition tolerates_unresolved (self : StateComputer) (cid : string)
    (group : list Event) (e : Event) : Prop :=
  ∃ cs self',
    compute_case_states self = (Ok cs, self') ∧
    (∀ st, cs !! cid = Some st →
       mkOngoing None (start_time e) (resource e) None ∈ ongoing_activities st) ∧
    case_flows self (sort_values group)
    = correct_flows (reachability_graph self)
        (resolved (case_ongoing self (sort_values group)))
        (matched_marking (n_gram_index self) (sort_values group)) ∧
    (∀ ts, upstream_ongoing ts (ongoing_ids (case_ongoing self (sort_values group)))
           = upstream_ongoing ts
               (ongoing_ids (resolved (case_ongoing self (sort_values group))))).

(** ** Example inputs

    A model with the tasks A and B in sequence between a start and an end
    event. *)

Definition example_document : Element :=
  Elem (bpmn_ns +:+ "definitions") ∅
    [Elem (bpmn_ns +:+ "process") {["id" := "process"]}
       [Elem (bpmn_ns +:+ "startEvent") {["id" := "start"]} [];
        Elem (bpmn_ns +:+ "task") {["id" := "task_A"; "name" := "A"]} [];
        Elem (bpmn_ns +:+ "task") {["id" := "task_B"; "name" := "B"]} [];
        Elem (bpmn_ns +:+ "endEvent") {["id" := "end"]} [];
        Elem (bpmn_ns +:+ "sequenceFlow")
          {["id" := "f0"; "sourceRef" := "start"; "targetRef" := "task_A"]} [];
        Elem (bpmn_ns +:+ "sequenceFlow")
          {["id" := "f1"; "sourceRef" := "task_A"; "targetRef" := "task_B"]} [];
        Elem (bpmn_ns +:+ "sequenceFlow")
          {["id" := "f2"; "sourceRef" := "task_B"; "targetRef" := "end"]} []]].

Definition example_handler : BPMNHandler :=
  mkBPMNHandler [("f0", "task_A"); ("f1", "task_B"); ("f2", "end")]
    {["task_A" := "A"; "task_B" := "B"]}
    {["f0" := "start"; "f1" := "task_A"; "f2" := "task_B"]}
    {["A" := "task_A"; "B" := "task_B"]}
    {["end"]}.

(** The same document with a sequence flow that has no [targetRef]. *)
Definition broken_document : Element :=
  Elem (bpmn_ns +:+ "definitions") ∅
    [Elem (bpmn_ns +:+ "task") {["id" := "task_A"; "name" := "A"]} [];
     Elem (bpmn_ns +:+ "sequenceFlow") {["id" := "f0"; "sourceRef" := "start"]} []].

(** Its reachability graph: the markings [{f0}], [{f1}] and [{f2}], with an
    edge for A and an edge for B. *)
Definition example_graph : ReachabilityGraph :=
  mkReachabilityGraph
    {[ ["f0"] := 0; ["f1"] := 1; ["f2"] := 2 ]}
    {[ 0 := []; 1 := [10]; 2 := [11] ]}
    {[ 10 := (0, 1); 11 := (1, 2) ]}
    {[ 10 := "task_A"; 11 := "task_B" ]}
    {[ 0 := {["f0"]}; 1 := {["f1"]}; 2 := {["f2"]} ]}.

(** A graph whose edge into the marking [{f1}] has no activity label, and
    the same graph without the end points of that edge. *)
Definition unlabelled_graph : ReachabilityGraph :=
  mkReachabilityGraph {[ ["f1"] := 1 ]} {[ 1 := [10] ]} {[ 10 := (0, 1) ]} ∅
    {[ 0 := {["f0"]}; 1 := {["f1"]} ]}.

Definition dangling_graph : ReachabilityGraph :=
  mkReachabilityGraph {[ ["f1"] := 1 ]} {[ 1 := [10] ]} ∅ ∅
    {[ 0 := {["f0"]}; 1 := {["f1"]} ]}.

(** A graph that knows no marking: the correction step is skipped. *)
Definition empty_graph : ReachabilityGraph := mkReachabilityGraph ∅ ∅ ∅ ∅ ∅.

(** A matcher that places a trace with B after B and any other trace after
    A. *)
Definition example_index : NGramIndex :=
  mkNGramIndex "TRACE_START"
    (λ n_gram, if decide ("B" ∈ n_gram) then {["f2"]} else {["f1"]}).

(** An oracle that answers with the latest end time of the history. *)
Definition example_oracle : ConcurrencyOracle :=
  mkConcurrencyOracle {["A" := ∅]} (λ _ trace _, series_max (end_time <$> trace)).

(** Three cases: in c1, A is finished and B is running; in c2, both are
    finished; in c3, A is finished and an activity that the model does not
    have is running. *)
Definition example_log : list Event :=
  [ mkEvent "c1" "A" "ann" (Some 1) (Some 10) (Some 0);
    mkEvent "c2" "A" "bob" (Some 2) (Some 11) (Some 0);
    mkEvent "c1" "B" "ann" (Some 12) None (Some 10);
    mkEvent "c2" "B" "bob" (Some 13) (Some 20) (Some 11);
    mkEvent "c3" "A" "eve" (Some 3) (Some 9) (Some 0);
    mkEvent "c3" "X" "eve" (Some 14) None None ].

Definition example_computer : StateComputer :=
  mkStateComputer example_index empty_graph example_log example_handler example_oracle.

Definition example_computer_graph : StateComputer :=
  mkStateComputer example_index example_graph example_log example_handler example_oracle.

Definition unlabelled_computer : StateComputer :=
  mkStateComputer example_index unlabelled_graph example_log example_handler example_oracle.

Definition dangling_computer : StateComputer :=
  mkStateComputer example_index dangling_graph example_log example_handler example_oracle.

(** A case in which A ended half a second before [pd.Timestamp.max]; the
    matcher places it on the flow into B. *)
Definition late_computer : StateComputer :=
  mkStateComputer example_index example_graph
    [mkEvent "c1" "A" "ann" (Some 1) (Some (timestamp_max - 500000000)) (Some 0)]
    example_handler example_oracle.

(** A model in which the task T1 leads to the gateway G directly and through
    the task T2. *)
Definition diamond_handler : BPMNHandler :=
  mkBPMNHandler [("f1", "T2"); ("f2", "G"); ("f3", "G")]
    {["T1" := "A"; "T2" := "B"]}
    {["f1" := "T1"; "f2" := "T2"; "f3" := "T1"]}
    {["A" := "T1"; "B" := "T2"]}
    ∅.

(** A model with two parallel tasks, each followed by its own end event;
    in the case c1, A is running and B is finished, and the matcher places
    the case on both flows into the end events. *)
Definition two_ends_handler : BPMNHandler :=
  mkBPMNHandler [("fa", "end_a"); ("fb", "end_b")]
    {["task_A" := "A"; "task_B" := "B"]}
    {["fa" := "task_A"; "fb" := "task_B"]}
    {["A" := "task_A"; "B" := "task_B"]}
    {["end_a"; "end_b"]}.

Definition two_ends_log : list Event :=
  [ mkEvent "c1" "B" "ann" (Some 1) (Some 10) (Some 0);
    mkEvent "c1" "A" "ann" (Some 2) None (Some 0) ].

Definition two_ends_computer : StateComputer :=
  mkStateComputer (mkNGramIndex "TRACE_START" (λ _, {["fa"; "fb"]})) empty_graph
    two_ends_log two_ends_handler example_oracle.

(** A model with a cycle: the gateways G1 and G2 feed each other, and the
    task T feeds G1. *)
Definition cyclic_handler : BPMNHandler :=
  mkBPMNHandler [("f1", "G2"); ("f2", "G1"); ("f3", "G1")]
    {["T" := "T"]}
    {["f1" := "G1"; "f2" := "G2"; "f3" := "T"]}
    {["T" := "T"]}
    ∅.

(** A case that has only started: A is running since 5 and nothing is
    finished; the matcher places it on the flow into A. *)
Definition bootstrap_computer : StateComputer :=
  mkStateComputer (mkNGramIndex "TRACE_START" (λ _, {["f0"]})) empty_graph
    [mkEvent "c1" "A" "ann" (Some 5) None None] example_handler example_oracle.

(** The outcome of a run: the mapping it returns (empty when it raises). *)
Definition returned (run : result (gmap string CaseState) * StateComputer)
    : gmap string CaseState :=
  match run.1 with
  | Ok case_states => case_states
  | Raise _ => ∅
  end.

(** ** Notions for the further properties *)

(** The id of an element and the name a task element is recorded with:
    its [name], or ["Unnamed Task <id>"]. *)
Definition element_id (e : Element) : option string := attrib e !! "id".

Definition task_name_of (e : Element) : option string :=
  t_id ← element_id e; Some (default ("Unnamed Task " +:+ t_id) (attrib e !! "name")).

(** The last element of the list [l] that has the value [v] under [key]:
    the one a dictionary filled in the order of [l] keeps. *)
Definition last_with (key : Element → option string) (v : string) (l : list Element)
    : option Element :=
  last (filter (λ e, key e = Some v) l).

(** The elements of the document that loading looks at (lines 26, 33, 38
    and 43): the namespaced tasks, the end events under both naming
    conventions, and the namespaced sequence flows. *)
Definition task_elements (root : Element) : list Element :=
  findall root (bpmn_ns +:+ "task").

Definition end_event_elements (root : Element) : list Element :=
  findall root (bpmn_ns +:+ "endEvent") ++ findall root "endEvent".

Definition flow_elements (root : Element) : list Element :=
  findall root (bpmn_ns +:+ "sequenceFlow").

(** A document in which two tasks share the name A and a task has no name. *)
Definition colliding_document : Element :=
  Elem (bpmn_ns +:+ "definitions") ∅
    [Elem (bpmn_ns +:+ "task") {["id" := "t1"; "name" := "A"]} [];
     Elem (bpmn_ns +:+ "task") {["id" := "t2"; "name" := "A"]} [];
     Elem (bpmn_ns +:+ "task") {["id" := "t3"]} [];
     Elem "endEvent" {["id" := "e1"]} [];
     Elem (bpmn_ns +:+ "endEvent") {["id" := "e2"]} []].

(** The tables that loading leaves for it: the second task is the one
    recorded under the name A. *)
Definition colliding_handler : BPMNHandler :=
  mkBPMNHandler []
    {["t1" := "A"; "t2" := "A"; "t3" := "Unnamed Task t3"]}
    ∅
    {["A" := "t2"; "Unnamed Task t3" := "t3"]}
    {["e1"; "e2"]}.

(** The example model with its flows recorded in another order. *)
Definition reordered_handler : BPMNHandler :=
  mkBPMNHandler [("f2", "end"); ("f0", "task_A"); ("f1", "task_B")]
    (activities example_handler) (flow_sources example_handler)
    (task_name_to_id example_handler) (end_events example_handler).

(** A model with a gateway that joins the tasks A and B before the end
    event; the flow [fx] into the gateway has no recorded source. *)
Definition join_handler : BPMNHandler :=
  mkBPMNHandler [("f1", "join"); ("f2", "join"); ("f3", "end")]
    {["task_A" := "A"; "task_B" := "B"]}
    {["f1" := "task_A"; "f2" := "task_B"; "f3" := "join"]}
    {["A" := "task_A"; "B" := "task_B"]}
    {["end"]}.

(** The activity a flow targets, when its target is a model activity. *)
Definition activity_target (h : BPMNHandler) (flow_id : string) : option string :=
  target_ref ← odict_get (sequence_flows h) flow_id;
  if decide (target_ref ∈ dom (activities h)) then Some target_ref else None.

(** The order of [sort_values], on the rows and on the ongoing records. *)
Definition starts_no_later (e1 e2 : Event) : Prop :=
  time_le (start_time e1) (start_time e2) = true.

Definition og_starts_no_later (o1 o2 : Ongoing) : Prop :=
  time_le (og_start_time o1) (og_start_time o2) = true.

(** [t] is the earliest start time of the group: the start time of one of
    its rows that no row precedes; [NaT] only when no row has a start
    time. *)
Definition is_earliest_start (group : list Event) (t : option Z) : Prop :=
  (∃ e, e ∈ group ∧ start_time e = t) ∧
  ∀ e, e ∈ group → time_le t (start_time e) = true.

(** The rows of a case in the log. *)
Definition rows_of (cid : string) (df : list Event) : list Event :=
  filter (λ e, case_id e = cid) df.

(** The part of an ongoing record that is read off its row. *)
Definition og_row (o : Ongoing) : option Z * string := (og_start_time o, og_resource o).
Definition event_row (e : Event) : option Z * string := (start_time e, resource e).

(** Every name whose entry in the oracle's table changed is the name of a
    model activity. *)
Definition registers_model_names (s s' : StateComputer) : Prop :=
  ∀ name,
    concurrency (concurrency_oracle s') !! name ≠ concurrency (concurrency_oracle s) !! name →
    ∃ t, activities (bpmn_handler s) !! t = Some name.

Definition registration_frame (s s' : StateComputer) : Prop :=
  frame s s' ∧ registers_model_names s s'.

(** A method keeps a relation between the object before and after it,
    whether it returns or raises. *)
Definition keeps {A} (R : relation StateComputer) (m : M A) : Prop :=
  ∀ s r s', m s = (r, s') → R s s'.

(** The oracle has an entry for the name of every model activity. *)
Definition oracle_knows_model (s : StateComputer) : Prop :=
  ∀ t name, activities (bpmn_handler s) !! t = Some name →
            name ∈ dom (concurrency (concurrency_oracle s)).

(** The joining model with a case in which A and B are finished; the
    matcher places the case on the two flows into the gateway. *)
Definition join_log : list Event :=
  [ mkEvent "c1" "A" "ann" (Some 1) (Some 10) (Some 0);
    mkEvent "c1" "B" "bob" (Some 2) (Some 12) (Some 0) ].

Definition join_computer : StateComputer :=
  mkStateComputer (mkNGramIndex "TRACE_START" (λ _, {["f1"; "f2"]})) empty_graph
    join_log join_handler example_oracle.

(** The example computer with an oracle that has an entry for A and for B. *)
Definition informed_computer : StateComputer :=
  mkStateComputer example_index empty_graph example_log example_handler
    (mkConcurrencyOracle {["A" := ∅; "B" := ∅]} (enabled_since example_oracle)).

(** The example computer with the case c1 alone in the log, in another
    order among other rows, and an oracle that knows nothing. *)
Definition lone_case_log : list Event :=
  [ mkEvent "c9" "A" "zoe" (Some 7) None None;
    mkEvent "c1" "A" "ann" (Some 1) (Some 10) (Some 0);
    mkEvent "c1" "B" "ann" (Some 12) None (Some 10) ].

Definition lone_case_computer : StateComputer :=
  mkStateComputer example_index empty_graph lone_case_log example_handler
    (mkConcurrencyOracle ∅ (λ _ _ _, None)).

(** ** The filters of the evaluation on event logs
       ([test/helper.py], [test/evaluation.py])

    A data frame with its columns: the rows are [Event]s, and the field of a
    row for a column that the frame does not have is never read. *)

Record DataFrame : Type := mkDataFrame {
  columns : gset string;
  rows : list Event
}.

(** [df[col]] and [df.groupby(col)]: [KeyError] for a column that the frame
    does not have. *)
Definition column (df : DataFrame) (col : string) : result unit :=
  if decide (col ∈ columns df) then Ok () else Raise KeyError.

(** [series.min()]: the least value that is not [NaT], [NaT] when there is
    none. *)
Definition nat_min (a b : option Z) : option Z :=
  match a, b with
  | Some x, Some y => Some (Z.min x y)
  | Some x, None => Some x
  | None, _ => b
  end.

Definition series_min (s : list (option Z)) : option Z := foldr nat_min None s.

(** [a <= b] on timestamps: false when one of them is [NaT]. *)
Definition time_leq (a b : option Z) : bool :=
  match a, b with
  | Some x, Some y => (x <=? y)%Z
  | _, _ => false
  end.

(** [out.groupby("case_id")["start_time"].transform("min")], at one row: the
    least start time of the rows of its case. *)
Definition min_st (out : list Event) (e : Event) : option Z :=
  series_min (start_time <$> filter (λ e', case_id e' = case_id e) out).

(** [preprocess_alog] ([test/helper.py], lines 79-96): [start_time] and
    [horizon] are [None] when they are not given. *)
Definition preprocess_alog (df : DataFrame) (start horizon : option Z)
    : result DataFrame :=
  let out := df in
  let out :=
    match start with
    | Some st =>
        if decide ("end_time" ∈ columns out) then
          mkDataFrame (columns out)
            (filter (λ e, time_lt (end_time e) (Some st) = false) (rows out))
        else out
    | None => out
    end in
  match horizon with
  | Some hz =>
      if decide ("start_time" ∈ columns out) then
        _ ← column out "case_id";
        Ok (mkDataFrame (columns out)
              (filter (λ e, time_lt (Some hz) (min_st (rows out) e) = false) (rows out)))
      else Ok out
  | None => Ok out
  end.

(** [preprocess_glog] ([test/helper.py], lines 99-107). *)
Definition preprocess_glog (df : DataFrame) (horizon : option Z) : result DataFrame :=
  let out := df in
  match horizon with
  | Some hz =>
      if decide ("start_time" ∈ columns out) then
        _ ← column out "case_id";
        Ok (mkDataFrame (columns out)
              (filter (λ e, time_lt (Some hz) (min_st (rows out) e) = false) (rows out)))
      else Ok out
  | None => Ok out
  end.

(** The body of the loop of [discard_partial_cases] over the groups. *)
Definition keep_case (df : DataFrame) (start_dt horizon_dt : Z)
    (keep_case_ids : list string) (item : string * list Event) : result (list string) :=
  _ ← column df "start_time";
  let min_start := series_min (start_time <$> item.2) in
  _ ← column df "end_time";
  let max_end := series_max (end_time <$> item.2) in
  if time_leq (Some start_dt) min_start && time_leq max_end (Some horizon_dt)
  then Ok (keep_case_ids ++ [item.1])
  else Ok keep_case_ids.

(** [discard_partial_cases] ([test/evaluation.py], lines 32-51); [df.empty]
    holds of a frame without rows or without columns. *)
Definition discard_partial_cases (df : DataFrame) (start_dt horizon_dt : Z)
    : result DataFrame :=
  if decide (rows df = [] ∨ columns df = ∅) then Ok df
  else
    _ ← column df "case_id";
    keep_case_ids ← for_each (keep_case df start_dt horizon_dt) (groupby (rows df)) [];
    Ok (mkDataFrame (columns df) (filter (λ e, case_id e ∈ keep_case_ids) (rows df))).

(** The columns of an event log. *)
Definition log_columns : gset string :=
  {["case_id"; "activity"; "resource"; "start_time"; "end_time"; "enable_time"]}.

(** The case is within the window: it has a start time and an end time, no
    start time before [start_dt] and no end time after [horizon_dt]. *)
Definition case_within (start_dt horizon_dt : Z) (group : list Event) : Prop :=
  (∃ e t, e ∈ group ∧ start_time e = Some t) ∧
  (∃ e t, e ∈ group ∧ end_time e = Some t) ∧
  (∀ e t, e ∈ group → start_time e = Some t → start_dt ≤ t) ∧
  (∀ e t, e ∈ group → end_time e = Some t → t ≤ horizon_dt).

(** The case starts by the horizon: none of its rows has a start time, or
    one has a start time that is not after the horizon. *)
Definition case_starts_by (horizon : Z) (group : list Event) : Prop :=
  (∀ e, e ∈ group → start_time e = None) ∨
  (∃ e t, e ∈ group ∧ start_time e = Some t ∧ t ≤ horizon).

(** The example log as a data frame, and a frame whose rows have no column
    for the start time. *)
Definition example_frame : DataFrame := mkDataFrame log_columns example_log.

Definition frame_without_start : DataFrame :=
  mkDataFrame {["case_id"; "end_time"]} example_log.

(** * Lemmas *)

Lemma result_bind_Ok {A B} (r : result A) (f : A → result B) b :
  (r ≫= f) = Ok b → ∃ a, r = Ok a ∧ f a = Ok b.
Proof. destruct r as [a|e]; simpl; [eauto | discriminate]. Qed.

(** A loop invariant: what holds before the loop and is kept by every body
    that returns holds when the loop returns. *)
Lemma for_each_invariant {A S} (P : S → Prop) (body : S → A → result S) l s s' :
  (∀ s x s', x ∈ l → P s → body s x = Ok s' → P s') →
  P s → for_each body l s = Ok s' → P s'.
Proof.
  revert s. induction l as [|x l IH]; intros s Hbody HP Hrun; simpl in Hrun.
  - by injection Hrun as <-.
  - apply result_bind_Ok in Hrun as (s1 & H1 & H2).
    apply (IH s1); [| |done].
    + intros ???? . apply Hbody. by right.
    + eapply Hbody; [by left| |]; done.
Qed.

Lemma size_sources (h : BPMNHandler) : (size (sources h) ≤ length (sequence_flows h))%nat.
Proof.
  unfold sources. induction (sequence_flows h) as [|item l IH]; simpl.
  - change (size (∅ : gset string) ≤ 0)%nat. by rewrite size_empty.
  - destruct (flow_sources h !! item.1); simpl.
    + rewrite size_union_alt, size_singleton. apply le_n_S.
      match goal with
      | |- (size (?X ∖ ?Y) ≤ _)%nat =>
          trans (size X); [apply subseteq_size; set_solver | exact IH]
      end.
    + etrans; [exact IH|]. lia.
Qed.

Lemma elem_of_sources h sf_id tgt src :
  (sf_id, tgt) ∈ sequence_flows h → flow_sources h !! sf_id = Some src → src ∈ sources h.
Proof.
  intros Hin Hsrc. unfold sources. apply elem_of_list_to_set, list_elem_of_omap.
  exists (sf_id, tgt). done.
Qed.

(** The scan of the flows keeps the measure and only pushes sources of flows
    into [current]. *)
Lemma scan_flow_measure h current vs item vs' :
  item ∈ sequence_flows h →
  scan_flow h current vs item = Ok vs' →
  (length vs'.2 + size (sources h ∖ vs'.1) = length vs.2 + size (sources h ∖ vs.1))%nat.
Proof.
  intros Hin. destruct item as [sf_id tgt]. unfold scan_flow.
  case_decide; [|by intros [= <-]].
  intros Hrun. apply result_bind_Ok in Hrun as (src & Hsrc & Hrun).
  unfold getitem in Hsrc. destruct (flow_sources h !! sf_id) as [src'|] eqn:E; [|done].
  injection Hsrc as ->.
  case_decide as Hv; injection Hrun as <-; [done|]. simpl.
  assert (src ∈ sources h) by eauto using elem_of_sources.
  assert (sources h ∖ vs.1 = {[src]} ∪ sources h ∖ ({[src]} ∪ vs.1)) as ->.
  { apply set_eq. intros x. rewrite !elem_of_union, !elem_of_difference, !elem_of_union, elem_of_singleton.
    destruct (decide (x = src)) as [->|]; naive_solver. }
  rewrite (size_union {[src]}); [|set_solver]. rewrite size_singleton. lia.
Qed.

Lemma scan_measure h current l vs vs' :
  (∀ item, item ∈ l → item ∈ sequence_flows h) →
  for_each (scan_flow h current) l vs = Ok vs' →
  (length vs'.2 + size (sources h ∖ vs'.1) = length vs.2 + size (sources h ∖ vs.1))%nat.
Proof.
  intros Hl Hrun.
  eapply (for_each_invariant
            (λ v, (length v.2 + size (sources h ∖ v.1)
                   = length vs.2 + size (sources h ∖ vs.1))%nat));
    [|reflexivity|exact Hrun].
  intros v item v' Hin Hv Hstep.
  rewrite <- Hv. eapply scan_flow_measure; eauto.
Qed.

(** Every iteration on a non-empty stack lowers the measure by one. *)
Lemma search_step_measure h s s' :
  stack s ≠ [] → search_step h s = Ok s' →
  S (search_measure h s') = search_measure h s.
Proof.
  unfold search_step, search_measure. destruct (stack s) as [|current rest]; [done|].
  intros _. case_decide.
  - intros [= <-]. simpl. done.
  - intros Hrun. apply result_bind_Ok in Hrun as (vs & Hscan & [= <-]). simpl.
    apply scan_measure in Hscan; [|done]. simpl in Hscan. lia.
Qed.

Lemma search_loop_exits_from h n s s' :
  (search_measure h s ≤ n)%nat → search_loop h n s = Ok s' → stack s' = [].
Proof.
  revert s. induction n as [|n IH]; intros s Hm Hrun.
  - unfold search_measure in Hm. destruct s as [v [|x st] t]; simpl in *; [|lia].
    by injection Hrun as <-.
  - simpl in Hrun. destruct (stack s) as [|x st] eqn:Hst.
    + injection Hrun as <-. done.
    + apply result_bind_Ok in Hrun as (s1 & Hstep & Hrun).
      apply (IH s1); [|done].
      apply search_step_measure in Hstep; [lia|]. by rewrite Hst.
Qed.

Lemma search_loop_more_fuel h n m s :
  (search_measure h s ≤ n)%nat → (n ≤ m)%nat → search_loop h m s = search_loop h n s.
Proof.
  revert m s. induction n as [|n IH]; intros m s Hm Hle.
  - unfold search_measure in Hm. destruct s as [v [|x st] t]; simpl in *; [|lia].
    by destruct m.
  - destruct m as [|m]; [lia|]. simpl. destruct (stack s) as [|x st] eqn:Hst; [done|].
    destruct (search_step h s) as [s1|e] eqn:Hstep; simpl; [|done].
    apply IH; [|lia].
    apply search_step_measure in Hstep; [lia|]. by rewrite Hst.
Qed.

Lemma search_init_measure h gateway_id :
  (search_measure h (search_init gateway_id) ≤ search_bound h)%nat.
Proof.
  unfold search_measure, search_bound, search_init. simpl.
  apply le_n_S. etrans; [|apply size_sources]. apply subseteq_size. set_solver.
Qed.

(** *** What the search finds *)

(** What one scan of the flows does to [visited] and [stack]. *)
Lemma scan_flow_spec h current vs item vs' :
  scan_flow h current vs item = Ok vs' →
  vs.1 ⊆ vs'.1 ∧
  (∀ x, x ∈ vs'.2 ↔ x ∈ vs.2 ∨ (x ∈ vs'.1 ∧ x ∉ vs.1)) ∧
  (∀ x, x ∈ vs'.1 → x ∈ vs.1 ∨ (item.2 = current ∧ flow_sources h !! item.1 = Some x)) ∧
  (∀ x, item.2 = current → flow_sources h !! item.1 = Some x → x ∈ vs'.1).
Proof.
  destruct item as [sf_id tgt]. unfold scan_flow. simpl.
  case_decide as Htgt.
  - intros Hrun. apply result_bind_Ok in Hrun as (src & Hsrc & Hrun).
    unfold getitem in Hsrc. destruct (flow_sources h !! sf_id) as [src'|] eqn:E; [|done].
    injection Hsrc as ->.
    case_decide as Hv; injection Hrun as <-; simpl.
    + split_and!; [done|naive_solver|naive_solver|]. by intros x _ [= <-].
    + split_and!; [set_solver| |set_solver|set_solver].
      intros x. rewrite elem_of_cons, elem_of_union, elem_of_singleton.
      destruct (decide (x = src)) as [->|]; naive_solver.
  - intros [= <-]. split_and!; [done|naive_solver|naive_solver|done].
Qed.

Lemma scan_spec h current l vs vs' :
  for_each (scan_flow h current) l vs = Ok vs' →
  vs.1 ⊆ vs'.1 ∧
  (∀ x, x ∈ vs'.2 ↔ x ∈ vs.2 ∨ (x ∈ vs'.1 ∧ x ∉ vs.1)) ∧
  (∀ x, x ∈ vs'.1 → x ∈ vs.1 ∨
     ∃ sf_id, (sf_id, current) ∈ l ∧ flow_sources h !! sf_id = Some x) ∧
  (∀ sf_id x, (sf_id, current) ∈ l → flow_sources h !! sf_id = Some x → x ∈ vs'.1).
Proof.
  revert vs. induction l as [|item l IH]; intros vs Hrun; simpl in Hrun.
  - injection Hrun as <-. split_and!; [done|naive_solver|naive_solver|].
    intros ?? Hin. by apply elem_of_nil in Hin.
  - apply result_bind_Ok in Hrun as (vs1 & Hstep & Hrun).
    apply scan_flow_spec in Hstep as (Hs1 & Hs2 & Hs3 & Hs4).
    apply IH in Hrun as (Hr1 & Hr2 & Hr3 & Hr4).
    split_and!.
    + by trans vs1.1.
    + intros x. rewrite Hr2, Hs2. specialize (Hs1 x). specialize (Hr1 x).
      clear -Hs1 Hr1. destruct (decide (x ∈ vs1.1)); tauto.
    + intros x Hx. apply Hr3 in Hx as [Hx|(sf_id & Hin & Hsrc)].
      * apply Hs3 in Hx as [Hx|[Htgt Hsrc]]; [by left|]. right.
        exists item.1. split; [|done]. destruct item; simpl in *; subst. by left.
      * right. exists sf_id. split; [by right|done].
    + intros sf_id x Hin Hsrc. apply elem_of_cons in Hin as [<-|Hin].
      * apply Hr1. by apply Hs4.
      * by eapply Hr4.
Qed.

Lemma search_step_sound h start s s' :
  search_sound h start s → search_step h s = Ok s' → search_sound h start s'.
Proof.
  intros [Hst Htf]. unfold search_step.
  destruct (stack s) as [|current rest] eqn:Hstack; [by intros [= <-]; split; [rewrite Hstack|]|].
  assert (gateway_path h start current) as Hcur by (apply Hst; left).
  case_decide as Hact.
  - intros [= <-]. split; simpl.
    + intros x Hx. apply Hst. by right.
    + intros t [->%elem_of_singleton|Ht]%elem_of_union; [done|by apply Htf].
  - intros Hrun. apply result_bind_Ok in Hrun as (vs & Hscan & [= <-]).
    apply scan_spec in Hscan as (_ & H2 & H3 & _). simpl in *.
    split; simpl; [|done].
    intros x [Hx|[Hx Hnew]]%H2; [apply Hst; by right|].
    apply H3 in Hx as [Hx|(sf_id & Hin & Hsrc)]; [done|].
    eapply rtc_r; [exact Hcur|]. split; [done|]. by exists sf_id.
Qed.

Lemma search_loop_sound h start n s s' :
  search_sound h start s → search_loop h n s = Ok s' → search_sound h start s'.
Proof.
  revert s. induction n as [|n IH]; intros s Hs Hrun; simpl in Hrun.
  - destruct (stack s); by injection Hrun as <-.
  - destruct (stack s) eqn:Hst; [by injection Hrun as <-|].
    apply result_bind_Ok in Hrun as (s1 & Hstep & Hrun).
    eapply IH; [|done]. eapply search_step_sound; done.
Qed.

Lemma search_step_complete h start s s' :
  search_complete h start s → search_step h s = Ok s' → search_complete h start s'.
Proof.
  intros Hc. unfold search_step.
  destruct (stack s) as [|current rest] eqn:Hstack; [by intros [= <-]|].
  case_decide as Hact.
  - intros [= <-] y Hy Hny. simpl in *.
    destruct (decide (y = current)) as [->|Hne].
    + split; [set_solver|done].
    + destruct (Hc y Hy) as [Hc1 Hc2]; [rewrite Hstack; set_solver|].
      split; [set_solver|done].
  - intros Hrun. apply result_bind_Ok in Hrun as (vs & Hscan & [= <-]).
    apply scan_spec in Hscan as (H1 & H2 & H3 & H4). simpl in *.
    intros y Hy Hny.
    assert ((y ∉ rest) ∧ ¬ (y ∈ vs.1 ∧ y ∉ visited s)) as [Hrest Hold].
    { split; intros ?; apply Hny, H2; auto. }
    assert (y ∈ visited s ∨ y = start) as Hy'.
    { destruct Hy as [Hy|]; [|by right].
      destruct (decide (y ∈ visited s)); [by left|]. destruct Hold. done. }
    destruct (decide (y = current)) as [->|Hne].
    + split; [done|]. intros _ x (sf_id & Hin & Hsrc). by eapply H4.
    + destruct (Hc y Hy') as [Hc1 Hc2]; [rewrite Hstack; set_solver|].
      split; [done|]. intros Hna x Hx. apply H1. by apply Hc2.
Qed.

Lemma search_loop_complete h start n s s' :
  search_complete h start s → search_loop h n s = Ok s' → search_complete h start s'.
Proof.
  revert s. induction n as [|n IH]; intros s Hs Hrun; simpl in Hrun.
  - destruct (stack s); by injection Hrun as <-.
  - destruct (stack s) eqn:Hst; [by injection Hrun as <-|].
    apply result_bind_Ok in Hrun as (s1 & Hstep & Hrun).
    eapply IH; [|done]. eapply search_step_complete; done.
Qed.

Lemma search_complete_exit h start s x :
  search_complete h start s → stack s = [] → gateway_path h start x →
  (x ∈ visited s ∨ x = start).
Proof.
  intros Hc Hst Hpath. revert x Hpath. apply rtc_ind_r; [by right|].
  intros y x _ [Hna Hedge] IH.
  destruct (Hc y IH) as [_ Hc2]; [rewrite Hst; apply not_elem_of_nil|].
  left. by apply Hc2.
Qed.

(** The result of the traversal, exactly. *)
Lemma get_upstream_tasks_spec h start ts :
  get_upstream_tasks_through_gateways h start = Ok ts →
  ∀ t, t ∈ ts ↔ t ∈ dom (activities h) ∧ gateway_path h start t.
Proof.
  unfold get_upstream_tasks_through_gateways. intros Hrun.
  apply result_bind_Ok in Hrun as (s & Hloop & [= <-]).
  pose proof (search_loop_exits_from h _ _ _ (search_init_measure h start) Hloop) as Hexit.
  assert (search_sound h start s) as [_ Hsound].
  { eapply search_loop_sound; [|exact Hloop]. split; simpl.
    - intros x ->%list_elem_of_singleton. apply rtc_refl.
    - set_solver. }
  assert (search_complete h start s) as Hcomp.
  { eapply search_loop_complete; [|exact Hloop].
    intros y [Hy| ->] Hny; simpl in *; [set_solver|]. destruct Hny. by left. }
  intros t. split; [apply Hsound|]. intros [Hact Hpath].
  destruct (Hcomp t) as [Hc _]; [|rewrite Hexit; apply not_elem_of_nil|by apply Hc].
  by eapply search_complete_exit.
Qed.

(** ** Loops that raise and loops that do not *)

Lemma for_each_Raise {A S} (P : exn → Prop) (body : S → A → result S) l x s :
  (∀ s y e, body s y = Raise e → P e) →
  x ∈ l → (∀ s, is_Raise (body s x)) →
  ∃ e, for_each body l s = Raise e ∧ P e.
Proof.
  intros HP Hin Hx. revert s. induction l as [|y l IH]; intros s.
  - by apply elem_of_nil in Hin.
  - simpl. destruct (body s y) as [s'|e] eqn:Hy; simpl.
    + apply elem_of_cons in Hin as [->|Hin]; [|by apply IH].
      destruct (Hx s) as [e He]. congruence.
    + exists e. split; [done|]. by eapply HP.
Qed.

Lemma for_each_not_Ok {A S} (body : S → A → result S) l x s s' :
  x ∈ l → (∀ s, is_Raise (body s x)) → for_each body l s = Ok s' → False.
Proof.
  intros Hin Hx Hrun.
  destruct (for_each_Raise (λ _, True) body l x s) as (e & He & _); [done..|congruence].
Qed.

Lemma for_each_Ok {A S} (body : S → A → result S) l s :
  (∀ s x, x ∈ l → is_Ok (body s x)) → is_Ok (for_each body l s).
Proof.
  revert s. induction l as [|x l IH]; intros s Hbody; simpl; [by eexists|].
  destruct (Hbody s x) as [s' ->]; [by left|]. simpl.
  apply IH. intros ???. apply Hbody. by right.
Qed.

Lemma for_each_Raise_inv {A S} (body : S → A → result S) l s e :
  for_each body l s = Raise e → ∃ x s1, x ∈ l ∧ body s1 x = Raise e.
Proof.
  revert s. induction l as [|x l IH]; intros s; simpl; [done|].
  destruct (body s x) as [s'|e'] eqn:Hx; simpl.
  - intros (y & s1 & Hin & Hy)%IH. exists y, s1. split; [by right|done].
  - intros [= ->]. exists x, s. split; [by left|done].
Qed.

(** ** Model loading *)

Lemma getitem_Raise `{Countable K} {V} (d : gmap K V) k e :
  getitem d k = Raise e → e = KeyError ∧ d !! k = None.
Proof. unfold getitem. destruct (d !! k); [done|]. by intros [= <-]. Qed.

Lemma add_task_Raise h task e :
  add_task h task = Raise e → e = KeyError ∧ lacks task "id".
Proof.
  unfold add_task, lacks. destruct (getitem (attrib task) "id") eqn:E; simpl; [done|].
  intros [= <-]. by apply getitem_Raise in E.
Qed.

Lemma add_end_event_Raise h ev e :
  add_end_event h ev = Raise e → e = KeyError ∧ lacks ev "id".
Proof.
  unfold add_end_event, lacks. destruct (getitem (attrib ev) "id") eqn:E; simpl; [done|].
  intros [= <-]. by apply getitem_Raise in E.
Qed.

Lemma add_seq_flow_Raise h sf e :
  add_seq_flow h sf = Raise e →
  e = KeyError ∧ (lacks sf "id" ∨ lacks sf "targetRef" ∨ lacks sf "sourceRef").
Proof.
  unfold add_seq_flow, lacks.
  destruct (getitem (attrib sf) "id") eqn:E1; simpl;
    [|intros [= <-]; apply getitem_Raise in E1; naive_solver].
  destruct (getitem (attrib sf) "targetRef") eqn:E2; simpl;
    [|intros [= <-]; apply getitem_Raise in E2; naive_solver].
  destruct (getitem (attrib sf) "sourceRef") eqn:E3; simpl;
    [done|intros [= <-]; apply getitem_Raise in E3; naive_solver].
Qed.

Lemma add_task_lacks h task : lacks task "id" → is_Raise (add_task h task).
Proof. unfold lacks, add_task, getitem. intros ->. by eexists. Qed.

Lemma add_end_event_lacks h ev : lacks ev "id" → is_Raise (add_end_event h ev).
Proof. unfold lacks, add_end_event, getitem. intros ->. by eexists. Qed.

Lemma add_seq_flow_lacks h sf :
  lacks sf "id" ∨ lacks sf "targetRef" ∨ lacks sf "sourceRef" →
  is_Raise (add_seq_flow h sf).
Proof.
  unfold lacks, add_seq_flow, getitem. intros Hl.
  destruct (attrib sf !! "id"); simpl; [|by eexists].
  destruct (attrib sf !! "targetRef"); simpl; [|by eexists].
  destruct (attrib sf !! "sourceRef"); simpl; [|by eexists].
  naive_solver.
Qed.

(** Loading raises nothing but [ParseError] and [KeyError]. *)
Lemma parse_bpmn_xml_Raise source e :
  parse_bpmn_xml source = Raise e →
  (source = None ∧ e = ParseError) ∨
  (∃ root, source = Some root ∧ missing_required root ∧ e = KeyError).
Proof.
  unfold parse_bpmn_xml. destruct source as [root|]; simpl; [|intros [= <-]; by left].
  intros Hrun. right. exists root. split; [done|]. unfold missing_required.
  destruct (for_each add_task _ _) as [h1|e1] eqn:E1; simpl in Hrun.
  2:{ injection Hrun as ->. apply for_each_Raise_inv in E1 as (x & s1 & Hin & Hx).
      apply add_task_Raise in Hx. naive_solver. }
  destruct (for_each add_end_event _ h1) as [h2|e2] eqn:E2; simpl in Hrun.
  2:{ injection Hrun as ->. apply for_each_Raise_inv in E2 as (x & s1 & Hin & Hx).
      apply add_end_event_Raise in Hx. naive_solver. }
  destruct (for_each add_end_event _ h2) as [h3|e3] eqn:E3; simpl in Hrun.
  2:{ injection Hrun as ->. apply for_each_Raise_inv in E3 as (x & s1 & Hin & Hx).
      apply add_end_event_Raise in Hx. naive_solver. }
  apply for_each_Raise_inv in Hrun as (x & s1 & Hin & Hx).
  apply add_seq_flow_Raise in Hx. naive_solver.
Qed.

Lemma parse_bpmn_xml_missing root :
  missing_required root → is_Raise (parse_bpmn_xml (Some root)).
Proof.
  unfold parse_bpmn_xml. simpl. intros Hm.
  destruct (for_each add_task _ _) as [h1|e1] eqn:E1; simpl; [|by eexists].
  destruct Hm as [(x & Hin & Hx)|Hm].
  { exfalso. eapply for_each_not_Ok; [exact Hin| |exact E1].
    intros. by apply add_task_lacks. }
  destruct (for_each add_end_event _ h1) as [h2|e2] eqn:E2; simpl; [|by eexists].
  destruct Hm as [(x & Hin & Hx)|Hm].
  { exfalso. eapply for_each_not_Ok; [exact Hin| |exact E2].
    intros. by apply add_end_event_lacks. }
  destruct (for_each add_end_event _ h2) as [h3|e3] eqn:E3; simpl; [|by eexists].
  destruct Hm as [(x & Hin & Hx)|(x & Hin & Hx)].
  { exfalso. eapply for_each_not_Ok; [exact Hin| |exact E3].
    intros. by apply add_end_event_lacks. }
  destruct (for_each add_seq_flow _ h3) as [h4|e4] eqn:E4; simpl; [|by eexists].
  exfalso. eapply for_each_not_Ok; [exact Hin| |exact E4].
  intros. by apply add_seq_flow_lacks.
Qed.

Lemma elem_of_odict_set d k v k' v' :
  (k', v') ∈ odict_set d k v → (k', v') ∈ d ∨ k' = k.
Proof.
  induction d as [|[k0 v0] d IH]; simpl.
  - intros [= -> ->]%list_elem_of_singleton. by right.
  - case_decide as Hk.
    + intros [[= -> ->]|Hin]%elem_of_cons; [by right|]. left. by right.
    + intros [[= -> ->]|Hin]%elem_of_cons; [left; by left|].
      destruct (IH Hin) as [?|?]; [left; by right|by right].
Qed.

Lemma add_seq_flow_total h sf h' :
  flow_sources_total h → add_seq_flow h sf = Ok h' → flow_sources_total h'.
Proof.
  intros Ht. unfold add_seq_flow. intros Hrun.
  apply result_bind_Ok in Hrun as (sf_id & _ & Hrun).
  apply result_bind_Ok in Hrun as (tgt & _ & Hrun).
  apply result_bind_Ok in Hrun as (src & _ & [= <-]).
  intros k v. simpl. intros [Hin| ->]%elem_of_odict_set.
  - destruct (decide (sf_id = k)) as [->|Hne].
    + rewrite lookup_insert_eq. by eexists.
    + rewrite lookup_insert_ne by done. by eapply Ht.
  - rewrite lookup_insert_eq. by eexists.
Qed.

(** A loaded model has the source of every flow. *)
Lemma parse_bpmn_xml_total source h :
  parse_bpmn_xml source = Ok h → flow_sources_total h.
Proof.
  unfold parse_bpmn_xml. intros Hrun.
  apply result_bind_Ok in Hrun as (root & _ & Hrun).
  apply result_bind_Ok in Hrun as (h1 & H1 & Hrun).
  apply result_bind_Ok in Hrun as (h2 & H2 & Hrun).
  apply result_bind_Ok in Hrun as (h3 & H3 & Hrun).
  assert (∀ h, sequence_flows h = [] → flow_sources_total h) as Hnil.
  { intros h0 E k v. rewrite E. by intros ?%elem_of_nil. }
  assert (sequence_flows h3 = []) as Hh3.
  { assert (sequence_flows h1 = []) as E1.
    { eapply (for_each_invariant (λ h, sequence_flows h = []) _ _ empty_handler);
        [|done|exact H1].
      intros s x s' _ Hs. unfold add_task.
      intros (? & _ & [= <-])%result_bind_Ok. done. }
    assert (sequence_flows h2 = []) as E2.
    { eapply (for_each_invariant (λ h, sequence_flows h = []) _ _ h1);
        [|exact E1|exact H2].
      intros s x s' _ Hs. unfold add_end_event.
      intros (? & _ & [= <-])%result_bind_Ok. done. }
    eapply (for_each_invariant (λ h, sequence_flows h = []) _ _ h2);
      [|exact E2|exact H3].
    intros s x s' _ Hs. unfold add_end_event.
    intros (? & _ & [= <-])%result_bind_Ok. done. }
  eapply (for_each_invariant flow_sources_total _ _ h3); [|apply Hnil, Hh3|exact Hrun].
  intros s x s' _ Hs Hstep. by eapply add_seq_flow_total.
Qed.

(** ** The traversal does not raise on a model with all flow sources *)

Lemma scan_flow_Ok h current vs item :
  flow_sources_total h → item ∈ sequence_flows h → is_Ok (scan_flow h current vs item).
Proof.
  intros Ht Hin. destruct item as [sf_id tgt]. unfold scan_flow.
  case_decide; [|by eexists].
  destruct (Ht _ _ Hin) as [src Hsrc]. unfold getitem. rewrite Hsrc. simpl.
  case_decide; by eexists.
Qed.

Lemma search_step_Ok h s : flow_sources_total h → is_Ok (search_step h s).
Proof.
  intros Ht. unfold search_step. destruct (stack s) as [|current rest]; [by eexists|].
  case_decide; [by eexists|].
  destruct (for_each_Ok (scan_flow h current) (sequence_flows h) (visited s, rest))
    as [vs ->]; [|by eexists].
  intros. by apply scan_flow_Ok.
Qed.

Lemma search_loop_Ok h n s : flow_sources_total h → is_Ok (search_loop h n s).
Proof.
  intros Ht. revert s. induction n as [|n IH]; intros s; simpl.
  - destruct (stack s); by eexists.
  - destruct (stack s) eqn:E; [by eexists|].
    destruct (search_step_Ok h s Ht) as [s' ->]. simpl. apply IH.
Qed.

Lemma get_upstream_tasks_Ok h gateway_id :
  flow_sources_total h → is_Ok (get_upstream_tasks_through_gateways h gateway_id).
Proof.
  intros Ht. unfold get_upstream_tasks_through_gateways.
  destruct (search_loop_Ok h (search_bound h) (search_init gateway_id) Ht) as [s ->].
  by eexists.
Qed.

(** The traversal raises nothing but [KeyError]. *)
Lemma get_upstream_tasks_Raise h gateway_id e :
  get_upstream_tasks_through_gateways h gateway_id = Raise e → e = KeyError.
Proof.
  unfold get_upstream_tasks_through_gateways.
  assert (∀ n s, search_loop h n s = Raise e → e = KeyError) as Hloop.
  { induction n as [|n IH]; intros s; simpl.
    - by destruct (stack s).
    - destruct (stack s) as [|current rest] eqn:Hst; [done|].
      destruct (search_step h s) as [s1|e1] eqn:Hstep; simpl; [apply IH|].
      intros [= ->]. unfold search_step in Hstep. rewrite Hst in Hstep.
      case_decide; [done|].
      destruct (for_each _ _ _) as [vs|e2] eqn:Hscan; simpl in Hstep; [done|].
      injection Hstep as ->.
      apply for_each_Raise_inv in Hscan as ([sf_id tgt] & vs1 & _ & Hx).
      unfold scan_flow in Hx. case_decide; [|done].
      destruct (getitem _ _) eqn:Hg; simpl in Hx; [by case_decide|].
      injection Hx as ->. by apply getitem_Raise in Hg as [-> _]. }
  destruct (search_loop _ _ _) eqn:E; simpl; [done|]. intros [= ->]. by eapply Hloop.
Qed.

(** ** Maxima of time columns *)

Lemma series_max_None (s : list (option Z)) :
  series_max s = None ↔ ∀ x, x ∈ s → x = None.
Proof.
  induction s as [|[a|] s IH]; simpl.
  - split; [|done]. by intros _ x ?%elem_of_nil.
  - split.
    + unfold nat_max. by destruct (series_max s).
    + intros Hall. by specialize (Hall (Some a) ltac:(left)).
  - rewrite IH. split.
    + intros Hall x [->|Hx]%elem_of_cons; [done|by apply Hall].
    + intros Hall x Hx. apply Hall. by right.
Qed.

Lemma series_max_Some (s : list (option Z)) m :
  series_max s = Some m → Some m ∈ s ∧ ∀ x, Some x ∈ s → x ≤ m.
Proof.
  revert m. induction s as [|[a|] s IH]; intros m; simpl.
  - done.
  - destruct (series_max s) as [b|] eqn:E; simpl.
    + intros [= <-]. destruct (IH b eq_refl) as [Hin Hle]. split.
      * destruct (Z.max_spec a b) as [[_ ->]|[_ ->]]; [by right|by left].
      * intros x [[= ->]|Hx]%elem_of_cons; [lia|]. specialize (Hle x Hx). lia.
    + intros [= <-]. split; [by left|].
      intros x [[= ->]|Hx]%elem_of_cons; [lia|].
      pose proof (proj1 (series_max_None s) E _ Hx). done.
  - intros [Hin Hle]%IH. split; [by right|].
    intros x [?|Hx]%elem_of_cons; [done|by apply Hle].
Qed.

(** [series_max] over the end times of the rows of a frame that satisfy a
    (decidable) condition is their maximum end time. *)
Lemma series_max_filter (P : Event → Prop) `{∀ e, Decision (P e)} (df : list Event) :
  is_max_end_time P df (series_max (end_time <$> filter P df)).
Proof.
  destruct (series_max _) as [m|] eqn:E; simpl.
  - apply series_max_Some in E as [Hin Hle]. split.
    + apply list_elem_of_fmap in Hin as (e & He & [HP Hin']%list_elem_of_filter).
      by exists e.
    + intros e t Hin' HP He. apply Hle. rewrite <- He.
      apply list_elem_of_fmap. exists e. split; [done|]. by apply list_elem_of_filter.
  - intros e Hin HP. rewrite series_max_None in E. apply E.
    apply list_elem_of_fmap. exists e. split; [done|]. by apply list_elem_of_filter.
Qed.

Lemma series_max_all (df : list Event) :
  is_max_end_time (λ _, True) df (series_max (end_time <$> df)).
Proof.
  destruct (series_max _) as [m|] eqn:E; simpl.
  - apply series_max_Some in E as [Hin Hle]. split.
    + apply list_elem_of_fmap in Hin as (e & He & Hin'). by exists e.
    + intros e t Hin' _ He. apply Hle. rewrite <- He.
      apply list_elem_of_fmap. by exists e.
  - intros e Hin _. rewrite series_max_None in E. apply E.
    apply list_elem_of_fmap. by exists e.
Qed.

(** ** The gateway enabled time *)

Lemma elem_of_task_names h (ts : gset string) name :
  name ∈ omap (λ t_id, activities h !! t_id) (elements ts) ↔
  ∃ t, t ∈ ts ∧ activities h !! t = Some name.
Proof.
  rewrite list_elem_of_omap. split; intros (t & Ht & Hn); exists t; split; try done.
  - by apply elem_of_elements.
  - by apply elem_of_elements.
Qed.

Lemma is_max_end_time_ext (P Q : Event → Prop) df r :
  (∀ e, P e ↔ Q e) → is_max_end_time P df r → is_max_end_time Q df r.
Proof.
  intros HPQ. destruct r as [m|]; simpl.
  - intros [(e & Hin & HP & He) Hle]. split.
    + exists e. by rewrite <- HPQ.
    + intros e' t Hin' HQ. apply Hle; [done|]. by apply HPQ.
  - intros Hall e Hin HQ. apply Hall; [done|]. by apply HPQ.
Qed.

Lemma is_max_end_time_defined (P : Event → Prop) df r e :
  is_max_end_time P df r → e ∈ df → P e → end_time e ≠ None → r ≠ None.
Proof. destruct r; simpl; [done|]. intros Hall Hin HP Hne _. by apply Hne, Hall. Qed.

(** ** Methods of the state computer *)

Lemma M_bind_run {A B} (m : M A) (f : A → M B) s :
  (m ≫= f) s = match m s with
               | (Ok a, s1) => f a s1
               | (Raise e, s1) => (Raise e, s1)
               end.
Proof. done. Qed.

Lemma M_bind_Ok {A B} (m : M A) (f : A → M B) s b s' :
  (m ≫= f) s = (Ok b, s') → ∃ a s1, m s = (Ok a, s1) ∧ f a s1 = (Ok b, s').
Proof.
  rewrite M_bind_run. destruct (m s) as [[a|e] s1]; [|done]. intros Hf. by exists a, s1.
Qed.

#[global] Instance lazily_extends_refl : Reflexive lazily_extends.
Proof. intros t name. by left. Qed.

#[global] Instance lazily_extends_trans : Transitive lazily_extends.
Proof.
  intros t1 t2 t3 H12 H23 name.
  destruct (H12 name) as [E1|[E1 E1']], (H23 name) as [E2|[E2 E2']].
  - left. congruence.
  - right. split; congruence.
  - right. split; congruence.
  - congruence.
Qed.

#[global] Instance frame_refl : Reflexive frame.
Proof. intros s. by split. Qed.

#[global] Instance frame_trans : Transitive frame.
Proof.
  intros s1 s2 s3 [(?&?&?&?&?) H12] [(?&?&?&?&?) H23].
  split; [split_and!; congruence|]. by trans (concurrency (concurrency_oracle s2)).
Qed.

Lemma keeps_frame_bind {A B} (m : M A) (f : A → M B) :
  keeps_frame m → (∀ a, keeps_frame (f a)) → keeps_frame (m ≫= f).
Proof.
  intros Hm Hf s r s'. rewrite M_bind_run.
  destruct (m s) as [[a|e] s1] eqn:E.
  - intros Hrun. trans s1; [by eapply Hm|by eapply Hf].
  - intros [= <- <-]. by eapply Hm.
Qed.

Lemma keeps_frame_ret {A} (a : A) : keeps_frame (mret a : M A).
Proof. by intros s r s' [= <- <-]. Qed.

Lemma keeps_frame_lift {A} (r : result A) : keeps_frame (lift r).
Proof. by intros s r' s' [= <- <-]. Qed.

Lemma keeps_frame_for_each {A S} (body : S → A → M S) l acc :
  (∀ acc x, keeps_frame (body acc x)) → keeps_frame (for_each_M body l acc).
Proof.
  intros Hbody. revert acc. induction l as [|x l IH]; intros acc; simpl.
  - apply keeps_frame_ret.
  - apply keeps_frame_bind; [apply Hbody|apply IH].
Qed.

(** The lazy registration: a name that is not in the table gets an empty
    entry. *)
Lemma register_activity_frame name s r s' :
  name ∉ dom (concurrency (concurrency_oracle s)) →
  register_activity name s = (r, s') → frame s s'.
Proof.
  intros Hnot [= <- <-]. split; [done|]. simpl. intros k.
  destruct (decide (name = k)) as [<-|Hne].
  - right. rewrite lookup_insert_eq. split; [|done]. by apply not_elem_of_dom.
  - left. by rewrite lookup_insert_ne.
Qed.

Lemma keeps_frame_enabled_activity group finished acc flow_id :
  keeps_frame (enabled_activity group finished acc flow_id).
Proof.
  intros s r s'. unfold enabled_activity. rewrite M_bind_run. simpl.
  destruct (odict_get _ _) as [target_ref|]; [|by intros [= <- <-]].
  destruct (activities _ !! _) as [activity_name|]; [|by intros [= <- <-]].
  rewrite M_bind_run. case_decide.
  - unfold lift. destruct (py_min _); by intros [= <- <-].
  - rewrite !M_bind_run. case_decide as Hin.
    + simpl. unfold lift. destruct (plus_one_second _); simpl; by intros [= <- <-].
    + destruct (register_activity activity_name s) as [[[]|e] s1] eqn:E;
        [|by injection E].
      apply register_activity_frame in E; [|done].
      rewrite M_bind_run. unfold lift.
      destruct (plus_one_second _); simpl; by intros [= <- <-].
Qed.

Lemma keeps_frame_get_self : keeps_frame get_self.
Proof. by intros s r s' [= <- <-]. Qed.

Lemma keeps_frame_compute_case group : keeps_frame (compute_case group).
Proof.
  unfold compute_case.
  apply keeps_frame_bind; [apply keeps_frame_get_self|]. intros self.
  apply keeps_frame_bind; [apply keeps_frame_lift|]. intros state_flows.
  apply keeps_frame_bind.
  { apply keeps_frame_for_each. intros. apply keeps_frame_enabled_activity. }
  intros enabled.
  apply keeps_frame_bind; [apply keeps_frame_lift|]. intros gateways.
  destruct (existsb _ _); apply keeps_frame_ret.
Qed.

Lemma keeps_frame_case_step case_states item : keeps_frame (case_step case_states item).
Proof.
  unfold case_step. apply keeps_frame_bind; [apply keeps_frame_compute_case|].
  intros [st|]; apply keeps_frame_ret.
Qed.

Lemma keeps_frame_compute_case_states : keeps_frame compute_case_states.
Proof.
  unfold compute_case_states. apply keeps_frame_bind; [apply keeps_frame_get_self|].
  intros self. apply keeps_frame_for_each. intros. apply keeps_frame_case_step.
Qed.

(** ** Sorting and grouping *)

Lemma insert_by_perm {A} (le : A → A → bool) x l : insert_by le x l ≡ₚ x :: l.
Proof.
  induction l as [|y l IH]; simpl; [done|].
  destruct (le x y); [done|]. rewrite IH. apply perm_swap.
Qed.

Lemma sort_by_perm {A} (le : A → A → bool) l : sort_by le l ≡ₚ l.
Proof.
  unfold sort_by. induction l as [|x l IH]; simpl; [done|].
  rewrite insert_by_perm. by rewrite IH.
Qed.

Lemma sort_values_perm df : sort_values df ≡ₚ df.
Proof. apply sort_by_perm. Qed.

Lemma groupby_keys df : (groupby df).*1 = sorted (remove_dups (case_id <$> df)).
Proof.
  unfold groupby. induction (sorted _) as [|k l IH]; [done|].
  rewrite !fmap_cons. simpl. by rewrite IH.
Qed.

Lemma groupby_NoDup df : NoDup (groupby df).*1.
Proof.
  rewrite groupby_keys. unfold sorted. rewrite sort_by_perm. apply NoDup_remove_dups.
Qed.

Lemma elem_of_groupby df k g :
  (k, g) ∈ groupby df ↔ k ∈ case_id <$> df ∧ g = filter (λ e, case_id e = k) df.
Proof.
  unfold groupby. rewrite list_elem_of_fmap. split.
  - intros (k' & [= -> ->] & Hin). split; [|done].
    unfold sorted in Hin. rewrite sort_by_perm in Hin. by apply elem_of_remove_dups.
  - intros [Hin ->]. exists k. split; [done|].
    unfold sorted. rewrite sort_by_perm. by apply elem_of_remove_dups.
Qed.

(** The groups are not empty. *)
Lemma groupby_nonempty df k g : (k, g) ∈ groupby df → g ≠ [].
Proof.
  intros [Hin ->]%elem_of_groupby.
  apply list_elem_of_fmap in Hin as (e & -> & Hin).
  intros Hnil. assert (e ∈ filter (λ e0, case_id e0 = case_id e) df) as He.
  { by apply list_elem_of_filter. }
  rewrite Hnil in He. by apply elem_of_nil in He.
Qed.

Lemma sort_values_nonempty g : g ≠ [] → sort_values g ≠ [].
Proof.
  intros Hg Hs. apply Hg. apply Permutation_nil_r. rewrite <- Hs.
  symmetry. apply sort_values_perm.
Qed.

(** ** One case *)

Lemma collect_ongoing_ids h o1 o2 group :
  og_id <$> collect_ongoing h o1 group = og_id <$> collect_ongoing h o2 group.
Proof.
  unfold collect_ongoing. rewrite <- !list_fmap_compose. by apply list_fmap_ext.
Qed.

Lemma for_each_narrow_ids rg node (l1 l2 : list Ongoing) fl :
  og_id <$> l1 = og_id <$> l2 →
  for_each (narrow rg node) l1 fl = for_each (narrow rg node) l2 fl.
Proof.
  revert l2 fl. induction l1 as [|a l1 IH]; intros [|b l2] fl; simpl; try done.
  intros [= Hab Hl].
  assert (narrow rg node fl a = narrow rg node fl b) as -> by (unfold narrow; by rewrite Hab).
  destruct (narrow rg node fl b); simpl; [by apply IH|done].
Qed.

Lemma correct_flows_ids rg (l1 l2 : list Ongoing) m :
  og_id <$> l1 = og_id <$> l2 → correct_flows rg l1 m = correct_flows rg l2 m.
Proof.
  intros Hl. unfold correct_flows. destruct (marking_to_key rg !! _); [|done].
  by apply for_each_narrow_ids.
Qed.

Lemma case_ongoing_ids s s1 group :
  same_inputs s s1 → og_id <$> case_ongoing s1 group = og_id <$> case_ongoing s group.
Proof.
  intros (_ & _ & _ & Hh & _). unfold case_ongoing. rewrite Hh. apply collect_ongoing_ids.
Qed.

Lemma ongoing_ids_same s s1 group :
  same_inputs s s1 → ongoing_ids (case_ongoing s1 group) = ongoing_ids (case_ongoing s group).
Proof. intros Hs. unfold ongoing_ids. by rewrite (case_ongoing_ids s s1). Qed.

Lemma case_flows_same s s1 group :
  same_inputs s s1 → case_flows s1 group = case_flows s group.
Proof.
  intros Hs. pose proof Hs as (Hn & Hr & _ & _ & _). unfold case_flows.
  rewrite Hn, Hr. apply correct_flows_ids. by apply case_ongoing_ids.
Qed.

Lemma case_gateways_same s s1 group :
  same_inputs s s1 → case_gateways s1 group = case_gateways s group.
Proof.
  intros Hs. pose proof Hs as (_ & _ & _ & Hh & _). unfold case_gateways.
  rewrite (case_flows_same s s1), (ongoing_ids_same s s1), Hh by done. done.
Qed.

(** The anatomy of a case that is computed without raising. *)
Lemma compute_case_Ok group s r s' :
  compute_case group s = (Ok r, s') →
  ∃ state_flows enabled gateways,
    case_flows s group = Ok state_flows ∧
    case_gateways s group = Ok gateways ∧
    r = if existsb (λ gateway, is_end_event (bpmn_handler s) (en_id gateway)) gateways
        then None
        else Some (mkCaseState (elements state_flows)
                     (elements (ongoing_ids (case_ongoing s group)))
                     (case_ongoing s group) enabled gateways).
Proof.
  unfold compute_case. intros Hrun.
  apply M_bind_Ok in Hrun as (self & s0 & [= <- <-] & Hrun).
  apply M_bind_Ok in Hrun as (state_flows & s1 & [= Hfl <-] & Hrun).
  apply M_bind_Ok in Hrun as (enabled & s2 & Hen & Hrun).
  apply M_bind_Ok in Hrun as (gateways & s3 & [= Hgw <-] & Hrun).
  exists state_flows, enabled, gateways. split; [done|]. split.
  - unfold case_gateways, case_flows, case_ongoing. rewrite Hfl. done.
  - destruct (existsb _ _); by injection Hrun as <- _.
Qed.

(** ** The loop over the cases *)

Lemma case_step_Ok acc item s acc' s' :
  case_step acc item s = (Ok acc', s') →
  ∃ r, compute_case (sort_values item.2) s = (Ok r, s') ∧
       acc' = match r with Some st => <[item.1 := st]> acc | None => acc end.
Proof.
  unfold case_step. intros (r & s1 & Hc & Hr)%M_bind_Ok. exists r.
  destruct r; injection Hr as <- <-; done.
Qed.

Lemma for_each_case_step l acc s cs s' :
  NoDup l.*1 → (∀ k, k ∈ l.*1 → acc !! k = None) →
  for_each_M case_step l acc s = (Ok cs, s') →
  (∀ k, k ∉ l.*1 → cs !! k = acc !! k) ∧
  (∀ k g, (k, g) ∈ l →
     ∃ s1 s2 r, frame s s1 ∧ compute_case (sort_values g) s1 = (Ok r, s2) ∧ cs !! k = r).
Proof.
  revert acc s. induction l as [|[k0 g0] l IH]; intros acc s Hnd Hacc Hrun.
  - injection Hrun as <- <-. split; [done|]. by intros k g ?%elem_of_nil.
  - simpl in Hrun. apply M_bind_Ok in Hrun as (acc1 & s1 & Hstep & Hrun).
    pose proof (keeps_frame_case_step _ _ _ _ _ Hstep) as Hframe.
    apply case_step_Ok in Hstep as (r & Hcase & ->). simpl in *.
    apply NoDup_cons in Hnd as [Hk0 Hnd].
    apply IH in Hrun as [Hout Hin]; [|done|].
    2:{ intros k Hk. assert (k ≠ k0) by (intros ->; exact (Hk0 Hk)).
        destruct r; [rewrite lookup_insert_ne by done|]; apply Hacc; by right. }
    split.
    + intros k Hk. apply not_elem_of_cons in Hk as [Hne Hk]. rewrite Hout by done.
      destruct r; [by rewrite lookup_insert_ne|done].
    + intros k g [[= -> ->]|Hkg]%elem_of_cons.
      * exists s, s1, r. split; [done|]. split; [done|]. rewrite Hout by done.
        destruct r; [by rewrite lookup_insert_eq|]. apply Hacc. by left.
      * destruct (Hin k g Hkg) as (s2 & s3 & r' & Hf & Hc & Hl).
        exists s2, s3, r'. split; [by trans s1|done].
Qed.

(** Every case of the log is computed from a state computer that differs
    from the initial one in the oracle's table only, and its outcome is what
    the result holds for it. *)
Lemma compute_case_states_cases self cs self' :
  compute_case_states self = (Ok cs, self') →
  (∀ k, k ∉ (groupby (event_log_df self)).*1 → cs !! k = None) ∧
  (∀ k g, (k, g) ∈ groupby (event_log_df self) →
     ∃ s1 s2 r, frame self s1 ∧ compute_case (sort_values g) s1 = (Ok r, s2) ∧ cs !! k = r).
Proof.
  unfold compute_case_states. intros (s0 & s1 & [= <- <-] & Hrun)%M_bind_Ok.
  apply for_each_case_step in Hrun as [Hout Hin]; [|apply groupby_NoDup|done].
  split; [|done]. intros k Hk. by rewrite Hout.
Qed.

(** What the result holds for a case of the log. *)
Lemma compute_case_states_anatomy self cs self' k g :
  compute_case_states self = (Ok cs, self') →
  (k, g) ∈ groupby (event_log_df self) →
  ∃ state_flows gateways,
    case_flows self (sort_values g) = Ok state_flows ∧
    case_gateways self (sort_values g) = Ok gateways ∧
    if existsb (λ gateway, is_end_event (bpmn_handler self) (en_id gateway)) gateways
    then cs !! k = None
    else ∃ st s1, cs !! k = Some st ∧ frame self s1 ∧
           cfs_flows st = elements state_flows ∧
           cfs_activities st = elements (ongoing_ids (case_ongoing self (sort_values g))) ∧
           ongoing_activities st = case_ongoing s1 (sort_values g) ∧
           enabled_gateways st = gateways.
Proof.
  intros Hrun Hkg.
  destruct (proj2 (compute_case_states_cases _ _ _ Hrun) k g Hkg)
    as (s1 & s2 & r & Hframe & Hcase & Hr).
  apply compute_case_Ok in Hcase as (fl & en & gws & Hfl & Hgw & ->).
  pose proof Hframe as [Hsame _]. pose proof Hsame as (_ & _ & _ & Hh & _).
  rewrite (case_flows_same self s1) in Hfl by done.
  rewrite (case_gateways_same self s1) in Hgw by done.
  rewrite (ongoing_ids_same self s1) in Hr by done. rewrite Hh in Hr.
  exists fl, gws. split; [done|]. split; [done|].
  destruct (existsb _ gws); [done|]. eexists _, s1. by split_and!.
Qed.

Lemma compute_case_states_emitted self cs self' k st :
  compute_case_states self = (Ok cs, self') → cs !! k = Some st →
  ∃ g, (k, g) ∈ groupby (event_log_df self).
Proof.
  intros Hrun Hst.
  destruct (decide (k ∈ (groupby (event_log_df self)).*1)) as [Hin|Hout].
  - apply list_elem_of_fmap in Hin as ([k' g] & -> & Hin). by exists g.
  - apply (proj1 (compute_case_states_cases _ _ _ Hrun)) in Hout. congruence.
Qed.

(** ** The corrected flows *)

Lemma scan_edges_subseteq rg t_id incoming fl fl' :
  scan_edges rg t_id incoming fl = Ok fl' → fl' ⊆ fl.
Proof.
  induction incoming as [|edge_id incoming IH]; simpl; [by intros [= <-]|].
  case_decide; [|done].
  intros (st & _ & (sm & _ & [= <-])%result_bind_Ok)%result_bind_Ok.
  apply intersection_subseteq_l.
Qed.

Lemma correct_flows_subseteq rg ongoing m fl :
  correct_flows rg ongoing m = Ok fl → fl ⊆ m.
Proof.
  unfold correct_flows. destruct (marking_to_key rg !! _) as [node|]; [|by intros [= <-]].
  apply (for_each_invariant (λ fl0, fl0 ⊆ m)); [|done].
  intros fl0 act fl1 _ Hfl0 Hstep. apply scan_edges_subseteq in Hstep. by trans fl0.
Qed.

(** ** The enabled gateways *)

Lemma reported_singleton_target h ids group finished flow_id gw :
  reported h ids group finished [flow_id] gw →
  odict_get (sequence_flows h) flow_id = Some (en_id gw).
Proof. by intros (f & ts & ->%list_elem_of_singleton & Hget & _). Qed.

Lemma enabled_gateway_spec h ids group finished acc flow_id acc' :
  enabled_gateway h ids group finished acc flow_id = Ok acc' →
  ∀ gw, gw ∈ acc' ↔ gw ∈ acc ∨ reported h ids group finished [flow_id] gw.
Proof.
  unfold enabled_gateway. intros Hrun gw.
  destruct (odict_get (sequence_flows h) flow_id) as [gw_id|] eqn:Hget.
  2:{ injection Hrun as <-. split; [by left|]. intros [?|Hr]; [done|].
      apply reported_singleton_target in Hr. congruence. }
  assert (∀ P : Prop, (reported h ids group finished [flow_id] gw → en_id gw = gw_id → P) →
                      reported h ids group finished [flow_id] gw → P) as Hrep.
  { intros P HP Hr. apply HP; [done|].
    apply reported_singleton_target in Hr. congruence. }
  case_decide as Hguard.
  2:{ injection Hrun as <-. split; [by left|]. intros [?|Hr]; [done|].
      revert Hr. apply Hrep. intros (_ & _ & _ & _ & ? & ? & _) <-. by destruct Hguard. }
  destruct Hguard as [Hne Hna].
  apply result_bind_Ok in Hrun as (ts & Hup & Hrun).
  case_decide as Hsupp.
  { injection Hrun as <-. split; [by left|]. intros [?|Hr]; [done|].
    revert Hr. apply Hrep. intros (_ & ts' & _ & _ & _ & _ & Hup' & He & _) <-.
    destruct Hsupp. congruence. }
  apply result_bind_Ok in Hrun as (gw_time & Htime & Hrun).
  destruct gw_time as [t|]; injection Hrun as <-.
  - rewrite elem_of_app, list_elem_of_singleton. split.
    + intros [?| ->]; [by left|]. right. exists flow_id, ts. simpl.
      split_and!; [by left|done|done|done|done| |done|done].
      destruct (decide (upstream_ongoing ts ids = ∅)); [done|by destruct Hsupp].
    + intros [?|Hr]; [by left|]. right. revert Hr. apply Hrep.
      intros (_ & _ & _ & _ & _ & _ & _ & _ & _ & Ht) Hid.
      destruct gw as [gid gt]. simpl in *. subst gid. congruence.
  - split; [by left|]. intros [?|Hr]; [done|]. revert Hr. apply Hrep.
    intros (_ & _ & _ & _ & _ & _ & _ & _ & Hdef & Ht) Hid. subst gw_id. congruence.
Qed.

Lemma reported_cons h ids group finished flow_id l gw :
  reported h ids group finished (flow_id :: l) gw ↔
  reported h ids group finished [flow_id] gw ∨ reported h ids group finished l gw.
Proof.
  split.
  - intros (f & ts & [->|Hin]%elem_of_cons & Hrest).
    + left. exists flow_id, ts. split; [by left|done].
    + right. by exists f, ts.
  - intros [(f & ts & ->%list_elem_of_singleton & Hrest)|(f & ts & Hin & Hrest)].
    + exists flow_id, ts. split; [by left|done].
    + exists f, ts. split; [by right|done].
Qed.

Lemma for_each_enabled_gateway_spec h ids group finished l acc gateways :
  for_each (enabled_gateway h ids group finished) l acc = Ok gateways →
  ∀ gw, gw ∈ gateways ↔ gw ∈ acc ∨ reported h ids group finished l gw.
Proof.
  revert acc. induction l as [|flow_id l IH]; intros acc Hrun gw; simpl in Hrun.
  - injection Hrun as <-. split; [by left|]. intros [?|(f & ts & Hin & _)]; [done|].
    by apply elem_of_nil in Hin.
  - apply result_bind_Ok in Hrun as (acc1 & Hstep & Hrun).
    rewrite reported_cons, (IH _ Hrun), (enabled_gateway_spec _ _ _ _ _ _ _ Hstep).
    tauto.
Qed.

(** The enabled gateways are the reported ones. *)
Lemma collect_enabled_gateways_spec h ids group finished (state_flows : gset string)
    gateways :
  collect_enabled_gateways h ids group finished state_flows = Ok gateways →
  ∀ gw, gw ∈ gateways ↔ reported h ids group finished (elements state_flows) gw.
Proof.
  unfold collect_enabled_gateways. intros Hrun gw.
  rewrite (for_each_enabled_gateway_spec _ _ _ _ _ _ _ Hrun).
  split; [|by right]. intros [Hin|?]; [|done]. by apply elem_of_nil in Hin.
Qed.

Lemma existsb_is_end_event h (gateways : list Enabled) :
  existsb (λ gateway, is_end_event h (en_id gateway)) gateways = true ↔
  ∃ gw, gw ∈ gateways ∧ en_id gw ∈ end_events h.
Proof.
  rewrite existsb_exists. unfold is_end_event.
  split; intros (gw & Hin & He); exists gw.
  - split; [by apply list_elem_of_In|]. by apply bool_decide_eq_true in He.
  - split; [by apply list_elem_of_In|]. by apply bool_decide_eq_true.
Qed.

(** ** Ongoing activities that the model does not have *)

Lemma scan_edges_Ok rg t_id incoming fl :
  (∀ edge_id, edge_id ∈ incoming →
     ∃ st, edges rg !! edge_id = Some st ∧ is_Some (markings rg !! st.1)) →
  is_Ok (scan_edges rg t_id incoming fl).
Proof.
  induction incoming as [|edge_id incoming IH]; intros Hwf; simpl; [by eexists|].
  case_decide.
  - destruct (Hwf edge_id) as (st & Hst & [sm Hsm]); [by left|].
    unfold getitem. rewrite Hst. simpl. rewrite Hsm. simpl. by eexists.
  - apply IH. intros ??. apply Hwf. by right.
Qed.

(** An activity without id matches no labelled edge. *)
Lemma scan_edges_unresolved rg incoming fl :
  (∀ edge_id, edge_id ∈ incoming → is_Some (edge_to_activity rg !! edge_id)) →
  scan_edges rg None incoming fl = Ok fl.
Proof.
  induction incoming as [|edge_id incoming IH]; intros Hwf; simpl; [done|].
  case_decide as Heq.
  - destruct (Hwf edge_id) as [a Ha]; [by left|]. congruence.
  - apply IH. intros ??. apply Hwf. by right.
Qed.

Lemma incoming_wf rg node :
  graph_wf rg →
  ∀ edge_id, edge_id ∈ default [] (incoming_edges rg !! node) →
    is_Some (edge_to_activity rg !! edge_id) ∧
    ∃ st, edges rg !! edge_id = Some st ∧ is_Some (markings rg !! st.1).
Proof.
  intros Hwf edge_id. destruct (incoming_edges rg !! node) as [incoming|] eqn:E; simpl.
  - by apply (Hwf node).
  - by intros ?%elem_of_nil.
Qed.

Lemma narrow_Ok rg node fl act : graph_wf rg → is_Ok (narrow rg node fl act).
Proof.
  intros Hwf. apply scan_edges_Ok. intros edge_id Hin.
  by destruct (incoming_wf rg node Hwf edge_id Hin).
Qed.

Lemma narrow_unresolved rg node fl act :
  graph_wf rg → og_id act = None → narrow rg node fl act = Ok fl.
Proof.
  intros Hwf Hid. unfold narrow. rewrite Hid. apply scan_edges_unresolved.
  intros edge_id Hin. by destruct (incoming_wf rg node Hwf edge_id Hin).
Qed.

Lemma correct_flows_Ok rg ongoing m : graph_wf rg → is_Ok (correct_flows rg ongoing m).
Proof.
  intros Hwf. unfold correct_flows. destruct (marking_to_key rg !! _); [|by eexists].
  apply for_each_Ok. intros. by apply narrow_Ok.
Qed.

(** The correction step is the same without the unresolved records. *)
Lemma correct_flows_resolved rg ongoing m :
  graph_wf rg → correct_flows rg ongoing m = correct_flows rg (resolved ongoing) m.
Proof.
  intros Hwf. unfold correct_flows. destruct (marking_to_key rg !! _) as [node|]; [|done].
  generalize m. unfold resolved.
  induction ongoing as [|act ongoing IH]; intros fl; [done|].
  destruct (decide (og_id act = None)) as [Hid|Hid].
  - rewrite filter_cons_False by (by intros ?). simpl.
    rewrite narrow_unresolved by done. simpl. apply IH.
  - rewrite filter_cons_True by done. simpl.
    destruct (narrow rg node fl act); simpl; [apply IH|done].
Qed.

(** The suppression test is the same without the unresolved records: the
    upstream tasks are ids of the model and never the null id. *)
Lemma upstream_ongoing_resolved ts ongoing :
  upstream_ongoing ts (ongoing_ids ongoing) = upstream_ongoing ts (ongoing_ids (resolved ongoing)).
Proof.
  apply set_eq. intros t. unfold upstream_ongoing, ongoing_ids, resolved.
  rewrite !elem_of_filter, !elem_of_list_to_set, !list_elem_of_fmap.
  split; intros [(act & Hid & Hin) Ht]; (split; [|done]); exists act; (split; [done|]).
  - apply list_elem_of_filter. split; [congruence|done].
  - by apply list_elem_of_filter in Hin as [_ Hin].
Qed.

(** ** The state computer does not raise on well-formed collaborators *)

Lemma for_each_M_Ok {A S} (I : StateComputer → Prop) (body : S → A → M S) l acc s :
  (∀ acc x s, x ∈ l → I s → ∃ acc' s', body acc x s = (Ok acc', s') ∧ I s') →
  I s → ∃ acc' s', for_each_M body l acc s = (Ok acc', s') ∧ I s'.
Proof.
  revert acc s. induction l as [|x l IH]; intros acc s Hbody Hs; simpl.
  - by exists acc, s.
  - destruct (Hbody acc x s) as (acc1 & s1 & Hx & Hs1); [by left|done|].
    rewrite M_bind_run, Hx. apply IH; [|done].
    intros ?????. apply Hbody; [by right|done].
Qed.

Lemma series_max_finished group :
  filter (λ e, end_time e ≠ None) group ≠ [] →
  is_Some (series_max (end_time <$> filter (λ e, end_time e ≠ None) group)).
Proof.
  intros Hne. destruct (series_max _) as [m|] eqn:E; [by eexists|]. exfalso.
  rewrite series_max_None in E.
  destruct (filter _ group) as [|e l] eqn:Hf; [done|].
  assert (e ∈ filter (λ e, end_time e ≠ None) group) as He by (rewrite Hf; left).
  apply list_elem_of_filter in He as [He _]. apply He, E. rewrite fmap_cons. left.
Qed.

Lemma end_times_in_range_group df k g :
  end_times_in_range df → (k, g) ∈ groupby df → end_times_in_range (sort_values g).
Proof.
  intros Hrange [_ ->]%elem_of_groupby e t He Ht. rewrite sort_values_perm in He.
  apply list_elem_of_filter in He as [_ He]. by eapply Hrange.
Qed.

Lemma plus_one_second_finished group :
  end_times_in_range group →
  filter (λ e, end_time e ≠ None) group ≠ [] →
  is_Ok (plus_one_second (series_max (end_time <$> filter (λ e, end_time e ≠ None) group))).
Proof.
  intros Hrange Hfin. destruct (series_max_finished group Hfin) as [m Hm].
  rewrite Hm. unfold plus_one_second.
  apply series_max_Some in Hm as [(e & He & [_ Hin]%list_elem_of_filter)%list_elem_of_fmap _].
  rewrite decide_True by (by eapply Hrange). by eexists.
Qed.

Lemma enabled_activity_Ok group acc flow_id s :
  group ≠ [] → end_times_in_range group →
  ∃ acc' s', enabled_activity group (filter (λ e, end_time e ≠ None) group) acc flow_id s
             = (Ok acc', s') ∧ frame s s'.
Proof.
  intros Hg Hrange.
  destruct (enabled_activity group _ acc flow_id s) as [r s'] eqn:Hrun.
  pose proof (keeps_frame_enabled_activity _ _ _ _ _ _ _ Hrun) as Hframe.
  enough (is_Ok r) as [acc' ->] by (by exists acc', s').
  revert Hrun. unfold enabled_activity. rewrite M_bind_run. simpl.
  destruct (odict_get _ _) as [target_ref|]; [|intros [= <- _]; by eexists].
  destruct (activities _ !! _) as [activity_name|]; [|intros [= <- _]; by eexists].
  rewrite M_bind_run. case_decide as Hlen.
  - unfold lift. destruct group as [|e group]; [done|]. simpl.
    intros [= <- _]. by eexists.
  - assert (filter (λ e, end_time e ≠ None) group ≠ []) as Hfin.
    { intros E. rewrite E in Hlen. done. }
    destruct (plus_one_second_finished group Hrange Hfin) as [t Ht].
    rewrite !M_bind_run. case_decide.
    + simpl. unfold lift. rewrite Ht. simpl. intros [= <- _]. by eexists.
    + simpl. rewrite M_bind_run. unfold lift. rewrite Ht. simpl.
      intros [= <- _]. by eexists.
Qed.

Lemma compute_gateway_enabled_time_Ok h gateway_id group_df ended_df :
  flow_sources_total h →
  is_Ok (_compute_gateway_enabled_time h gateway_id group_df ended_df).
Proof.
  intros Ht. unfold _compute_gateway_enabled_time.
  destruct (get_upstream_tasks_Ok h gateway_id Ht) as [ts ->]. simpl.
  case_decide; by eexists.
Qed.

Lemma collect_enabled_gateways_Ok h ids group finished state_flows :
  flow_sources_total h →
  is_Ok (collect_enabled_gateways h ids group finished state_flows).
Proof.
  intros Ht. apply for_each_Ok. intros acc flow_id _. unfold enabled_gateway.
  destruct (odict_get _ _) as [gw_id|]; [|by eexists].
  case_decide; [|by eexists].
  destruct (get_upstream_tasks_Ok h gw_id Ht) as [ts ->]. simpl.
  case_decide; [by eexists|].
  destruct (compute_gateway_enabled_time_Ok h gw_id group finished Ht) as [[t|] ->];
    by eexists.
Qed.

Lemma wf_computer_frame s s' : frame s s' → wf_computer s → wf_computer s'.
Proof. intros [(_ & Hr & _ & Hh & _) _] [??]. split; by rewrite ?Hr, ?Hh. Qed.

Lemma compute_case_total group s :
  group ≠ [] → end_times_in_range group → wf_computer s →
  ∃ r s', compute_case group s = (Ok r, s') ∧ wf_computer s'.
Proof.
  intros Hg Hrange Hwf.
  destruct (compute_case group s) as [r s'] eqn:Hrun.
  pose proof (keeps_frame_compute_case _ _ _ _ Hrun) as Hframe.
  enough (is_Ok r) as [r' ->] by (exists r', s'; eauto using wf_computer_frame).
  revert Hrun. unfold compute_case. rewrite M_bind_run. simpl.
  destruct Hwf as [Hgraph Htotal].
  destruct (correct_flows_Ok (reachability_graph s)
              (collect_ongoing (bpmn_handler s) (concurrency_oracle s) group)
              (matched_marking (n_gram_index s) group) Hgraph) as [fl Hfl].
  rewrite M_bind_run. unfold lift at 1. rewrite Hfl.
  destruct (for_each_M_Ok (frame s)
              (enabled_activity group (filter (λ e, end_time e ≠ None) group))
              (elements fl) [] s) as (en & s1 & Hen & Hs1); [|done|].
  { intros acc x s0 _ Hs0. destruct (enabled_activity_Ok group acc x s0 Hg Hrange)
      as (acc' & s0' & ? & ?). exists acc', s0'. split; [done|]. by trans s0. }
  rewrite M_bind_run, Hen.
  destruct (collect_enabled_gateways_Ok (bpmn_handler s)
              (ongoing_ids (collect_ongoing (bpmn_handler s) (concurrency_oracle s) group))
              group (filter (λ e, end_time e ≠ None) group) fl Htotal) as [gws Hgws].
  rewrite M_bind_run. unfold lift. rewrite Hgws.
  destruct (existsb _ gws); intros [= <- _]; by eexists.
Qed.

Lemma compute_case_states_total self :
  wf_computer self → end_times_in_range (event_log_df self) →
  ∃ cs self', compute_case_states self = (Ok cs, self').
Proof.
  intros Hwf Hrange. unfold compute_case_states. rewrite M_bind_run. simpl.
  destruct (for_each_M_Ok wf_computer case_step (groupby (event_log_df self)) ∅ self)
    as (cs & s' & Hrun & _); [|done|by exists cs, s'].
  intros acc [k g] s Hin Hs. unfold case_step. rewrite M_bind_run. simpl.
  destruct (compute_case_total (sort_values g) s) as (r & s1 & -> & Hs1);
    [|by eapply end_times_in_range_group|done|].
  { apply sort_values_nonempty. by eapply groupby_nonempty. }
  destruct r; by eexists _, _.
Qed.

(** The example computer with the reachability graph is well-formed. *)
Lemma example_computer_graph_wf : wf_computer example_computer_graph.
Proof.
  split.
  - intros node incoming edge_id Hnode Hin. simpl in Hnode.
    destruct (decide (node = 1)) as [->|]; [|destruct (decide (node = 2)) as [->|]].
    + vm_compute in Hnode. injection Hnode as <-.
      apply list_elem_of_singleton in Hin as ->.
      split; [by eexists|]. exists (0, 1). split; [reflexivity|by eexists].
    + vm_compute in Hnode. injection Hnode as <-.
      apply list_elem_of_singleton in Hin as ->.
      split; [by eexists|]. exists (1, 2). split; [reflexivity|by eexists].
    + destruct (decide (node = 0)) as [->|].
      * vm_compute in Hnode. injection Hnode as <-. by apply elem_of_nil in Hin.
      * rewrite !lookup_insert_ne in Hnode by congruence.
        rewrite lookup_singleton_ne in Hnode by congruence. done.
  - apply (parse_bpmn_xml_total (Some example_document)). vm_compute. reflexivity.
Qed.

Lemma example_log_in_range : end_times_in_range example_log.
Proof.
  intros e t He Ht. unfold example_log in He.
  repeat (apply elem_of_cons in He as [->|He];
          [simpl in Ht; try discriminate Ht; injection Ht as <-; by vm_compute|]).
  by apply elem_of_nil in He.
Qed.

(** * The code on the example inputs *)

Example parse_example_document :
  parse_bpmn_xml (Some example_document) = Ok example_handler.
Proof. vm_compute. reflexivity. Qed.

Example parse_broken_document : parse_bpmn_xml (Some broken_document) = Raise KeyError.
Proof. vm_compute. reflexivity. Qed.

Example upstream_of_end :
  get_upstream_tasks_through_gateways example_handler "end" = Ok {["task_B"]}.
Proof. vm_compute. reflexivity. Qed.

Example upstream_of_task :
  get_upstream_tasks_through_gateways example_handler "task_A" = Ok {["task_A"]}.
Proof. vm_compute. reflexivity. Qed.

Example upstream_of_start :
  get_upstream_tasks_through_gateways example_handler "start" = Ok ∅.
Proof. vm_compute. reflexivity. Qed.

Example upstream_in_cycle :
  get_upstream_tasks_through_gateways cyclic_handler "G2" = Ok {["T"]}.
Proof. vm_compute. reflexivity. Qed.

(** A finished, B running: B is the ongoing activity, the end event is held
    back, and the case is emitted; with both finished the end event is
    enabled and the case is left out. *)
Example example_cases :
  returned (compute_case_states example_computer) !! "c1"
  = Some (mkCaseState ["f2"] [Some "task_B"]
            [mkOngoing (Some "task_B") (Some 12) "ann" None] [] []) ∧
  returned (compute_case_states example_computer) !! "c2" = None ∧
  case_gateways example_computer
    (sort_values (filter (λ e, case_id e = "c2") example_log))
  = Ok [mkEnabled "end" (Some 20)].
Proof. split_and!; vm_compute; reflexivity. Qed.

(** With the reachability graph, the running B takes the case back to the
    marking before B. *)
Example example_case_corrected :
  case_flows example_computer_graph
    (sort_values (filter (λ e, case_id e = "c1") example_log)) = Ok ∅.
Proof. vm_compute. reflexivity. Qed.

(** Nothing finished: the activity enabled by the start of the case is
    enabled since the earliest start time. *)
Example bootstrap_case :
  enabled_activities <$> (returned (compute_case_states bootstrap_computer) !! "c1")
  = Some [mkEnabled "task_A" (Some 5)].
Proof. vm_compute. reflexivity. Qed.

(** The lazy registration: B had no entry in the table of the oracle. *)
Example example_registration :
  concurrency (concurrency_oracle (compute_case_states example_computer).2)
  = {["A" := ∅; "B" := ∅]}.
Proof. vm_compute. reflexivity. Qed.

(** * The properties *)

(** C1: for every emitted case, [control_flow_state.flows] is a subset of
    the marking the trace matcher returned for the trace of the case: the
    correction step only intersects the working set of flows and adds no
    flow id. *)
Theorem emitted_flows_subset_of_matched_marking
    (self : StateComputer) (cs : gmap string CaseState) (self' : StateComputer)
    (cid : string) (st : CaseState) :
  compute_case_states self = (Ok cs, self') →
  cs !! cid = Some st →
  ∃ group, (cid, group) ∈ groupby (event_log_df self) ∧
    ∀ flow_id, flow_id ∈ cfs_flows st →
      flow_id ∈ matched_marking (n_gram_index self) (sort_values group).
Proof.
  intros Hrun Hst.
  destruct (compute_case_states_emitted _ _ _ _ _ Hrun Hst) as [g Hg].
  exists g. split; [done|].
  destruct (compute_case_states_anatomy _ _ _ _ _ Hrun Hg) as (fl & gws & Hfl & _ & Hcase).
  destruct (existsb _ gws); [congruence|].
  destruct Hcase as (st' & _ & Hst' & _ & Hflows & _).
  assert (st' = st) as -> by congruence.
  intros flow_id. rewrite Hflows, elem_of_elements.
  apply correct_flows_subseteq in Hfl. apply Hfl.
Qed.

(** At the case c1 of the example log. *)
Lemma emitted_flows_subset_of_matched_marking_witness :
  ∃ group, ("c1", group) ∈ groupby example_log ∧
    ∀ flow_id,
      flow_id ∈ cfs_flows (mkCaseState ["f2"] [Some "task_B"]
                             [mkOngoing (Some "task_B") (Some 12) "ann" None] [] []) →
      flow_id ∈ matched_marking example_index (sort_values group).
Proof.
  apply (emitted_flows_subset_of_matched_marking example_computer
           (returned (compute_case_states example_computer))
           (compute_case_states example_computer).2 "c1").
  - vm_compute. reflexivity.
  - vm_compute. reflexivity.
Defined.

(** C2, as stated, fails: in the case c3 of the example log the running
    activity X is not in the model, no ongoing event resolves, and yet
    [control_flow_state.activities] is not empty: it holds the null id. *)
Lemma unresolved_ongoing_event_adds_null_activity :
  ∃ cs self' st,
    compute_case_states example_computer = (Ok cs, self') ∧
    cs !! "c3" = Some st ∧
    cfs_activities st = [None] ∧
    ¬ activities_are_resolved_ids example_handler
        (filter (λ e, case_id e = "c3") example_log) st.
Proof.
  eexists _, _, _. split; [vm_compute; reflexivity|].
  split; [vm_compute; reflexivity|]. split; [vm_compute; reflexivity|].
  intros Hclaim. destruct (proj1 (Hclaim None)) as (e & t & _ & _ & _ & Hx).
  - vm_compute. left.
  - discriminate Hx.
Qed.

(** C2, amended: for every emitted case, [control_flow_state.activities] is
    the set of the activity ids recorded for the ongoing events of the case:
    the model id of every ongoing event whose activity name resolves, and
    the null id when the name of some ongoing event does not resolve. *)
Theorem emitted_activities_are_ongoing_ids
    (self : StateComputer) (cs : gmap string CaseState) (self' : StateComputer)
    (cid : string) (st : CaseState) :
  compute_case_states self = (Ok cs, self') →
  cs !! cid = Some st →
  ∃ group, (cid, group) ∈ groupby (event_log_df self) ∧
    NoDup (cfs_activities st) ∧
    (∀ x, x ∈ cfs_activities st ↔ x ∈ og_id <$> ongoing_activities st) ∧
    (∀ x, x ∈ cfs_activities st ↔
          ∃ e, e ∈ group ∧ end_time e = None ∧
               x = get_task_id_by_name (bpmn_handler self) (activity e)).
Proof.
  intros Hrun Hst.
  destruct (compute_case_states_emitted _ _ _ _ _ Hrun Hst) as [g Hg].
  exists g. split; [done|].
  destruct (compute_case_states_anatomy _ _ _ _ _ Hrun Hg) as (fl & gws & _ & _ & Hcase).
  destruct (existsb _ gws); [congruence|].
  destruct Hcase as (st' & s1 & Hst' & [Hsame _] & _ & Hact & Hong & _).
  assert (st' = st) as -> by congruence.
  rewrite Hact, Hong. split; [apply NoDup_elements|].
  assert (∀ x, x ∈ elements (ongoing_ids (case_ongoing self (sort_values g))) ↔
               x ∈ og_id <$> case_ongoing self (sort_values g)) as Hids.
  { intros x. unfold ongoing_ids. by rewrite elem_of_elements, elem_of_list_to_set. }
  split.
  - intros x. by rewrite Hids, (case_ongoing_ids self s1).
  - intros x. rewrite Hids. unfold case_ongoing, collect_ongoing.
    rewrite <- list_fmap_compose, list_elem_of_fmap.
    split.
    + intros (e & -> & [He Hin]%list_elem_of_filter). exists e.
      split; [by rewrite <- (sort_values_perm g)|done].
    + intros (e & Hin & He & ->). exists e. split; [done|].
      apply list_elem_of_filter. split; [done|]. by rewrite (sort_values_perm g).
Qed.

(** At the case c3 of the example log, whose running activity is not in the model. *)
Lemma emitted_activities_are_ongoing_ids_witness :
  ∃ group, ("c3", group) ∈ groupby example_log ∧
    NoDup [None : option string] ∧
    (∀ x, x ∈ [None] ↔ x ∈ og_id <$> [mkOngoing None (Some 14) "eve" None]) ∧
    (∀ x, x ∈ [None] ↔
          ∃ e, e ∈ group ∧ end_time e = None ∧
               x = get_task_id_by_name example_handler (activity e)).
Proof.
  apply (emitted_activities_are_ongoing_ids example_computer
           (returned (compute_case_states example_computer))
           (compute_case_states example_computer).2 "c3"
           (mkCaseState ["f1"] [None] [mkOngoing None (Some 14) "eve" None]
              [mkEnabled "task_B" (Some 9)] [])).
  - vm_compute. reflexivity.
  - vm_compute. reflexivity.
Defined.

(** C3: for every case of the log, if some gateway in the computed enabled
    gateways has the id of an end event, the case id is absent from the
    returned mapping; otherwise the record of the case is present. *)
Theorem end_event_gateway_excludes_case
    (self : StateComputer) (cs : gmap string CaseState) (self' : StateComputer)
    (cid : string) (group : list Event) :
  compute_case_states self = (Ok cs, self') →
  (cid, group) ∈ groupby (event_log_df self) →
  ∃ gateways, case_gateways self (sort_values group) = Ok gateways ∧
    ((∃ gw, gw ∈ gateways ∧ en_id gw ∈ end_events (bpmn_handler self)) →
       cs !! cid = None) ∧
    ((∀ gw, gw ∈ gateways → en_id gw ∉ end_events (bpmn_handler self)) →
       ∃ st, cs !! cid = Some st ∧ enabled_gateways st = gateways).
Proof.
  intros Hrun Hg.
  destruct (compute_case_states_anatomy _ _ _ _ _ Hrun Hg) as (fl & gws & _ & Hgw & Hcase).
  exists gws. split; [done|].
  destruct (existsb _ gws) eqn:Hex.
  - split; [done|]. intros Hnone. apply existsb_is_end_event in Hex as (gw & Hin & He).
    by destruct (Hnone gw Hin).
  - destruct Hcase as (st & _ & Hst & _ & _ & _ & _ & Hgws). split.
    + intros Hsome. apply existsb_is_end_event in Hsome. congruence.
    + intros _. by exists st.
Qed.

(** At the case c2 of the example log, which is left out. *)
Lemma end_event_gateway_excludes_case_witness :
  ∃ gateways,
    case_gateways example_computer
      (sort_values (filter (λ e, case_id e = "c2") example_log)) = Ok gateways ∧
    ((∃ gw, gw ∈ gateways ∧ en_id gw ∈ end_events example_handler) →
       returned (compute_case_states example_computer) !! "c2" = None) ∧
    ((∀ gw, gw ∈ gateways → en_id gw ∉ end_events example_handler) →
       ∃ st, returned (compute_case_states example_computer) !! "c2" = Some st ∧
             enabled_gateways st = gateways).
Proof.
  apply (end_event_gateway_excludes_case example_computer
           (returned (compute_case_states example_computer))
           (compute_case_states example_computer).2 "c2").
  - vm_compute. reflexivity.
  - apply elem_of_groupby. split; [|reflexivity]. vm_compute. do 1 right. left.
Defined.

(** C4: for every case and every flow of the final [state_flows] whose
    target is not a model activity, if the upstream tasks of the target
    meet the ids of the ongoing activities of the case, the target is not
    among the enabled gateways of the case. *)
Theorem gateway_with_ongoing_upstream_not_enabled
    (self : StateComputer) (cs : gmap string CaseState) (self' : StateComputer)
    (cid : string) (group : list Event)
    (state_flows : gset string) (gateways : list Enabled)
    (flow_id gw : string) (ts : gset string) :
  compute_case_states self = (Ok cs, self') →
  (cid, group) ∈ groupby (event_log_df self) →
  case_flows self (sort_values group) = Ok state_flows →
  case_gateways self (sort_values group) = Ok gateways →
  flow_id ∈ state_flows →
  odict_get (sequence_flows (bpmn_handler self)) flow_id = Some gw →
  gw ∉ dom (activities (bpmn_handler self)) →
  get_upstream_tasks_through_gateways (bpmn_handler self) gw = Ok ts →
  (∃ t, t ∈ ts ∧ Some t ∈ ongoing_ids (case_ongoing self (sort_values group))) →
  (gw ∉ en_id <$> gateways) ∧
  ∀ st, cs !! cid = Some st → gw ∉ en_id <$> enabled_gateways st.
Proof.
  intros Hrun Hg Hfl Hgws Hflow Htgt Hna Hup (t & Ht & Hong).
  assert (gw ∉ en_id <$> gateways) as Hnot.
  { intros (g & -> & Hin)%list_elem_of_fmap.
    unfold case_gateways in Hgws. rewrite Hfl in Hgws. simpl in Hgws.
    apply (collect_enabled_gateways_spec _ _ _ _ _ _ Hgws) in Hin
      as (f & ts' & _ & _ & _ & _ & Hup' & Hempty & _).
    assert (ts' = ts) as -> by congruence.
    assert (t ∈ upstream_ongoing ts (ongoing_ids (case_ongoing self (sort_values group))))
      as Hin by (by apply elem_of_filter).
    rewrite Hempty in Hin. by apply not_elem_of_empty in Hin. }
  split; [done|]. intros st Hst.
  destruct (compute_case_states_anatomy _ _ _ _ _ Hrun Hg) as (fl & gws & _ & Hgw & Hcase).
  assert (gws = gateways) as -> by congruence.
  destruct (existsb _ gateways); [congruence|].
  destruct Hcase as (st' & _ & Hst' & _ & _ & _ & _ & <-).
  by assert (st' = st) as -> by congruence.
Qed.

(** At the case c1 of the example log: the flow f2 targets the end event, whose upstream task B is running. *)
Lemma gateway_with_ongoing_upstream_not_enabled_witness :
  ("end" ∉ en_id <$> []) ∧
  ∀ st, returned (compute_case_states example_computer) !! "c1" = Some st →
        "end" ∉ en_id <$> enabled_gateways st.
Proof.
  apply (gateway_with_ongoing_upstream_not_enabled example_computer
           (returned (compute_case_states example_computer))
           (compute_case_states example_computer).2 "c1"
           (filter (λ e, case_id e = "c1") example_log)
           {["f2"]} [] "f2" "end" {["task_B"]}).
  - vm_compute. reflexivity.
  - vm_compute. left.
  - vm_compute. reflexivity.
  - vm_compute. reflexivity.
  - apply elem_of_singleton. reflexivity.
  - vm_compute. reflexivity.
  - apply not_elem_of_dom. vm_compute. reflexivity.
  - vm_compute. reflexivity.
  - exists "task_B". split; [apply elem_of_singleton; reflexivity|].
    apply elem_of_list_to_set. vm_compute. left.
Defined.

(** C5: the gateway enabled-time helper returns the maximum end time over
    all finished events for a gateway with no upstream tasks; for a gateway
    with upstream tasks, the maximum end time among the finished events of
    those tasks, and the maximum over all finished events when there is no
    such event; and the value is defined whenever there is a finished
    event. *)
Theorem gateway_enabled_time_two_level_fallback
    (h : BPMNHandler) (gateway_id : string) (group_df ended_df : list Event)
    (ts : gset string) :
  get_upstream_tasks_through_gateways h gateway_id = Ok ts →
  ∃ r, _compute_gateway_enabled_time h gateway_id group_df ended_df = Ok r ∧
    (ts = ∅ → is_max_end_time (λ _, True) ended_df r) ∧
    (ts ≠ ∅ →
       (∃ e, e ∈ ended_df ∧ event_of_tasks h ts e ∧ end_time e ≠ None) →
       is_max_end_time (event_of_tasks h ts) ended_df r) ∧
    (ts ≠ ∅ →
       (∀ e, e ∈ ended_df → event_of_tasks h ts e → end_time e = None) →
       is_max_end_time (λ _, True) ended_df r) ∧
    ((∃ e, e ∈ ended_df ∧ end_time e ≠ None) → r ≠ None).
Proof.
  intros Hup. unfold _compute_gateway_enabled_time. rewrite Hup. simpl.
  set (task_names := omap (λ t_id, activities h !! t_id) (elements ts)).
  pose proof (series_max_all ended_df) as Hall.
  pose proof (series_max_filter (λ e, activity e ∈ task_names) ended_df) as Hsub.
  apply (is_max_end_time_ext _ (event_of_tasks h ts)) in Hsub;
    [|intros e; apply elem_of_task_names].
  assert (∀ r, is_max_end_time (λ _, True) ended_df r →
               (∃ e, e ∈ ended_df ∧ end_time e ≠ None) → r ≠ None) as Hdef.
  { intros r Hr (e & Hin & He). by eapply is_max_end_time_defined. }
  case_decide as Hts.
  - eexists. split; [done|]. split_and!; [done|done|done|by apply Hdef].
  - destruct (series_max (end_time <$> filter _ ended_df)) as [m|] eqn:E.
    + eexists. split; [done|]. split_and!; [done|done| |done].
      intros _ Hnone. destruct Hsub as [(e & Hin & HP & He) _].
      specialize (Hnone e Hin HP). congruence.
    + eexists. split; [done|]. split_and!; [done| |done|by apply Hdef].
      intros _ (e & Hin & HP & He). destruct He. by apply Hsub.
Qed.

(** At the end event of the example model and the finished events of the example log. *)
Lemma gateway_enabled_time_two_level_fallback_witness :
  ∃ r, _compute_gateway_enabled_time example_handler "end" example_log
         (filter (λ e, end_time e ≠ None) example_log) = Ok r ∧
    (({["task_B"]} : gset string) = ∅ →
       is_max_end_time (λ _, True) (filter (λ e, end_time e ≠ None) example_log) r) ∧
    (({["task_B"]} : gset string) ≠ ∅ →
       (∃ e, e ∈ filter (λ e, end_time e ≠ None) example_log ∧
             event_of_tasks example_handler {["task_B"]} e ∧ end_time e ≠ None) →
       is_max_end_time (event_of_tasks example_handler {["task_B"]})
         (filter (λ e, end_time e ≠ None) example_log) r) ∧
    (({["task_B"]} : gset string) ≠ ∅ →
       (∀ e, e ∈ filter (λ e, end_time e ≠ None) example_log →
             event_of_tasks example_handler {["task_B"]} e → end_time e = None) →
       is_max_end_time (λ _, True) (filter (λ e, end_time e ≠ None) example_log) r) ∧
    ((∃ e, e ∈ filter (λ e, end_time e ≠ None) example_log ∧ end_time e ≠ None) →
       r ≠ None).
Proof.
  apply (gateway_enabled_time_two_level_fallback example_handler "end").
  vm_compute. reflexivity.
Defined.

(** C6, as stated, fails: the state computer compares the label that
    [edge_to_activity.get] returns for an incoming edge with the id of the
    ongoing activity, and the two are both null for an edge without label
    and an activity that the model does not have.  In the case c3 of the
    example log, X is running and is not in the model; with an unlabelled
    edge into the matched marking, the record of X takes part in the
    correction, which leaves no flow where the resolved records leave
    [f1]; and when the end points of that edge are missing too, the run
    fails with a [KeyError]. *)
Lemma unlabelled_edge_matches_unresolved_activity :
  ∃ group e,
    ("c3", group) ∈ groupby (event_log_df unlabelled_computer) ∧
    e ∈ group ∧ end_time e = None ∧
    get_task_id_by_name (bpmn_handler unlabelled_computer) (activity e) = None ∧
    case_flows unlabelled_computer (sort_values group) = Ok ∅ ∧
    correct_flows (reachability_graph unlabelled_computer)
      (resolved (case_ongoing unlabelled_computer (sort_values group)))
      (matched_marking (n_gram_index unlabelled_computer) (sort_values group))
    = Ok {["f1"]} ∧
    ¬ tolerates_unresolved unlabelled_computer "c3" group e ∧
    (compute_case_states dangling_computer).1 = Raise KeyError ∧
    ¬ tolerates_unresolved dangling_computer "c3" group e.
Proof.
  exists (filter (λ e, case_id e = "c3") example_log),
         (mkEvent "c3" "X" "eve" (Some 14) None None).
  assert (case_flows unlabelled_computer
            (sort_values (filter (λ e, case_id e = "c3") example_log)) = Ok ∅) as Hall
    by (vm_compute; reflexivity).
  assert (correct_flows (reachability_graph unlabelled_computer)
            (resolved (case_ongoing unlabelled_computer
                         (sort_values (filter (λ e, case_id e = "c3") example_log))))
            (matched_marking (n_gram_index unlabelled_computer)
               (sort_values (filter (λ e, case_id e = "c3") example_log)))
          = Ok {["f1"]}) as Hres by (vm_compute; reflexivity).
  assert ((compute_case_states dangling_computer).1 = Raise KeyError) as Hfail
    by (vm_compute; reflexivity).
  split_and!; [| |reflexivity|reflexivity|exact Hall|exact Hres| |exact Hfail|].
  - vm_compute. do 2 right. left.
  - vm_compute. right. left.
  - intros (cs & self' & _ & _ & Hflows & _). rewrite Hall, Hres in Hflows.
    assert (∀ a b : gset string, Ok a = Ok b → a = b) as Hinj by (intros a b ?; congruence).
    apply Hinj in Hflows.
    assert ("f1" ∈ ({["f1"]} : gset string)) as Hin by (by apply elem_of_singleton).
    rewrite <- Hflows in Hin. by apply elem_of_empty in Hin.
  - intros (cs & self' & Hrun & _). rewrite Hrun in Hfail. discriminate Hfail.
Qed.

(** C6, amended: on a reachability graph whose incoming edges have their
    labels, end points and source markings, a model with the source of every
    flow and a log whose end times are at least one second before the
    latest timestamp, state reconstruction does not fail; a case with an
    ongoing event whose activity name is not a model activity is emitted
    exactly when none of its enabled gateways is an end event, and then the
    event is in [ongoing_activities] with a null activity id, which is also
    in [control_flow_state.activities]; and neither the correction of the
    marking nor the test on the upstream tasks of a gateway changes when
    the records without id are left out. *)
Theorem unresolved_ongoing_activity_is_tolerated
    (self : StateComputer) (cid : string) (group : list Event) (e : Event) :
  wf_computer self →
  end_times_in_range (event_log_df self) →
  (cid, group) ∈ groupby (event_log_df self) →
  e ∈ group →
  end_time e = None →
  get_task_id_by_name (bpmn_handler self) (activity e) = None →
  ∃ cs self' gateways,
    compute_case_states self = (Ok cs, self') ∧
    case_gateways self (sort_values group) = Ok gateways ∧
    (is_Some (cs !! cid) ↔
     ∀ gw, gw ∈ gateways → en_id gw ∉ end_events (bpmn_handler self)) ∧
    (∀ st, cs !! cid = Some st →
       mkOngoing None (start_time e) (resource e) None ∈ ongoing_activities st ∧
       None ∈ cfs_activities st) ∧
    case_flows self (sort_values group)
    = correct_flows (reachability_graph self)
        (resolved (case_ongoing self (sort_values group)))
        (matched_marking (n_gram_index self) (sort_values group)) ∧
    (∀ ts, upstream_ongoing ts (ongoing_ids (case_ongoing self (sort_values group)))
           = upstream_ongoing ts
               (ongoing_ids (resolved (case_ongoing self (sort_values group))))).
Proof.
  intros Hwf Hrange Hg He Hend Hunres.
  destruct (compute_case_states_total self Hwf Hrange) as (cs & self' & Hrun).
  destruct (compute_case_states_anatomy _ _ _ _ _ Hrun Hg) as (fl & gws & _ & Hgw & Hcase).
  exists cs, self', gws. split; [done|]. split; [done|].
  assert (∀ h o, mkOngoing None (start_time e) (resource e) None
                 ∈ collect_ongoing h o (sort_values group) ∨
                 get_task_id_by_name h (activity e) ≠ None) as Hrecord.
  { intros h o. destruct (get_task_id_by_name h (activity e)) eqn:Hid; [by right|left].
    unfold collect_ongoing. apply list_elem_of_fmap. exists e. split.
    - unfold ongoing_record. rewrite Hid. by destruct (start_time e).
    - apply list_elem_of_filter. split; [done|]. by rewrite (sort_values_perm group). }
  split_and!.
  - destruct (existsb _ gws) eqn:Hex.
    + apply existsb_is_end_event in Hex as (gw & Hin & Hgwend). split.
      * intros [st Hst]. congruence.
      * intros Hnone. by destruct (Hnone gw Hin).
    + destruct Hcase as (st & _ & Hst & _). split; [|by eexists].
      intros _ gw Hin Hgwend.
      assert (existsb (λ gateway, is_end_event (bpmn_handler self) (en_id gateway)) gws
              = true) as Hex'; [|congruence].
      apply existsb_is_end_event. by exists gw.
  - intros st Hst. destruct (existsb _ gws); [congruence|].
    destruct Hcase as (st' & s1 & Hst' & [(_ & _ & _ & Hh & _) _] & _ & Hact & Hong & _).
    assert (st' = st) as -> by congruence. split.
    + rewrite Hong. unfold case_ongoing. rewrite Hh.
      by destruct (Hrecord (bpmn_handler self) (concurrency_oracle s1)).
    + rewrite Hact. apply elem_of_elements. unfold ongoing_ids, case_ongoing.
      apply elem_of_list_to_set, list_elem_of_fmap.
      exists (mkOngoing None (start_time e) (resource e) None). split; [done|].
      by destruct (Hrecord (bpmn_handler self) (concurrency_oracle self)).
  - unfold case_flows. apply correct_flows_resolved. apply Hwf.
  - intros ts. apply upstream_ongoing_resolved.
Qed.

(** At the case c3 of the example log, with the reachability graph of the
    example model: the case has no enabled gateway and is emitted. *)
Lemma unresolved_ongoing_activity_is_tolerated_witness :
  ∃ cs self' gateways,
    compute_case_states example_computer_graph = (Ok cs, self') ∧
    case_gateways example_computer_graph
      (sort_values (filter (λ e, case_id e = "c3") example_log)) = Ok gateways ∧
    (is_Some (cs !! "c3") ↔
     ∀ gw, gw ∈ gateways → en_id gw ∉ end_events (bpmn_handler example_computer_graph)) ∧
    (∀ st, cs !! "c3" = Some st →
       mkOngoing None (Some 14) "eve" None ∈ ongoing_activities st ∧
       None ∈ cfs_activities st) ∧
    case_flows example_computer_graph
      (sort_values (filter (λ e, case_id e = "c3") example_log))
    = correct_flows example_graph
        (resolved (case_ongoing example_computer_graph
                     (sort_values (filter (λ e, case_id e = "c3") example_log))))
        (matched_marking example_index
           (sort_values (filter (λ e, case_id e = "c3") example_log))) ∧
    (∀ ts, upstream_ongoing ts
             (ongoing_ids (case_ongoing example_computer_graph
                (sort_values (filter (λ e, case_id e = "c3") example_log))))
           = upstream_ongoing ts
               (ongoing_ids (resolved (case_ongoing example_computer_graph
                  (sort_values (filter (λ e, case_id e = "c3") example_log)))))).
Proof.
  apply (unresolved_ongoing_activity_is_tolerated example_computer_graph "c3"
           (filter (λ e, case_id e = "c3") example_log)
           (mkEvent "c3" "X" "eve" (Some 14) None None)).
  - apply example_computer_graph_wf.
  - apply example_log_in_range.
  - vm_compute. do 2 right. left.
  - vm_compute. right. left.
  - reflexivity.
  - reflexivity.
Defined.

(** The case c3 is emitted with the record of X: its state on the example
    computer with the reachability graph. *)
Example unresolved_case_is_emitted :
  returned (compute_case_states example_computer_graph) !! "c3"
  = Some (mkCaseState ["f1"] [None] [mkOngoing None (Some 14) "eve" None]
            [mkEnabled "task_B" (Some 9)] []).
Proof. vm_compute. reflexivity. Qed.

(** C7: model loading fails, with no model, whenever the source is not
    well-formed or a task, an end event or a sequence flow lacks a required
    attribute ([id] on each of them, [sourceRef] and [targetRef] on flows);
    the exception is the parser's [ParseError] in the first case and the
    [KeyError] of the attribute lookup in the second. *)
Theorem model_loading_fails_on_malformed_source (source : option Element) :
  (source = None ∨ ∃ root, source = Some root ∧ missing_required root) →
  ∃ e, parse_bpmn_xml source = Raise e ∧ ModelParseError e ∧
       (source = None → e = ParseError) ∧ (source ≠ None → e = KeyError).
Proof.
  intros [->|(root & -> & Hm)].
  - exists ParseError. split; [done|]. split; [by left|]. done.
  - destruct (parse_bpmn_xml_missing root Hm) as [e He]. exists e. split; [done|].
    apply parse_bpmn_xml_Raise in He as [[? _]|(root' & _ & _ & ->)]; [done|].
    split; [by right|]. done.
Qed.

(** At the document with a sequence flow that has no target. *)
Lemma model_loading_fails_on_malformed_source_witness :
  ∃ e, parse_bpmn_xml (Some broken_document) = Raise e ∧ ModelParseError e ∧
       (Some broken_document = None → e = ParseError) ∧
       (Some broken_document ≠ None → e = KeyError).
Proof.
  apply (model_loading_fails_on_malformed_source (Some broken_document)).
  right. exists broken_document. split; [reflexivity|].
  do 3 right. eexists. split.
  - vm_compute. left.
  - right. left. vm_compute. reflexivity.
Defined.

(** C8, as stated, fails: from the gateway G of the diamond model the
    traversal returns both T1 and T2, and T1 is strictly upstream of T2. *)
Lemma upstream_task_of_reached_task_is_added :
  ∃ ts, get_upstream_tasks_through_gateways diamond_handler "G" = Ok ts ∧
        ¬ no_task_upstream_of_another diamond_handler ts.
Proof.
  exists {["T1"; "T2"]}. split; [vm_compute; reflexivity|].
  intros Hclaim. apply (Hclaim "T1" "T2"); [set_solver|set_solver|done|].
  apply tc_once. exists "f1". split; [left|reflexivity].
Qed.

(** C8, amended: for every model, also one with cycles, and every start id
    the traversal terminates: the stack is empty after at most one iteration
    more than there are sequence flows, and further iterations change
    nothing.  Each search path stops at the first activity it reaches: the
    result is exactly the set of the activities that are reached from the
    start by going backwards over flows without going on from an activity,
    so a task that is only reached through another task is not added. *)
Theorem upstream_traversal_terminates_and_stops_at_activities
    (h : BPMNHandler) (start : string) :
  (∀ n, (search_bound h ≤ n)%nat →
        search_loop h n (search_init start)
        = search_loop h (search_bound h) (search_init start)) ∧
  match search_loop h (search_bound h) (search_init start) with
  | Ok s => stack s = []
  | Raise e => e = KeyError ∧ ¬ flow_sources_total h
  end ∧
  match get_upstream_tasks_through_gateways h start with
  | Ok ts => ∀ t, t ∈ ts ↔ t ∈ dom (activities h) ∧ gateway_path h start t
  | Raise e => e = KeyError ∧ ¬ flow_sources_total h
  end.
Proof.
  split_and!.
  - intros n Hn. apply search_loop_more_fuel; [apply search_init_measure|done].
  - destruct (search_loop _ _ _) as [s|e] eqn:Hloop.
    + eapply search_loop_exits_from; [apply search_init_measure|exact Hloop].
    + split.
      * apply (get_upstream_tasks_Raise h start).
        unfold get_upstream_tasks_through_gateways. by rewrite Hloop.
      * intros Ht. destruct (search_loop_Ok h (search_bound h) (search_init start) Ht).
        congruence.
  - destruct (get_upstream_tasks_through_gateways h start) as [ts|e] eqn:Hup.
    + by apply get_upstream_tasks_spec.
    + split; [by eapply get_upstream_tasks_Raise|].
      intros Ht. destruct (get_upstream_tasks_Ok h start Ht). congruence.
Qed.

(** C9: a full run of [compute_case_states], whether it returns or raises,
    leaves the trace matcher, the reachability graph, the event log and the
    tables of the model adapter as they were; all it changes is the table of
    the concurrency oracle, to which it adds empty entries for names that
    had none. *)
Theorem compute_case_states_frame (self : StateComputer) :
  frame self (compute_case_states self).2.
Proof.
  destruct (compute_case_states self) as [r self'] eqn:Hrun.
  by eapply keeps_frame_compute_case_states.
Qed.

(** C10, as stated, fails: in the case c1 of the model with two end events,
    the flow [fa] of [state_flows] targets the end event [end_a], which is
    held back because its upstream task A is running; the case is excluded
    all the same, because the other end event is an enabled gateway. *)
Lemma held_back_end_event_in_excluded_case :
  ∃ cs self' state_flows,
    compute_case_states two_ends_computer = (Ok cs, self') ∧
    ("c1", two_ends_log) ∈ groupby (event_log_df two_ends_computer) ∧
    case_flows two_ends_computer (sort_values two_ends_log) = Ok state_flows ∧
    "fa" ∈ state_flows ∧
    odict_get (sequence_flows two_ends_handler) "fa" = Some "end_a" ∧
    "end_a" ∈ end_events two_ends_handler ∧
    held_back two_ends_computer (sort_values two_ends_log) "end_a" ∧
    cs !! "c1" = None.
Proof.
  exists ∅, (compute_case_states two_ends_computer).2, {["fa"; "fb"]}.
  split; [vm_compute; reflexivity|]. split; [vm_compute; left|].
  split; [vm_compute; reflexivity|]. split; [set_solver|].
  split; [reflexivity|]. split; [set_solver|]. split; [|reflexivity].
  left. exists {["task_A"]}. split; [vm_compute; reflexivity|].
  intros Hempty.
  assert ("task_A" ∈ upstream_ongoing {["task_A"]}
            (ongoing_ids (case_ongoing two_ends_computer (sort_values two_ends_log))))
    as Hin.
  { apply elem_of_filter. split; [|by apply elem_of_singleton].
    apply elem_of_list_to_set. vm_compute. left. }
  rewrite Hempty in Hin. by apply not_elem_of_empty in Hin.
Qed.

(** C10, amended: the exclusion of a case inspects only the gateways that
    made it into the enabled gateways: for every case, if every end event
    that a flow of [state_flows] targets is held back (its upstream tasks
    meet the ongoing activities, or its enabled time is undefined), the
    case is emitted. *)
Theorem held_back_end_events_do_not_exclude
    (self : StateComputer) (cs : gmap string CaseState) (self' : StateComputer)
    (cid : string) (group : list Event) (state_flows : gset string) :
  compute_case_states self = (Ok cs, self') →
  (cid, group) ∈ groupby (event_log_df self) →
  case_flows self (sort_values group) = Ok state_flows →
  (∀ flow_id gw,
     flow_id ∈ state_flows →
     odict_get (sequence_flows (bpmn_handler self)) flow_id = Some gw →
     gw ∈ end_events (bpmn_handler self) →
     held_back self (sort_values group) gw) →
  is_Some (cs !! cid).
Proof.
  intros Hrun Hg Hfl Hheld.
  destruct (compute_case_states_anatomy _ _ _ _ _ Hrun Hg) as (fl & gws & _ & Hgws & Hcase).
  destruct (existsb _ gws) eqn:Hex; [|destruct Hcase as (st & _ & Hst & _); by exists st].
  apply existsb_is_end_event in Hex as (gw & Hin & Hend). exfalso.
  unfold case_gateways in Hgws. rewrite Hfl in Hgws. simpl in Hgws.
  apply (collect_enabled_gateways_spec _ _ _ _ _ _ Hgws) in Hin
    as (f & ts & Hf & Htgt & _ & _ & Hup & Hempty & Hdef & Htime).
  apply elem_of_elements in Hf.
  destruct (Hheld f (en_id gw) Hf Htgt Hend) as [(ts' & Hup' & Hne)|Hundef].
  - assert (ts' = ts) as -> by congruence. done.
  - congruence.
Qed.

(** At the case c1 of the example log, whose only end event is held back. *)
Lemma held_back_end_events_do_not_exclude_witness :
  is_Some (returned (compute_case_states example_computer) !! "c1").
Proof.
  apply (held_back_end_events_do_not_exclude example_computer
           (returned (compute_case_states example_computer))
           (compute_case_states example_computer).2 "c1"
           (filter (λ e, case_id e = "c1") example_log) {["f2"]}).
  - vm_compute. reflexivity.
  - vm_compute. left.
  - vm_compute. reflexivity.
  - intros flow_id gw ->%elem_of_singleton [= <-] _.
    left. exists {["task_B"]}. split; [vm_compute; reflexivity|].
    apply (bool_decide_unpack _). vm_compute. exact I.
Defined.

(** X1: a model that was loaded has the source of every sequence flow, so
    the upstream traversal never raises on it, whatever the start id. *)
Theorem loaded_model_traversal_never_raises
    (source : option Element) (h : BPMNHandler) (start : string) :
  parse_bpmn_xml source = Ok h →
  flow_sources_total h ∧ is_Ok (get_upstream_tasks_through_gateways h start).
Proof.
  intros Hload. pose proof (parse_bpmn_xml_total source h Hload) as Htotal.
  split; [done|]. by apply get_upstream_tasks_Ok.
Qed.

(** At the example document. *)
Lemma loaded_model_traversal_never_raises_witness :
  flow_sources_total example_handler ∧
  is_Ok (get_upstream_tasks_through_gateways example_handler "end").
Proof.
  apply (loaded_model_traversal_never_raises (Some example_document)).
  vm_compute. reflexivity.
Defined.

(** X2: on a reachability graph whose incoming edges have their labels,
    end points and source markings, a model with the source of every flow
    and a log whose end times are at least one second before the latest
    timestamp, [compute_case_states] returns a mapping: it raises for no
    matcher and no oracle. *)
Theorem compute_case_states_returns_on_well_formed (self : StateComputer) :
  wf_computer self →
  end_times_in_range (event_log_df self) →
  is_Ok (compute_case_states self).1.
Proof.
  intros Hwf Hrange.
  destruct (compute_case_states_total self Hwf Hrange) as (cs & self' & Hrun).
  rewrite Hrun. by exists cs.
Qed.

(** At the example computer with the reachability graph. *)
Lemma compute_case_states_returns_on_well_formed_witness :
  is_Ok (compute_case_states example_computer_graph).1.
Proof.
  apply (compute_case_states_returns_on_well_formed example_computer_graph).
  - apply example_computer_graph_wf.
  - apply example_log_in_range.
Defined.

(** The bound on the end times is needed: with an end time half a second
    before the latest timestamp, the second that is added for the probe of
    the oracle is out of bounds. *)
Example late_end_time_is_out_of_bounds :
  (compute_case_states late_computer).1 = Raise OutOfBoundsDatetime.
Proof. vm_compute. reflexivity. Qed.

(** X3: model loading returns a handler exactly when the source is
    well-formed and no task, end event or sequence flow lacks a required
    attribute. *)
Theorem model_loading_succeeds_iff (source : option Element) :
  is_Ok (parse_bpmn_xml source) ↔
  ∃ root, source = Some root ∧ ¬ missing_required root.
Proof.
  split.
  - intros [h Hload]. destruct source as [root|]; [|done].
    exists root. split; [done|]. intros Hm.
    destruct (parse_bpmn_xml_missing root Hm) as [e He]. congruence.
  - intros (root & -> & Hm).
    destruct (parse_bpmn_xml (Some root)) as [h|e] eqn:Hload; [by exists h|].
    apply parse_bpmn_xml_Raise in Hload as [[? _]|(root' & [= <-] & Hm' & _)]; done.
Qed.

(** * Further lemmas *)

(** ** The traversal at its boundaries *)

Lemma gateway_path_from_activity h start x :
  start ∈ dom (activities h) → gateway_path h start x → x = start.
Proof.
  intros Hact Hpath. destruct Hpath as [|y z w [Hna _] _]; [done|]. by destruct Hna.
Qed.

Lemma gateway_path_step h start x :
  start ∉ dom (activities h) → x ∈ dom (activities h) →
  (gateway_path h start x ↔ ∃ y, flow_edge h y start ∧ gateway_path h y x).
Proof.
  intros Hna Hx. split.
  - intros Hpath. destruct Hpath as [|y z w [_ Hedge] Hrest]; [done|]. by exists z.
  - intros (y & Hedge & Hrest). eapply rtc_l; [|exact Hrest]. by split.
Qed.

Lemma flow_edge_perm h h' x y :
  sequence_flows h ≡ₚ sequence_flows h' → flow_sources h = flow_sources h' →
  flow_edge h x y → flow_edge h' x y.
Proof.
  intros Hp Hs (sf_id & Hin & Hsrc). exists sf_id. split.
  - by rewrite <- Hp.
  - by rewrite <- Hs.
Qed.

Lemma gateway_path_perm h h' start x :
  sequence_flows h ≡ₚ sequence_flows h' → flow_sources h = flow_sources h' →
  activities h = activities h' →
  gateway_path h start x → gateway_path h' start x.
Proof.
  intros Hp Hs Ha. apply rtc_subrel. intros y z [Hna Hedge]. split.
  - by rewrite <- Ha.
  - by eapply flow_edge_perm.
Qed.

Lemma flow_sources_total_perm h h' :
  sequence_flows h ≡ₚ sequence_flows h' → flow_sources h = flow_sources h' →
  flow_sources_total h → flow_sources_total h'.
Proof.
  intros Hp Hs Ht sf_id tgt Hin. rewrite <- Hs. apply (Ht sf_id tgt). by rewrite Hp.
Qed.

(** ** What loading leaves in the tables *)

Lemma last_with_nil key v : last_with key v [] = None.
Proof. done. Qed.

Lemma last_with_cons key v e l :
  last_with key v (e :: l) =
  match last_with key v l with
  | Some e' => Some e'
  | None => if decide (key e = Some v) then Some e else None
  end.
Proof.
  unfold last_with. case_decide as Hk.
  - rewrite filter_cons_True by done. rewrite last_cons. by destruct (last _).
  - rewrite filter_cons_False by done. by destruct (last _).
Qed.

Lemma last_with_Some key v l e :
  last_with key v l = Some e → e ∈ l ∧ key e = Some v.
Proof.
  unfold last_with. intros Hl. apply last_Some_elem_of in Hl.
  apply list_elem_of_filter in Hl as [??]. done.
Qed.

Lemma last_with_None key v l :
  last_with key v l = None ↔ ∀ e, e ∈ l → key e ≠ Some v.
Proof.
  unfold last_with. rewrite last_None. split.
  - intros Hnil e Hin Hk.
    assert (e ∈ filter (λ e, key e = Some v) l) as He by (by apply list_elem_of_filter).
    rewrite Hnil in He. by apply elem_of_nil in He.
  - intros Hall. destruct (filter _ l) as [|e l'] eqn:Hf; [done|].
    assert (e ∈ filter (λ e, key e = Some v) l) as He by (rewrite Hf; left).
    apply list_elem_of_filter in He as [Hk Hin]. by destruct (Hall e Hin).
Qed.

(** In a list whose keys are all different, the element with a key is the
    last one with that key. *)
Lemma last_with_NoDup key v l e :
  NoDup (omap key l) → e ∈ l → key e = Some v → last_with key v l = Some e.
Proof.
  induction l as [|x l IH]; intros Hnd Hin Hk; [by apply elem_of_nil in Hin|].
  rewrite last_with_cons. simpl in Hnd.
  apply elem_of_cons in Hin as [->|Hin].
  - rewrite Hk in Hnd. apply NoDup_cons in Hnd as [Hnot _].
    destruct (last_with key v l) as [e'|] eqn:Hl.
    + apply last_with_Some in Hl as [Hin' Hk']. destruct Hnot.
      apply list_elem_of_omap. by exists e'.
    + by rewrite decide_True.
  - assert (NoDup (omap key l)) as Hnd'.
    { destruct (key x); [by apply NoDup_cons in Hnd as [_ ?]|done]. }
    by rewrite (IH Hnd' Hin Hk).
Qed.

Lemma odict_get_set d k v k' :
  odict_get (odict_set d k v) k' = if decide (k = k') then Some v else odict_get d k'.
Proof.
  induction d as [|[k0 v0] d IH]; simpl.
  - by repeat case_decide.
  - destruct (decide (k0 = k)) as [->|Hne]; simpl.
    + repeat case_decide; congruence.
    + rewrite IH. repeat case_decide; congruence.
Qed.

Lemma odict_set_keys d k v :
  (odict_set d k v).*1 = if decide (k ∈ d.*1) then d.*1 else d.*1 ++ [k].
Proof.
  induction d as [|[k0 v0] d IH].
  - case_decide as Hin; [by apply elem_of_nil in Hin|reflexivity].
  - rewrite fmap_cons. simpl. destruct (decide (k0 = k)) as [->|Hne].
    + clear IH. rewrite fmap_cons. simpl.
      case_decide as Hin; [done|]. destruct Hin. by left.
    + rewrite fmap_cons, IH. simpl. clear IH.
      destruct (decide (k ∈ d.*1)) as [Hin|Hnot]; case_decide as Hin'; try done.
      * destruct Hin'. by right.
      * apply elem_of_cons in Hin' as [?|?]; congruence.
Qed.

Lemma odict_set_NoDup d k v : NoDup d.*1 → NoDup (odict_set d k v).*1.
Proof.
  intros Hnd. rewrite odict_set_keys. case_decide; [done|].
  apply NoDup_app. split_and!; [done| |apply NoDup_singleton].
  intros x Hx ->%list_elem_of_singleton. done.
Qed.

Lemma odict_get_elem_of d k v :
  NoDup d.*1 → (odict_get d k = Some v ↔ (k, v) ∈ d).
Proof.
  induction d as [|[k0 v0] d IH]; simpl; intros Hnd.
  - split; [done|]. by intros ?%elem_of_nil.
  - apply NoDup_cons in Hnd as [Hnot Hnd]. case_decide as Hk.
    + subst k0. split.
      * intros [= ->]. by left.
      * intros [[= ->]|Hin]%elem_of_cons; [done|]. destruct Hnot.
        apply list_elem_of_fmap. by exists (k, v).
    + rewrite (IH Hnd). split; [by right|].
      intros [[= -> ->]|Hin]%elem_of_cons; done.
Qed.

(** The loop over the task elements. *)
Lemma for_each_add_task l h0 h :
  for_each add_task l h0 = Ok h →
  (∀ t_id, activities h !! t_id =
     match last_with element_id t_id l with
     | Some e => task_name_of e
     | None => activities h0 !! t_id
     end) ∧
  (∀ name, task_name_to_id h !! name =
     match last_with task_name_of name l with
     | Some e => element_id e
     | None => task_name_to_id h0 !! name
     end) ∧
  sequence_flows h = sequence_flows h0 ∧ flow_sources h = flow_sources h0 ∧
  end_events h = end_events h0 ∧
  (∀ e, e ∈ l → is_Some (element_id e)).
Proof.
  revert h0. induction l as [|x l IH]; intros h0 Hrun; simpl in Hrun.
  - injection Hrun as <-. split_and!; try done. by intros e ?%elem_of_nil.
  - apply result_bind_Ok in Hrun as (h1 & Hx & Hrun).
    apply IH in Hrun as (Hact & Hn2i & Hsf & Hfs & Hee & Hids).
    unfold add_task in Hx. apply result_bind_Ok in Hx as (t_id & Hid & [= <-]).
    unfold getitem in Hid. destruct (attrib x !! "id") as [t|] eqn:Eid; [|done].
    injection Hid as ->. simpl in *.
    assert (element_id x = Some t_id) as Hxid by done.
    assert (task_name_of x = Some (default ("Unnamed Task " +:+ t_id) (attrib x !! "name")))
      as Hxname by (unfold task_name_of; by rewrite Hxid).
    split_and!; try done.
    + intros i. rewrite Hact, last_with_cons.
      destruct (last_with element_id i l); [done|].
      rewrite Hxid. case_decide as Hi.
      * injection Hi as ->. by rewrite lookup_insert_eq.
      * rewrite lookup_insert_ne; [done|congruence].
    + intros n. rewrite Hn2i, last_with_cons.
      destruct (last_with task_name_of n l); [done|].
      rewrite Hxname. case_decide as Hi.
      * injection Hi as <-. by rewrite lookup_insert_eq.
      * rewrite lookup_insert_ne; [done|congruence].
    + intros e [->|Hin]%elem_of_cons; [by eexists|by apply Hids].
Qed.

(** The loops over the end events. *)
Lemma for_each_add_end_event l h0 h :
  for_each add_end_event l h0 = Ok h →
  (∀ event_id, event_id ∈ end_events h ↔
     event_id ∈ end_events h0 ∨ ∃ e, e ∈ l ∧ element_id e = Some event_id) ∧
  activities h = activities h0 ∧ task_name_to_id h = task_name_to_id h0 ∧
  sequence_flows h = sequence_flows h0 ∧ flow_sources h = flow_sources h0.
Proof.
  revert h0. induction l as [|x l IH]; intros h0 Hrun; simpl in Hrun.
  - injection Hrun as <-. split_and!; try done.
    intros i. split; [by left|]. intros [?|(e & ?%elem_of_nil & _)]; done.
  - apply result_bind_Ok in Hrun as (h1 & Hx & Hrun).
    apply IH in Hrun as (Hee & Hact & Hn2i & Hsf & Hfs).
    unfold add_end_event in Hx. apply result_bind_Ok in Hx as (i0 & Hid & [= <-]).
    unfold getitem in Hid. destruct (attrib x !! "id") as [t|] eqn:Eid; [|done].
    injection Hid as ->. simpl in *. split_and!; try done.
    intros i. rewrite Hee, elem_of_union, elem_of_singleton. split.
    + intros [[->|?]|(e & Hin & He)].
      * right. exists x. split; [by left|done].
      * by left.
      * right. exists e. split; [by right|done].
    + intros [?|(e & [->|Hin]%elem_of_cons & He)].
      * left. by right.
      * left. left. unfold element_id in He. congruence.
      * right. by exists e.
Qed.

(** The loop over the sequence flows. *)
Lemma for_each_add_seq_flow l h0 h :
  for_each add_seq_flow l h0 = Ok h →
  (∀ sf_id, odict_get (sequence_flows h) sf_id =
     match last_with element_id sf_id l with
     | Some e => attrib e !! "targetRef"
     | None => odict_get (sequence_flows h0) sf_id
     end) ∧
  (∀ sf_id, flow_sources h !! sf_id =
     match last_with element_id sf_id l with
     | Some e => attrib e !! "sourceRef"
     | None => flow_sources h0 !! sf_id
     end) ∧
  (NoDup (sequence_flows h0).*1 → NoDup (sequence_flows h).*1) ∧
  activities h = activities h0 ∧ task_name_to_id h = task_name_to_id h0 ∧
  end_events h = end_events h0 ∧
  (∀ e, e ∈ l → is_Some (element_id e) ∧ is_Some (attrib e !! "targetRef") ∧
               is_Some (attrib e !! "sourceRef")).
Proof.
  revert h0. induction l as [|x l IH]; intros h0 Hrun; simpl in Hrun.
  - injection Hrun as <-. split_and!; try done. by intros e ?%elem_of_nil.
  - apply result_bind_Ok in Hrun as (h1 & Hx & Hrun).
    apply IH in Hrun as (Htgt & Hsrc & Hnd & Hact & Hn2i & Hee & Hattrs).
    unfold add_seq_flow in Hx.
    apply result_bind_Ok in Hx as (sf & Hid & Hx).
    apply result_bind_Ok in Hx as (tgt & Ht & Hx).
    apply result_bind_Ok in Hx as (src & Hs & [= <-]).
    unfold getitem in Hid, Ht, Hs.
    destruct (attrib x !! "id") as [i0|] eqn:Eid; [|done]. injection Hid as ->.
    destruct (attrib x !! "targetRef") as [t0|] eqn:Et; [|done]. injection Ht as ->.
    destruct (attrib x !! "sourceRef") as [s0|] eqn:Es; [|done]. injection Hs as ->.
    simpl in *.
    assert (element_id x = Some sf) as Hxid by done.
    split_and!; try done.
    + intros i. rewrite Htgt, last_with_cons.
      destruct (last_with element_id i l); [done|].
      rewrite odict_get_set, Hxid. repeat case_decide; congruence.
    + intros i. rewrite Hsrc, last_with_cons.
      destruct (last_with element_id i l); [done|].
      rewrite Hxid. case_decide as Hi.
      * injection Hi as ->. by rewrite lookup_insert_eq, Es.
      * rewrite lookup_insert_ne; [done|congruence].
    + intros Hnd0. apply Hnd. by apply odict_set_NoDup.
    + intros e [->|Hin]%elem_of_cons; [|by apply Hattrs].
      rewrite Hxid, Et, Es. by split_and!; eexists.
Qed.

(** The tables of a loaded model, by the elements of the document. *)
Lemma parse_bpmn_xml_tables root h :
  parse_bpmn_xml (Some root) = Ok h →
  (∀ t_id, activities h !! t_id
           = last_with element_id t_id (task_elements root) ≫= task_name_of) ∧
  (∀ name, task_name_to_id h !! name
           = last_with task_name_of name (task_elements root) ≫= element_id) ∧
  (∀ event_id, event_id ∈ end_events h ↔
     ∃ e, e ∈ end_event_elements root ∧ element_id e = Some event_id) ∧
  (∀ sf_id, odict_get (sequence_flows h) sf_id
            = last_with element_id sf_id (flow_elements root) ≫= λ e, attrib e !! "targetRef") ∧
  (∀ sf_id, flow_sources h !! sf_id
            = last_with element_id sf_id (flow_elements root) ≫= λ e, attrib e !! "sourceRef") ∧
  NoDup (sequence_flows h).*1 ∧
  (∀ e, e ∈ flow_elements root →
     is_Some (element_id e) ∧ is_Some (attrib e !! "targetRef") ∧
     is_Some (attrib e !! "sourceRef")).
Proof.
  unfold parse_bpmn_xml. simpl. intros Hrun.
  apply result_bind_Ok in Hrun as (h1 & H1 & Hrun).
  apply result_bind_Ok in Hrun as (h2 & H2 & Hrun).
  apply result_bind_Ok in Hrun as (h3 & H3 & Hrun).
  apply for_each_add_task in H1 as (Ha1 & Hn1 & Hs1 & Hf1 & He1 & _).
  apply for_each_add_end_event in H2 as (He2 & Ha2 & Hn2 & Hs2 & Hf2).
  apply for_each_add_end_event in H3 as (He3 & Ha3 & Hn3 & Hs3 & Hf3).
  apply for_each_add_seq_flow in Hrun as (Ht4 & Hs4 & Hnd4 & Ha4 & Hn4 & He4 & Hattrs).
  split_and!.
  - intros i. rewrite Ha4, Ha3, Ha2, Ha1. unfold task_elements.
    by destruct (last_with _ _ _).
  - intros n. rewrite Hn4, Hn3, Hn2, Hn1. unfold task_elements.
    by destruct (last_with _ _ _).
  - intros i. rewrite He4, He3, He2, He1. unfold end_event_elements. simpl.
    setoid_rewrite elem_of_app. split.
    + intros [[Hin|(e & ? & ?)]|(e & ? & ?)]; [by apply not_elem_of_empty in Hin|..];
        exists e; auto.
    + intros (e & [?|?] & ?); [left; right|right]; by exists e.
  - intros i. rewrite Ht4, Hs3, Hs2, Hs1. unfold flow_elements. simpl.
    by destruct (last_with _ _ _).
  - intros i. rewrite Hs4, Hf3, Hf2, Hf1. unfold flow_elements. simpl.
    destruct (last_with _ _ _); [done|]. apply lookup_empty.
  - apply Hnd4. rewrite Hs3, Hs2, Hs1. simpl. apply NoDup_nil_2.
  - apply Hattrs.
Qed.

(** ** The order of the rows of a case *)

Lemma time_le_total a b : time_le a b = true ∨ time_le b a = true.
Proof. destruct a, b; simpl; try tauto. rewrite !Z.leb_le. lia. Qed.

Lemma time_le_trans a b c : time_le a b = true → time_le b c = true → time_le a c = true.
Proof. destruct a, b, c; simpl; try done. rewrite !Z.leb_le. lia. Qed.

Lemma time_le_not_lt a b : time_le a b = true → time_lt b a = false.
Proof. destruct a, b; simpl; try done. rewrite Z.leb_le, Z.ltb_ge. lia. Qed.

Lemma insert_by_sorted {A} (le : A → A → bool) x l :
  (∀ a b, le a b = true ∨ le b a = true) →
  (∀ a b c, le a b = true → le b c = true → le a c = true) →
  StronglySorted (λ a b, le a b = true) l →
  StronglySorted (λ a b, le a b = true) (insert_by le x l).
Proof.
  intros Htotal Htrans. induction l as [|y l IH]; intros Hs; simpl.
  - repeat constructor.
  - apply StronglySorted_cons in Hs as [Hy Hs]. destruct (le x y) eqn:Hxy.
    + apply StronglySorted_cons. split.
      * constructor; [done|]. eapply Forall_impl; [exact Hy|]. intros z Hz. by eapply Htrans.
      * by apply StronglySorted_cons.
    + apply StronglySorted_cons. split; [|by apply IH].
      rewrite insert_by_perm.
      constructor; [|done]. destruct (Htotal x y); congruence.
Qed.

Lemma sort_by_sorted {A} (le : A → A → bool) l :
  (∀ a b, le a b = true ∨ le b a = true) →
  (∀ a b c, le a b = true → le b c = true → le a c = true) →
  StronglySorted (λ a b, le a b = true) (sort_by le l).
Proof.
  intros Htotal Htrans. induction l as [|x l IH]; simpl; [constructor|].
  by apply insert_by_sorted.
Qed.

Lemma sort_values_sorted df : StronglySorted starts_no_later (sort_values df).
Proof.
  apply (sort_by_sorted (λ e1 e2, time_le (start_time e1) (start_time e2))).
  - intros a b. apply time_le_total.
  - intros a b c. apply time_le_trans.
Qed.

Lemma StronglySorted_filter {A} (R : relation A) (P : A → Prop) `{∀ x, Decision (P x)} l :
  StronglySorted R l → StronglySorted R (filter P l).
Proof.
  induction 1 as [|x l Hs IH Hx]; [constructor|].
  rewrite filter_cons. case_decide; [|done].
  constructor; [done|]. apply Forall_forall. intros y [_ Hy]%list_elem_of_filter.
  by eapply Forall_forall in Hx.
Qed.

(** The built-in [min] of a column that is in the order of [sort_values] is
    its first value. *)
Lemma fold_min_sorted (s : list (option Z)) x :
  Forall (λ y, time_le x y = true) s →
  fold_left (λ cur item, if time_lt item cur then item else cur) s x = x.
Proof.
  induction 1 as [|y s Hy _ IH]; simpl; [done|].
  by rewrite (time_le_not_lt _ _ Hy).
Qed.

Lemma py_min_sort_values group :
  group ≠ [] →
  ∃ t, py_min (start_time <$> sort_values group) = Ok t ∧ is_earliest_start group t.
Proof.
  intros Hne. pose proof (sort_values_sorted group) as Hs.
  pose proof (sort_values_perm group) as Hp.
  destruct (sort_values group) as [|e l] eqn:E.
  { symmetry in Hp. by apply Permutation_nil_r in Hp. }
  apply StronglySorted_cons in Hs as [He _].
  exists (start_time e). split.
  - simpl. f_equal. apply fold_min_sorted. by apply Forall_fmap.
  - split.
    + exists e. split; [|done]. rewrite <- Hp. left.
    + intros e' He'. rewrite <- Hp in He'. apply elem_of_cons in He' as [->|He'].
      * destruct (time_le_total (start_time e) (start_time e)); done.
      * by eapply Forall_forall in He.
Qed.

(** ** The enabled activities *)

Lemma enabled_activity_run group finished acc flow_id s en s' :
  enabled_activity group finished acc flow_id s = (Ok en, s') →
  match activity_target (bpmn_handler s) flow_id with
  | Some t =>
      ∃ time, en = acc ++ [mkEnabled t time] ∧
              (finished = [] → py_min (start_time <$> group) = Ok time ∧ s' = s)
  | None => en = acc ∧ s' = s
  end.
Proof.
  unfold enabled_activity, activity_target. rewrite M_bind_run. simpl.
  destruct (odict_get _ _) as [target_ref|]; simpl; [|by intros [= <- <-]].
  destruct (activities _ !! target_ref) as [activity_name|] eqn:Hact.
  2:{ destruct (decide (target_ref ∈ dom (activities (bpmn_handler s)))) as [Hin|_];
        [|by intros [= <- <-]].
      apply elem_of_dom in Hin as [? ?]. congruence. }
  destruct (decide (target_ref ∈ dom (activities (bpmn_handler s)))) as [_|Hout].
  2:{ destruct Hout. apply elem_of_dom. by eexists. }
  rewrite M_bind_run. case_decide as Hfin.
  - unfold lift. destruct (py_min _) as [time|]; [|done]. intros [= <- <-].
    exists time. done.
  - assert (finished ≠ []) as Hne by (by destruct finished).
    intros Hrun.
    destruct (_ ≫= _) as [[time|e] s1] eqn:E in Hrun; [|done].
    injection Hrun as <- <-. by exists time.
Qed.

Lemma for_each_enabled_activity_run group finished l acc s en s' :
  for_each_M (enabled_activity group finished) l acc s = (Ok en, s') →
  en_id <$> en = (en_id <$> acc) ++ omap (activity_target (bpmn_handler s)) l ∧
  (finished = [] →
   s' = s ∧ ∀ a, a ∈ en → a ∈ acc ∨ py_min (start_time <$> group) = Ok (en_enabled_time a)).
Proof.
  revert acc s. induction l as [|flow_id l IH]; intros acc s Hrun; simpl in Hrun.
  - injection Hrun as <- <-. simpl. rewrite app_nil_r. split; [done|].
    intros _. split; [done|]. intros a Ha. by left.
  - apply M_bind_Ok in Hrun as (acc1 & s1 & Hstep & Hrun).
    pose proof (keeps_frame_enabled_activity _ _ _ _ _ _ _ Hstep) as [(_ & _ & _ & Hh & _) _].
    apply enabled_activity_run in Hstep. apply IH in Hrun as [Hids Hboot].
    rewrite Hh in Hids. simpl.
    destruct (activity_target (bpmn_handler s) flow_id) as [t|].
    + destruct Hstep as (time & -> & Hfirst). split.
      * rewrite Hids, fmap_app, <- app_assoc. done.
      * intros Hfin. destruct (Hfirst Hfin) as [Hmin ->].
        destruct (Hboot Hfin) as [-> Hall]. split; [done|].
        intros a Ha. destruct (Hall a Ha) as [[Hin| ->%list_elem_of_singleton]%elem_of_app|Hm];
          [by left|by right|by right].
    + destruct Hstep as [-> ->]. split; [done|]. done.
Qed.

(** The run of one case, with its enabled activities. *)
Lemma compute_case_run group s r s' :
  compute_case group s = (Ok r, s') →
  ∃ state_flows enabled gateways,
    case_flows s group = Ok state_flows ∧
    for_each_M (enabled_activity group (filter (λ e, end_time e ≠ None) group))
      (elements state_flows) [] s = (Ok enabled, s') ∧
    case_gateways s group = Ok gateways ∧
    r = if existsb (λ gateway, is_end_event (bpmn_handler s) (en_id gateway)) gateways
        then None
        else Some (mkCaseState (elements state_flows)
                     (elements (ongoing_ids (case_ongoing s group)))
                     (case_ongoing s group) enabled gateways).
Proof.
  unfold compute_case. intros Hrun.
  apply M_bind_Ok in Hrun as (self & s0 & [= <- <-] & Hrun).
  apply M_bind_Ok in Hrun as (state_flows & s1 & [= Hfl <-] & Hrun).
  apply M_bind_Ok in Hrun as (enabled & s2 & Hen & Hrun).
  apply M_bind_Ok in Hrun as (gateways & s3 & [= Hgw <-] & Hrun).
  exists state_flows, enabled, gateways. split; [done|].
  assert (s' = s2) as -> by (destruct (existsb _ _); by injection Hrun).
  split; [done|]. split.
  - unfold case_gateways, case_flows, case_ongoing. rewrite Hfl. done.
  - destruct (existsb _ _); by injection Hrun as <-.
Qed.

(** What the result holds for an emitted case, with the run of the case. *)
Lemma compute_case_states_emitted_run self cs self' k st :
  compute_case_states self = (Ok cs, self') → cs !! k = Some st →
  ∃ g s1 s2 state_flows gateways,
    (k, g) ∈ groupby (event_log_df self) ∧ frame self s1 ∧
    case_flows self (sort_values g) = Ok state_flows ∧
    case_gateways self (sort_values g) = Ok gateways ∧
    for_each_M (enabled_activity (sort_values g)
                  (filter (λ e, end_time e ≠ None) (sort_values g)))
      (elements state_flows) [] s1 = (Ok (enabled_activities st), s2) ∧
    existsb (λ gateway, is_end_event (bpmn_handler self) (en_id gateway)) gateways = false ∧
    cfs_flows st = elements state_flows ∧
    cfs_activities st = elements (ongoing_ids (case_ongoing self (sort_values g))) ∧
    ongoing_activities st = case_ongoing s1 (sort_values g) ∧
    enabled_gateways st = gateways.
Proof.
  intros Hrun Hst.
  destruct (compute_case_states_emitted _ _ _ _ _ Hrun Hst) as [g Hg].
  destruct (proj2 (compute_case_states_cases _ _ _ Hrun) k g Hg)
    as (s1 & s2 & r & Hframe & Hcase & Hr).
  apply compute_case_run in Hcase as (fl & en & gws & Hfl & Hen & Hgw & ->).
  pose proof Hframe as [Hsame _]. pose proof Hsame as (_ & _ & _ & Hh & _).
  rewrite (case_flows_same self s1) in Hfl by done.
  rewrite (case_gateways_same self s1) in Hgw by done.
  rewrite (ongoing_ids_same self s1) in Hr by done. rewrite Hh in Hr.
  exists g, s1, s2, fl, gws.
  destruct (existsb _ gws) eqn:Hex; [congruence|].
  rewrite Hst in Hr. injection Hr as ->. simpl. split_and!; done.
Qed.

(** ** The enabled time of a gateway *)

Lemma compute_gateway_enabled_time_Some h gateway_id group_df ended_df t :
  _compute_gateway_enabled_time h gateway_id group_df ended_df = Ok (Some t) →
  ∃ e, e ∈ ended_df ∧ end_time e = Some t.
Proof.
  unfold _compute_gateway_enabled_time.
  intros (ts & _ & Hrun)%result_bind_Ok.
  assert (∀ l : list Event, (∀ e, e ∈ l → e ∈ ended_df) → series_max (end_time <$> l) = Some t →
            ∃ e, e ∈ ended_df ∧ end_time e = Some t) as Hmax.
  { intros l Hl [(e & He & Hin)%list_elem_of_fmap _]%series_max_Some.
    exists e. split; [by apply Hl|done]. }
  case_decide.
  - injection Hrun as Hrun. by apply (Hmax ended_df).
  - injection Hrun as Hrun.
    destruct (series_max (end_time <$> filter _ ended_df)) as [m|] eqn:E.
    + rewrite Hrun in E. apply Hmax in E; [done|].
      by intros e [_ ?]%list_elem_of_filter.
    + by apply (Hmax ended_df).
Qed.

(** ** The lazy registration *)

#[global] Instance registration_frame_refl : Reflexive registration_frame.
Proof. intros s. split; [done|]. by intros name []. Qed.

#[global] Instance registration_frame_trans : Transitive registration_frame.
Proof.
  intros s1 s2 s3 [Hf12 Hr12] [Hf23 Hr23]. split; [by trans s2|].
  intros name Hne. destruct Hf12 as [(_ & _ & _ & Hh & _) _].
  destruct (decide (concurrency (concurrency_oracle s2) !! name
                    = concurrency (concurrency_oracle s1) !! name)) as [Heq|Hne12].
  - rewrite <- Hh. apply Hr23. congruence.
  - by apply Hr12.
Qed.

Lemma keeps_bind {A B} (R : relation StateComputer) `{!Transitive R}
    (m : M A) (f : A → M B) :
  keeps R m → (∀ a, keeps R (f a)) → keeps R (m ≫= f).
Proof.
  intros Hm Hf s r s'. rewrite M_bind_run.
  destruct (m s) as [[a|e] s1] eqn:E.
  - intros Hrun. trans s1; [by eapply Hm|by eapply Hf].
  - intros [= <- <-]. by eapply Hm.
Qed.

Lemma keeps_ret {A} (R : relation StateComputer) `{!Reflexive R} (a : A) :
  keeps R (mret a : M A).
Proof. by intros s r s' [= <- <-]. Qed.

Lemma keeps_lift {A} (R : relation StateComputer) `{!Reflexive R} (r : result A) :
  keeps R (lift r).
Proof. by intros s r' s' [= <- <-]. Qed.

Lemma keeps_get_self (R : relation StateComputer) `{!Reflexive R} : keeps R get_self.
Proof. by intros s r s' [= <- <-]. Qed.

Lemma keeps_for_each {A S} (R : relation StateComputer) `{!Reflexive R, !Transitive R}
    (body : S → A → M S) l acc :
  (∀ acc x, keeps R (body acc x)) → keeps R (for_each_M body l acc).
Proof.
  intros Hbody. revert acc. induction l as [|x l IH]; intros acc; simpl.
  - by apply keeps_ret.
  - apply keeps_bind; [done|apply Hbody|apply IH].
Qed.

Lemma keeps_registration_enabled_activity group finished acc flow_id :
  keeps registration_frame (enabled_activity group finished acc flow_id).
Proof.
  intros s r s' Hrun. split; [by eapply keeps_frame_enabled_activity|].
  revert Hrun. unfold enabled_activity. rewrite M_bind_run. simpl.
  destruct (odict_get _ _) as [target_ref|]; [|by intros [= <- <-] name []].
  destruct (activities _ !! _) as [activity_name|] eqn:Hact; [|by intros [= <- <-] name []].
  rewrite M_bind_run. case_decide.
  - unfold lift. destruct (py_min _); by intros [= <- <-] name [].
  - rewrite !M_bind_run. case_decide as Hin.
    + simpl. unfold lift. destruct (plus_one_second _); simpl; by intros [= <- <-] name [].
    + simpl. unfold lift.
      assert (registers_model_names s
                (mkStateComputer (n_gram_index s) (reachability_graph s) (event_log_df s)
                   (bpmn_handler s)
                   (mkConcurrencyOracle
                      (<[activity_name := ∅]> (concurrency (concurrency_oracle s)))
                      (enabled_since (concurrency_oracle s))))) as Hreg.
      { intros name. simpl. destruct (decide (activity_name = name)) as [<-|Hne].
        - intros _. by exists target_ref.
        - rewrite lookup_insert_ne by done. by intros []. }
      destruct (plus_one_second _); simpl; by intros [= <- <-].
Qed.

Lemma keeps_registration_compute_case_states : keeps registration_frame compute_case_states.
Proof.
  unfold compute_case_states. apply keeps_bind; [apply _|apply keeps_get_self; apply _|].
  intros self. apply keeps_for_each; [apply _..|]. intros case_states item.
  unfold case_step.
  apply keeps_bind; [apply _| |intros [st|]; apply keeps_ret; apply _].
  unfold compute_case.
  apply keeps_bind; [apply _|apply keeps_get_self; apply _|]. intros self0.
  apply keeps_bind; [apply _|apply keeps_lift; apply _|]. intros state_flows.
  apply keeps_bind; [apply _| |].
  { apply keeps_for_each; [apply _..|]. intros. apply keeps_registration_enabled_activity. }
  intros enabled.
  apply keeps_bind; [apply _|apply keeps_lift; apply _|]. intros gateways.
  destruct (existsb _ _); apply keeps_ret; apply _.
Qed.

Lemma StateComputer_eq (s s' : StateComputer) :
  same_inputs s s' →
  concurrency (concurrency_oracle s') = concurrency (concurrency_oracle s) →
  s' = s.
Proof.
  destruct s as [ng rg df h [c f]], s' as [ng' rg' df' h' [c' f']].
  intros (? & ? & ? & ? & ?). simpl in *. by intros; subst.
Qed.

(** ** The state of a case as a function of its rows *)

Lemma filter_nil_iff {A} (P : A → Prop) `{∀ x, Decision (P x)} (l : list A) :
  (∀ x, x ∈ l → ¬ P x) → filter P l = [].
Proof.
  intros Hall. destruct (filter P l) as [|x l'] eqn:E; [done|].
  assert (x ∈ filter P l) as [HP Hin]%list_elem_of_filter by (rewrite E; left).
  by destruct (Hall x Hin).
Qed.

Lemma case_flows_ext s1 s2 group :
  n_gram_index s1 = n_gram_index s2 →
  reachability_graph s1 = reachability_graph s2 →
  bpmn_handler s1 = bpmn_handler s2 →
  case_flows s1 group = case_flows s2 group.
Proof.
  intros Hn Hr Hh. unfold case_flows, case_ongoing. rewrite Hn, Hr, Hh.
  apply correct_flows_ids, collect_ongoing_ids.
Qed.

Lemma ongoing_ids_ext s1 s2 group :
  bpmn_handler s1 = bpmn_handler s2 →
  ongoing_ids (case_ongoing s1 group) = ongoing_ids (case_ongoing s2 group).
Proof.
  intros Hh. unfold ongoing_ids, case_ongoing. rewrite Hh.
  by rewrite (collect_ongoing_ids _ (concurrency_oracle s1) (concurrency_oracle s2)).
Qed.

Lemma case_gateways_ext s1 s2 group :
  n_gram_index s1 = n_gram_index s2 →
  reachability_graph s1 = reachability_graph s2 →
  bpmn_handler s1 = bpmn_handler s2 →
  case_gateways s1 group = case_gateways s2 group.
Proof.
  intros Hn Hr Hh. unfold case_gateways.
  rewrite (case_flows_ext s1 s2), (ongoing_ids_ext s1 s2), Hh by done. done.
Qed.

Lemma og_row_ongoing_record h oracle row :
  og_row (ongoing_record h oracle row) = event_row row.
Proof. done. Qed.

Lemma og_row_collect_ongoing h oracle group :
  og_row <$> collect_ongoing h oracle group
  = event_row <$> filter (λ e, end_time e = None) group.
Proof.
  unfold collect_ongoing. rewrite <- list_fmap_compose. by apply list_fmap_ext.
Qed.

Lemma ongoing_record_enabled h oracle row :
  og_enabled_time (ongoing_record h oracle row) ≠ None →
  og_start_time (ongoing_record h oracle row) ≠ None ∧
  og_id (ongoing_record h oracle row) ≠ None ∧
  activity row ∈ dom (concurrency oracle) ∧
  og_enabled_time (ongoing_record h oracle row) = enabled_time row.
Proof.
  unfold ongoing_record. simpl.
  destruct (start_time row); [|done].
  destruct (get_task_id_by_name h (activity row)); [|done].
  case_decide; done.
Qed.

(** ** The filters on event logs *)

Lemma series_min_None (s : list (option Z)) :
  series_min s = None ↔ ∀ x, x ∈ s → x = None.
Proof.
  induction s as [|[a|] s IH]; simpl.
  - split; [|done]. by intros _ x ?%elem_of_nil.
  - split.
    + unfold nat_min. by destruct (series_min s).
    + intros Hall. by specialize (Hall (Some a) ltac:(left)).
  - rewrite IH. split.
    + intros Hall x [->|Hx]%elem_of_cons; [done|by apply Hall].
    + intros Hall x Hx. apply Hall. by right.
Qed.

Lemma series_min_Some (s : list (option Z)) m :
  series_min s = Some m → Some m ∈ s ∧ ∀ x, Some x ∈ s → m ≤ x.
Proof.
  revert m. induction s as [|[a|] s IH]; intros m; simpl.
  - done.
  - destruct (series_min s) as [b|] eqn:E; simpl.
    + intros [= <-]. destruct (IH b eq_refl) as [Hin Hle]. split.
      * destruct (Z.min_spec a b) as [[_ ->]|[_ ->]]; [by left|by right].
      * intros x [[= ->]|Hx]%elem_of_cons; [lia|]. specialize (Hle x Hx). lia.
    + intros [= <-]. split; [by left|].
      intros x [[= ->]|Hx]%elem_of_cons; [lia|].
      pose proof (proj1 (series_min_None s) E _ Hx). done.
  - intros [Hin Hle]%IH. split; [by right|].
    intros x [?|Hx]%elem_of_cons; [done|by apply Hle].
Qed.

(** The test of the horizon on the least start time of a case. *)
Lemma min_start_by_horizon hz (group : list Event) :
  time_lt (Some hz) (series_min (start_time <$> group)) = false ↔ case_starts_by hz group.
Proof.
  destruct (series_min _) as [m|] eqn:E; simpl.
  - apply series_min_Some in E as [(e & He & Hin)%list_elem_of_fmap Hle].
    rewrite Z.ltb_ge. split.
    + intros Hm. right. by exists e, m.
    + intros [Hall|(e' & t & Hin' & Ht & Hhz)].
      * rewrite (Hall e Hin) in He. done.
      * trans t; [|done]. apply Hle. rewrite <- Ht. apply list_elem_of_fmap. by exists e'.
  - split; [|done]. intros _. left. intros e He.
    apply (proj1 (series_min_None _) E). apply list_elem_of_fmap. by exists e.
Qed.

(** The test of the window on the least start and the greatest end time of
    a case. *)
Lemma window_test start_dt horizon_dt (group : list Event) :
  time_leq (Some start_dt) (series_min (start_time <$> group))
  && time_leq (series_max (end_time <$> group)) (Some horizon_dt) = true
  ↔ case_within start_dt horizon_dt group.
Proof.
  rewrite andb_true_iff. unfold case_within. split.
  - intros [Hs He].
    destruct (series_min _) as [m|] eqn:Em; [|done].
    destruct (series_max _) as [M|] eqn:EM; [|done]. simpl in Hs, He.
    apply Z.leb_le in Hs, He.
    apply series_min_Some in Em as [(e1 & He1 & Hin1)%list_elem_of_fmap Hmin].
    apply series_max_Some in EM as [(e2 & He2 & Hin2)%list_elem_of_fmap Hmax].
    split_and!.
    + by exists e1, m.
    + by exists e2, M.
    + intros e t Hin Ht. trans m; [done|]. apply Hmin. rewrite <- Ht.
      apply list_elem_of_fmap. by exists e.
    + intros e t Hin Ht. trans M; [|done]. apply Hmax. rewrite <- Ht.
      apply list_elem_of_fmap. by exists e.
  - intros ((e1 & t1 & Hin1 & Ht1) & (e2 & t2 & Hin2 & Ht2) & Hlo & Hhi).
    destruct (series_min _) as [m|] eqn:Em.
    2:{ rewrite series_min_None in Em. specialize (Em (start_time e1)).
        rewrite Ht1 in Em. discriminate Em. apply list_elem_of_fmap. by exists e1. }
    destruct (series_max _) as [M|] eqn:EM.
    2:{ rewrite series_max_None in EM. specialize (EM (end_time e2)).
        rewrite Ht2 in EM. discriminate EM. apply list_elem_of_fmap. by exists e2. }
    apply series_min_Some in Em as [(e & He & Hin)%list_elem_of_fmap _].
    apply series_max_Some in EM as [(e' & He' & Hin')%list_elem_of_fmap _].
    simpl. rewrite !Z.leb_le. split; [by apply (Hlo e m Hin)|by apply (Hhi e' M Hin')].
Qed.

(** *** Filters that keep or remove whole cases *)

Lemma rows_of_case_filter (Q : string → Prop) `{∀ k, Decision (Q k)} cid (l : list Event) :
  rows_of cid (filter (λ e, Q (case_id e)) l) = if decide (Q cid) then rows_of cid l else [].
Proof.
  unfold rows_of. rewrite list_filter_filter. destruct (decide (Q cid)) as [Hq|Hq].
  - apply list_filter_iff. intros e. split; [by intros [? _]|]. intros <-. done.
  - apply filter_nil_iff. intros e _ [<- ?]. done.
Qed.

Lemma filter_all {A} (P : A → Prop) `{∀ x, Decision (P x)} (l : list A) :
  (∀ x, x ∈ l → P x) → filter P l = l.
Proof.
  induction l as [|x l IH]; intros Hall; [done|].
  rewrite filter_cons, decide_True by (apply Hall; left).
  f_equal. apply IH. intros y Hy. apply Hall. by right.
Qed.

Lemma filter_ext_in {A} (P Q : A → Prop) `{∀ x, Decision (P x), ∀ x, Decision (Q x)}
    (l : list A) :
  (∀ x, x ∈ l → P x ↔ Q x) → filter P l = filter Q l.
Proof.
  induction l as [|x l IH]; intros Hall; [done|].
  rewrite !filter_cons, IH by (intros y Hy; apply Hall; by right).
  destruct (decide (P x)) as [HP|HP], (decide (Q x)) as [HQ|HQ]; try done.
  - destruct HQ. by apply (Hall x); [left|].
  - destruct HP. by apply (Hall x); [left|].
Qed.

(** A filter on the case of a row that is stable under the filter leaves
    its result as it is when it is applied again. *)
Lemma case_filter_again (Q : list Event → Prop) `{∀ g, Decision (Q g)} (l : list Event) :
  let l' := filter (λ e, Q (rows_of (case_id e) l)) l in
  filter (λ e, Q (rows_of (case_id e) l')) l' = l'.
Proof.
  intros l'. apply filter_all. intros e [Hq _]%list_elem_of_filter.
  pose proof (rows_of_case_filter (λ k, Q (rows_of k l)) (case_id e) l) as Hr.
  simpl in Hr. unfold l'. rewrite Hr. by rewrite decide_True.
Qed.

Lemma case_filter_rows (Q : list Event → Prop) `{∀ g, Decision (Q g)} (l : list Event) cid :
  let l' := filter (λ e, Q (rows_of (case_id e) l)) l in
  (Q (rows_of cid l) → rows_of cid l' = rows_of cid l) ∧
  (¬ Q (rows_of cid l) → rows_of cid l' = []).
Proof.
  intros l'. pose proof (rows_of_case_filter (λ k, Q (rows_of k l)) cid l) as Hr.
  simpl in Hr. unfold l'. rewrite Hr.
  split; intros Hq; [by rewrite decide_True|by rewrite decide_False].
Qed.

(** *** The horizon *)

Lemma horizon_rows hz (out : list Event) :
  filter (λ e, time_lt (Some hz) (min_st out e) = false) out
  = filter (λ e, (λ g, time_lt (Some hz) (series_min (start_time <$> g)) = false)
                   (rows_of (case_id e) out)) out.
Proof. done. Qed.

Lemma preprocess_alog_steps df start horizon :
  preprocess_alog df start horizon
  = preprocess_glog
      (match start with
       | Some st =>
           if decide ("end_time" ∈ columns df) then
             mkDataFrame (columns df)
               (filter (λ e, time_lt (end_time e) (Some st) = false) (rows df))
           else df
       | None => df
       end) horizon.
Proof. done. Qed.

Lemma preprocess_glog_Ok df horizon out :
  preprocess_glog df horizon = Ok out →
  columns out = columns df ∧
  ((horizon = None ∨ "start_time" ∉ columns df) ∧ out = df ∨
   ∃ hz, horizon = Some hz ∧ "start_time" ∈ columns df ∧ "case_id" ∈ columns df ∧
         rows out = filter (λ e, time_lt (Some hz) (min_st (rows df) e) = false) (rows df)).
Proof.
  unfold preprocess_glog. destruct horizon as [hz|].
  2:{ intros [= <-]. split; [done|]. left. split; [by left|done]. }
  case_decide as Hst.
  2:{ intros [= <-]. split; [done|]. left. split; [by right|done]. }
  unfold column. case_decide as Hc; [|done]. simpl. intros [= <-]. split; [done|].
  right. by exists hz.
Qed.

Lemma preprocess_glog_again df horizon out :
  preprocess_glog df horizon = Ok out → preprocess_glog out horizon = Ok out.
Proof.
  intros Hrun.
  pose proof Hrun as [Hcols [[Hskip ->]|(hz & -> & Hst & Hc & Hrows)]]%preprocess_glog_Ok.
  - done.
  - unfold preprocess_glog, column. rewrite Hcols, !decide_True by done.
    change (Ok () ≫= _) with
      (Ok (mkDataFrame (columns df)
             (filter (λ e, time_lt (Some hz) (min_st (rows out) e) = false) (rows out)))).
    assert (filter (λ e, time_lt (Some hz) (min_st (rows out) e) = false) (rows out)
            = rows out) as ->.
    { rewrite Hrows.
      exact (case_filter_again
               (λ g, time_lt (Some hz) (series_min (start_time <$> g)) = false) (rows df)). }
    rewrite <- Hcols. by destruct out.
Qed.

(** *** The window *)

Lemma keep_case_loop df start_dt horizon_dt l acc keep :
  for_each (keep_case df start_dt horizon_dt) l acc = Ok keep →
  (l ≠ [] → "start_time" ∈ columns df ∧ "end_time" ∈ columns df) ∧
  ∀ k, k ∈ keep ↔ k ∈ acc ∨ ∃ g, (k, g) ∈ l ∧ case_within start_dt horizon_dt g.
Proof.
  revert acc. induction l as [|[k0 g0] l IH]; intros acc Hrun; simpl in Hrun.
  - injection Hrun as <-. split; [done|]. intros k. split; [by left|].
    intros [?|(g & Hin & _)]; [done|]. by apply elem_of_nil in Hin.
  - apply result_bind_Ok in Hrun as (acc1 & Hstep & Hrun).
    unfold keep_case, column in Hstep.
    destruct (decide ("start_time" ∈ columns df)) as [Hs|]; [|done].
    destruct (decide ("end_time" ∈ columns df)) as [He|]; [|done].
    change (Ok () ≫= _) with
      (if time_leq (Some start_dt) (series_min (start_time <$> g0))
          && time_leq (series_max (end_time <$> g0)) (Some horizon_dt)
       then Ok (acc ++ [k0]) else Ok acc) in Hstep.
    apply IH in Hrun as [_ Hkeep]. split; [done|]. intros k. rewrite Hkeep.
    destruct (time_leq (Some start_dt) (series_min (start_time <$> g0))
              && time_leq (series_max (end_time <$> g0)) (Some horizon_dt)) eqn:Htest;
      injection Hstep as <-.
    + apply window_test in Htest. rewrite elem_of_app, list_elem_of_singleton. split.
      * intros [[?| ->]|(g & Hin & Hw)]; [by left| |].
        -- right. exists g0. split; [left|done].
        -- right. exists g. split; [by right|done].
      * intros [?|(g & [[= -> ->]|Hin]%elem_of_cons & Hw)]; [by left; left|by left; right|].
        right. by exists g.
    + assert (¬ case_within start_dt horizon_dt g0) as Hnot.
      { intros Hw%window_test. congruence. }
      split.
      * intros [?|(g & Hin & Hw)]; [by left|]. right. exists g. split; [by right|done].
      * intros [?|(g & [[= -> ->]|Hin]%elem_of_cons & Hw)]; [by left|done|].
        right. by exists g.
Qed.

#[global] Instance case_within_dec start_dt horizon_dt group :
  Decision (case_within start_dt horizon_dt group).
Proof.
  destruct (time_leq (Some start_dt) (series_min (start_time <$> group))
            && time_leq (series_max (end_time <$> group)) (Some horizon_dt)) eqn:E.
  - left. by apply window_test.
  - right. intros Hw%window_test. congruence.
Defined.

Lemma discard_partial_cases_Ok df start_dt horizon_dt out :
  discard_partial_cases df start_dt horizon_dt = Ok out →
  columns out = columns df ∧
  ((rows df = [] ∨ columns df = ∅) ∧ out = df ∨
   rows df ≠ [] ∧
   "case_id" ∈ columns df ∧ "start_time" ∈ columns df ∧ "end_time" ∈ columns df ∧
   rows out = filter (λ e, case_within start_dt horizon_dt (rows_of (case_id e) (rows df)))
                (rows df)).
Proof.
  unfold discard_partial_cases. case_decide as Hempty.
  { intros [= <-]. split; [done|]. by left. }
  unfold column. case_decide as Hc; [|done]. simpl.
  intros (keep & Hloop & [= <-])%result_bind_Ok. split; [done|]. right.
  apply keep_case_loop in Hloop as [Hcols Hkeep].
  assert (rows df ≠ []) as Hne by (intros ?; apply Hempty; by left).
  destruct Hcols as [Hs He].
  { destruct (rows df) as [|e l] eqn:E; [done|].
    intros Hnil. assert ((case_id e, rows_of (case_id e) (e :: l)) ∈ groupby (e :: l)) as Hin.
    { apply elem_of_groupby. split; [|done]. rewrite fmap_cons. left. }
    rewrite Hnil in Hin. by apply elem_of_nil in Hin. }
  split_and!; try done. simpl. apply filter_ext_in. intros e Hin. rewrite Hkeep. split.
  - intros [Hnil|(g & [_ ->]%elem_of_groupby & Hw)]; [by apply elem_of_nil in Hnil|done].
  - intros Hw. right. exists (rows_of (case_id e) (rows df)). split; [|done].
    apply elem_of_groupby. split; [|done]. apply list_elem_of_fmap. by exists e.
Qed.

Lemma keep_case_loop_Ok df start_dt horizon_dt l acc :
  "start_time" ∈ columns df → "end_time" ∈ columns df →
  is_Ok (for_each (keep_case df start_dt horizon_dt) l acc).
Proof.
  intros Hs He. apply for_each_Ok. intros keep item _.
  unfold keep_case, column. rewrite !decide_True by done. simpl.
  destruct (_ && _); by eexists.
Qed.

Lemma groupby_rows_nonempty (l : list Event) : l ≠ [] → groupby l ≠ [].
Proof.
  destruct l as [|e l]; [done|]. intros _ Hnil.
  assert ((case_id e, rows_of (case_id e) (e :: l)) ∈ groupby (e :: l)) as Hin.
  { apply elem_of_groupby. split; [|done]. rewrite fmap_cons. left. }
  rewrite Hnil in Hin. by apply elem_of_nil in Hin.
Qed.

Lemma discard_partial_cases_Raise df start_dt horizon_dt :
  is_Raise (discard_partial_cases df start_dt horizon_dt) ↔
  rows df ≠ [] ∧ columns df ≠ ∅ ∧
  ¬ ("case_id" ∈ columns df ∧ "start_time" ∈ columns df ∧ "end_time" ∈ columns df).
Proof.
  unfold discard_partial_cases. case_decide as Hempty.
  { split; [by intros [e ?]|]. intros (Hr & Hc & _). destruct Hempty; done. }
  assert (rows df ≠ [] ∧ columns df ≠ ∅) as [Hr Hc].
  { split; intros ?; apply Hempty; [by left|by right]. }
  unfold column. destruct (decide ("case_id" ∈ columns df)) as [Hcid|Hcid]; simpl.
  2:{ split; [|by eexists]. intros _. split_and!; [done..|]. by intros [? _]. }
  destruct (for_each _ _ _) as [keep|e] eqn:Hloop; simpl.
  - split; [by intros [e ?]|]. intros (_ & _ & Hnot). exfalso. apply Hnot.
    apply keep_case_loop in Hloop as [Hcols _].
    destruct Hcols as [? ?]; [by apply groupby_rows_nonempty|done].
  - split; [|by eexists]. intros _. split_and!; [done..|]. intros (_ & Hs & He).
    destruct (keep_case_loop_Ok df start_dt horizon_dt (groupby (rows df)) [] Hs He)
      as [keep Hok].
    congruence.
Qed.

(** * Further properties *)

(** ** The loaded model *)

Example parse_colliding_document :
  parse_bpmn_xml (Some colliding_document) = Ok colliding_handler.
Proof. vm_compute. reflexivity. Qed.

(** X4: in a loaded model the lookups are those of dictionaries filled in
    document order: [activities] gives an id the name of the last task
    element with that id (["Unnamed Task <id>"] when it has no name), and
    [get_task_id_by_name] gives a name the id of the last task element
    recorded under that name, [None] when there is none. *)
Theorem loaded_task_lookups_are_last_write_wins (root : Element) (h : BPMNHandler) :
  parse_bpmn_xml (Some root) = Ok h →
  (∀ t_id, activities h !! t_id
           = last_with element_id t_id (task_elements root) ≫= task_name_of) ∧
  (∀ name, get_task_id_by_name h name
           = last_with task_name_of name (task_elements root) ≫= element_id) ∧
  (∀ name, get_task_id_by_name h name = None ↔
           ∀ e, e ∈ task_elements root → task_name_of e ≠ Some name).
Proof.
  intros Hload. apply parse_bpmn_xml_tables in Hload as (Hact & Hn2i & _).
  split_and!; [done|done|].
  intros name. unfold get_task_id_by_name. rewrite Hn2i.
  rewrite <- last_with_None.
  destruct (last_with task_name_of name (task_elements root)) as [e|] eqn:Hl; [|done].
  simpl. apply last_with_Some in Hl as [_ Hname].
  unfold task_name_of in Hname. destruct (element_id e); [|done]. split; done.
Qed.

(** At the document with colliding names. *)
Lemma loaded_task_lookups_are_last_write_wins_witness :
  (∀ t_id, activities colliding_handler !! t_id
           = last_with element_id t_id (task_elements colliding_document) ≫= task_name_of) ∧
  (∀ name, get_task_id_by_name colliding_handler name
           = last_with task_name_of name (task_elements colliding_document) ≫= element_id) ∧
  (∀ name, get_task_id_by_name colliding_handler name = None ↔
           ∀ e, e ∈ task_elements colliding_document → task_name_of e ≠ Some name).
Proof.
  apply (loaded_task_lookups_are_last_write_wins colliding_document).
  vm_compute. reflexivity.
Defined.

(** X5: names and ids of a loaded model are inverse to each other as far as
    they are unique: when no two task elements have the same id, the id that
    [get_task_id_by_name] returns for a name has that name in [activities];
    when no two task elements are recorded under the same name,
    [get_task_id_by_name] returns for the name of an id that id. *)
Theorem loaded_names_and_ids_round_trip
    (root : Element) (h : BPMNHandler) (t_id name : string) :
  parse_bpmn_xml (Some root) = Ok h →
  (NoDup (omap element_id (task_elements root)) →
   get_task_id_by_name h name = Some t_id → activities h !! t_id = Some name) ∧
  (NoDup (omap task_name_of (task_elements root)) →
   activities h !! t_id = Some name → get_task_id_by_name h name = Some t_id).
Proof.
  intros Hload. apply parse_bpmn_xml_tables in Hload as (Hact & Hn2i & _).
  unfold get_task_id_by_name. rewrite Hact, Hn2i. split.
  - intros Hnd Hid.
    destruct (last_with task_name_of name _) as [e|] eqn:Hl; [|done]. simpl in Hid.
    apply last_with_Some in Hl as [Hin Hname].
    by rewrite (last_with_NoDup element_id t_id _ e Hnd Hin Hid).
  - intros Hnd Hname.
    destruct (last_with element_id t_id _) as [e|] eqn:Hl; [|done]. simpl in Hname.
    apply last_with_Some in Hl as [Hin Hid].
    by rewrite (last_with_NoDup task_name_of name _ e Hnd Hin Hname).
Qed.

(** At the example document, whose ids and names are unique. *)
Lemma loaded_names_and_ids_round_trip_witness :
  (NoDup (omap element_id (task_elements example_document)) →
   get_task_id_by_name example_handler "B" = Some "task_B" →
   activities example_handler !! "task_B" = Some "B") ∧
  (NoDup (omap task_name_of (task_elements example_document)) →
   activities example_handler !! "task_B" = Some "B" →
   get_task_id_by_name example_handler "B" = Some "task_B").
Proof.
  apply (loaded_names_and_ids_round_trip example_document).
  vm_compute. reflexivity.
Defined.

(** X6: [is_end_event] holds of an id in a loaded model exactly when the
    document has an end event element with that id, namespaced or not; the
    two conventions are united. *)
Theorem loaded_end_events_unite_both_conventions
    (root : Element) (h : BPMNHandler) (element : string) :
  parse_bpmn_xml (Some root) = Ok h →
  (is_end_event h element = true ↔
   ∃ e, (e ∈ findall root (bpmn_ns +:+ "endEvent") ∨ e ∈ findall root "endEvent") ∧
        attrib e !! "id" = Some element).
Proof.
  intros Hload. apply parse_bpmn_xml_tables in Hload as (_ & _ & Hee & _).
  unfold is_end_event. rewrite bool_decide_eq_true, Hee. unfold end_event_elements.
  setoid_rewrite elem_of_app. done.
Qed.

(** At the document with an end event of each convention. *)
Lemma loaded_end_events_unite_both_conventions_witness :
  is_end_event colliding_handler "e1" = true ↔
  ∃ e, (e ∈ findall colliding_document (bpmn_ns +:+ "endEvent") ∨
        e ∈ findall colliding_document "endEvent") ∧
       attrib e !! "id" = Some "e1".
Proof.
  apply (loaded_end_events_unite_both_conventions colliding_document).
  vm_compute. reflexivity.
Defined.

(** X7: the two flow tables of a loaded model go together: no flow id is
    twice in [sequence_flows], a flow id has a target exactly when it has a
    source, and there is a flow from [x] to [y] exactly when the last
    sequence flow element of some id has the source [x] and the target
    [y]. *)
Theorem loaded_flow_tables_agree (root : Element) (h : BPMNHandler) :
  parse_bpmn_xml (Some root) = Ok h →
  NoDup (sequence_flows h).*1 ∧
  (∀ sf_id, is_Some (odict_get (sequence_flows h) sf_id) ↔ is_Some (flow_sources h !! sf_id)) ∧
  (∀ x y, flow_edge h x y ↔
          ∃ sf_id e, last_with element_id sf_id (flow_elements root) = Some e ∧
                     attrib e !! "sourceRef" = Some x ∧ attrib e !! "targetRef" = Some y).
Proof.
  intros Hload.
  apply parse_bpmn_xml_tables in Hload as (_ & _ & _ & Htgt & Hsrc & Hnd & Hattrs).
  split_and!; [done| |].
  - intros sf_id. rewrite Htgt, Hsrc.
    destruct (last_with element_id sf_id (flow_elements root)) as [e|] eqn:Hl; simpl.
    + apply last_with_Some in Hl as [Hin _]. destruct (Hattrs e Hin) as (_ & ? & ?). done.
    + split; intros [? ?]; done.
  - intros x y. unfold flow_edge. split.
    + intros (sf_id & Hin & Hx). apply odict_get_elem_of in Hin; [|done].
      rewrite Htgt in Hin. rewrite Hsrc in Hx.
      destruct (last_with element_id sf_id (flow_elements root)) as [e|] eqn:Hl; [|done].
      simpl in *. by exists sf_id, e.
    + intros (sf_id & e & Hl & Hx & Hy). exists sf_id. split.
      * apply odict_get_elem_of; [done|]. by rewrite Htgt, Hl.
      * by rewrite Hsrc, Hl.
Qed.

(** At the example document. *)
Lemma loaded_flow_tables_agree_witness :
  NoDup (sequence_flows example_handler).*1 ∧
  (∀ sf_id, is_Some (odict_get (sequence_flows example_handler) sf_id) ↔
            is_Some (flow_sources example_handler !! sf_id)) ∧
  (∀ x y, flow_edge example_handler x y ↔
          ∃ sf_id e, last_with element_id sf_id (flow_elements example_document) = Some e ∧
                     attrib e !! "sourceRef" = Some x ∧ attrib e !! "targetRef" = Some y).
Proof.
  apply (loaded_flow_tables_agree example_document). vm_compute. reflexivity.
Defined.

(** ** The upstream traversal *)

(** X8: from an activity, the traversal returns the activity alone, and it
    does so on every model, also one whose flow tables do not go together:
    no flow is looked at. *)
Theorem upstream_of_activity_is_itself (h : BPMNHandler) (start : string) :
  start ∈ dom (activities h) →
  get_upstream_tasks_through_gateways h start = Ok {[start]}.
Proof.
  intros Hact. unfold get_upstream_tasks_through_gateways, search_bound. simpl.
  unfold search_step. simpl. rewrite decide_True by done. simpl.
  destruct (length (sequence_flows h)); simpl; f_equal; apply union_empty_r_L.
Qed.

(** At the task B of the example model. *)
Lemma upstream_of_activity_is_itself_witness :
  get_upstream_tasks_through_gateways example_handler "task_B" = Ok {["task_B"]}.
Proof.
  apply (upstream_of_activity_is_itself example_handler "task_B").
  apply elem_of_dom. vm_compute. by eexists.
Defined.

(** X9: from an element that is not an activity, the traversal returns what
    it returns from the sources of the flows into the element, taken
    together; in particular nothing when no flow leads into it. *)
Theorem upstream_of_gateway_is_that_of_its_sources (h : BPMNHandler) (start : string) :
  flow_sources_total h →
  start ∉ dom (activities h) →
  ∃ ts, get_upstream_tasks_through_gateways h start = Ok ts ∧
    (∀ t, t ∈ ts ↔
          ∃ x tsx, flow_edge h x start ∧
                   get_upstream_tasks_through_gateways h x = Ok tsx ∧ t ∈ tsx) ∧
    ((∀ x, ¬ flow_edge h x start) → ts = ∅).
Proof.
  intros Htotal Hna. destruct (get_upstream_tasks_Ok h start Htotal) as [ts Hts].
  exists ts. split; [done|].
  pose proof (get_upstream_tasks_spec h start ts Hts) as Hspec.
  assert (∀ t, t ∈ ts ↔
            ∃ x tsx, flow_edge h x start ∧
                     get_upstream_tasks_through_gateways h x = Ok tsx ∧ t ∈ tsx) as Hrec.
  { intros t. rewrite Hspec. split.
    - intros [Hact Hpath]. apply gateway_path_step in Hpath as (x & Hedge & Hpath); [|done..].
      destruct (get_upstream_tasks_Ok h x Htotal) as [tsx Hx]. exists x, tsx.
      split; [done|]. split; [done|]. by apply (get_upstream_tasks_spec h x tsx Hx).
    - intros (x & tsx & Hedge & Hx & Ht).
      apply (get_upstream_tasks_spec h x tsx Hx) in Ht as [Hact Hpath].
      split; [done|]. apply gateway_path_step; [done..|]. by exists x. }
  split; [done|]. intros Hnone. apply set_eq. intros t. rewrite Hrec. split.
  - intros (x & _ & Hedge & _). by destruct (Hnone x).
  - by intros ?%not_elem_of_empty.
Qed.

(** At the joining gateway, which the tasks A and B feed. *)
Lemma upstream_of_gateway_is_that_of_its_sources_witness :
  ∃ ts, get_upstream_tasks_through_gateways join_handler "join" = Ok ts ∧
    (∀ t, t ∈ ts ↔
          ∃ x tsx, flow_edge join_handler x "join" ∧
                   get_upstream_tasks_through_gateways join_handler x = Ok tsx ∧ t ∈ tsx) ∧
    ((∀ x, ¬ flow_edge join_handler x "join") → ts = ∅).
Proof.
  apply (upstream_of_gateway_is_that_of_its_sources join_handler "join").
  - intros sf_id tgt Hin. vm_compute in Hin.
    repeat (apply elem_of_cons in Hin as [[= -> ->]|Hin]; [by eexists|]).
    by apply elem_of_nil in Hin.
  - apply not_elem_of_dom. vm_compute. reflexivity.
Defined.

(** X10: the traversal does not depend on the order in which the dictionary
    of the sequence flows is iterated: two models with the same flows in
    another order, and the same tables otherwise, give the same result. *)
Theorem upstream_independent_of_flow_order (h h' : BPMNHandler) (start : string) :
  flow_sources_total h →
  sequence_flows h ≡ₚ sequence_flows h' →
  flow_sources h = flow_sources h' →
  activities h = activities h' →
  get_upstream_tasks_through_gateways h start
  = get_upstream_tasks_through_gateways h' start.
Proof.
  intros Htotal Hp Hs Ha.
  pose proof (flow_sources_total_perm h h' Hp Hs Htotal) as Htotal'.
  destruct (get_upstream_tasks_Ok h start Htotal) as [ts Hts].
  destruct (get_upstream_tasks_Ok h' start Htotal') as [ts' Hts'].
  rewrite Hts, Hts'. f_equal. apply set_eq. intros t.
  rewrite (get_upstream_tasks_spec h start ts Hts), (get_upstream_tasks_spec h' start ts' Hts').
  rewrite Ha. split; intros [Hact Hpath]; (split; [done|]).
  - by apply (gateway_path_perm h h').
  - by apply (gateway_path_perm h' h).
Qed.

(** At the example model and the same model with its flows reordered. *)
Lemma upstream_independent_of_flow_order_witness :
  get_upstream_tasks_through_gateways example_handler "end"
  = get_upstream_tasks_through_gateways reordered_handler "end".
Proof.
  apply (upstream_independent_of_flow_order example_handler reordered_handler "end").
  - apply (parse_bpmn_xml_total (Some example_document)). vm_compute. reflexivity.
  - simpl. symmetry.
    apply (Permutation_cons_append [("f0", "task_A"); ("f1", "task_B")] ("f2", "end")).
  - reflexivity.
  - reflexivity.
Defined.

(** ** The state of an emitted case *)

Example join_case :
  returned (compute_case_states join_computer) !! "c1"
  = Some (mkCaseState ["f1"; "f2"] [] [] []
            [mkEnabled "join" (Some 12); mkEnabled "join" (Some 12)]).
Proof. vm_compute. reflexivity. Qed.

(** X11: the enabled activities of an emitted case are the targets of the
    flows of its state that are model activities, one record for each such
    flow and in the order of [flows]; and no enabled gateway has the id of
    an enabled activity. *)
Theorem emitted_enabled_activities_are_activity_targets
    (self : StateComputer) (cs : gmap string CaseState) (self' : StateComputer)
    (cid : string) (st : CaseState) :
  compute_case_states self = (Ok cs, self') →
  cs !! cid = Some st →
  en_id <$> enabled_activities st
  = omap (activity_target (bpmn_handler self)) (cfs_flows st) ∧
  (∀ a gw, a ∈ enabled_activities st → gw ∈ enabled_gateways st → en_id a ≠ en_id gw).
Proof.
  intros Hrun Hst.
  destruct (compute_case_states_emitted_run _ _ _ _ _ Hrun Hst)
    as (g & s1 & s2 & fl & gws & Hg & Hframe & Hfl & Hgw & Hen & _ & Hflows & _ & _ & Hgws).
  destruct Hframe as [(_ & _ & _ & Hh & _) _].
  apply for_each_enabled_activity_run in Hen as [Hids _]. simpl in Hids.
  rewrite Hh, <- Hflows in Hids. split; [done|].
  intros a gw Ha Hgwin Heq.
  assert (en_id a ∈ dom (activities (bpmn_handler self))) as Hact.
  { assert (en_id a ∈ en_id <$> enabled_activities st) as Hin
      by (apply list_elem_of_fmap; by exists a).
    rewrite Hids in Hin. apply list_elem_of_omap in Hin as (flow_id & _ & Ht).
    unfold activity_target in Ht.
    destruct (odict_get _ flow_id) as [target_ref|]; [|done]. simpl in Ht.
    case_decide; [|done]. by injection Ht as <-. }
  unfold case_gateways in Hgw. rewrite Hfl in Hgw. simpl in Hgw.
  rewrite Hgws in Hgwin.
  apply (collect_enabled_gateways_spec _ _ _ _ _ _ Hgw) in Hgwin
    as (_ & _ & _ & _ & _ & Hna & _).
  apply Hna. by rewrite <- Heq.
Qed.

(** At the case that has only started, whose flow leads into the task A. *)
Lemma emitted_enabled_activities_are_activity_targets_witness :
  en_id <$> enabled_activities
              (mkCaseState ["f0"] [Some "task_A"]
                 [mkOngoing (Some "task_A") (Some 5) "ann" None]
                 [mkEnabled "task_A" (Some 5)] [])
  = omap (activity_target (bpmn_handler bootstrap_computer))
      (cfs_flows (mkCaseState ["f0"] [Some "task_A"]
                    [mkOngoing (Some "task_A") (Some 5) "ann" None]
                    [mkEnabled "task_A" (Some 5)] [])) ∧
  (∀ a gw,
     a ∈ enabled_activities
           (mkCaseState ["f0"] [Some "task_A"]
              [mkOngoing (Some "task_A") (Some 5) "ann" None]
              [mkEnabled "task_A" (Some 5)] []) →
     gw ∈ enabled_gateways
            (mkCaseState ["f0"] [Some "task_A"]
               [mkOngoing (Some "task_A") (Some 5) "ann" None]
               [mkEnabled "task_A" (Some 5)] []) →
     en_id a ≠ en_id gw).
Proof.
  apply (emitted_enabled_activities_are_activity_targets bootstrap_computer
           (returned (compute_case_states bootstrap_computer))
           (compute_case_states bootstrap_computer).2 "c1").
  - vm_compute. reflexivity.
  - vm_compute. reflexivity.
Defined.

(** X12: every enabled gateway of an emitted case is the target of a flow
    of the state of the case; it is neither a model activity nor an end
    event, and it is enabled since the end time of a finished event of the
    case. *)
Theorem emitted_enabled_gateways_are_sound
    (self : StateComputer) (cs : gmap string CaseState) (self' : StateComputer)
    (cid : string) (st : CaseState) (gw : Enabled) :
  compute_case_states self = (Ok cs, self') →
  cs !! cid = Some st →
  gw ∈ enabled_gateways st →
  ∃ flow_id e t,
    flow_id ∈ cfs_flows st ∧
    odict_get (sequence_flows (bpmn_handler self)) flow_id = Some (en_id gw) ∧
    (en_id gw ∉ dom (activities (bpmn_handler self))) ∧
    is_end_event (bpmn_handler self) (en_id gw) = false ∧
    en_enabled_time gw = Some t ∧
    e ∈ rows_of cid (event_log_df self) ∧ end_time e = Some t.
Proof.
  intros Hrun Hst Hin.
  destruct (compute_case_states_emitted_run _ _ _ _ _ Hrun Hst)
    as (g & s1 & s2 & fl & gws & Hg & _ & Hfl & Hgw & _ & Hex & Hflows & _ & _ & Hgws).
  unfold case_gateways in Hgw. rewrite Hfl in Hgw. simpl in Hgw.
  pose proof Hin as Hin'. rewrite Hgws in Hin'.
  apply (collect_enabled_gateways_spec _ _ _ _ _ _ Hgw) in Hin'
    as (flow_id & ts & Hflow & Hget & _ & Hna & _ & _ & Hdef & Htime).
  destruct (en_enabled_time gw) as [t|] eqn:Et; [|done].
  apply compute_gateway_enabled_time_Some in Htime as (e & [_ He]%list_elem_of_filter & Hend).
  exists flow_id, e, t. split_and!; try done.
  - by rewrite Hflows.
  - destruct (is_end_event _ (en_id gw)) eqn:Hend'; [|done].
    assert (existsb (λ gateway, is_end_event (bpmn_handler self) (en_id gateway)) gws = true)
      as Hex'; [|congruence].
    apply existsb_exists. exists gw. split; [|done]. apply list_elem_of_In. by rewrite <- Hgws.
  - apply elem_of_groupby in Hg as [_ ->]. by rewrite <- (sort_values_perm _).
Qed.

(** At the joining gateway, enabled since the end of B. *)
Lemma emitted_enabled_gateways_are_sound_witness :
  ∃ flow_id e t,
    flow_id ∈ cfs_flows (mkCaseState ["f1"; "f2"] [] [] []
                           [mkEnabled "join" (Some 12); mkEnabled "join" (Some 12)]) ∧
    odict_get (sequence_flows (bpmn_handler join_computer)) flow_id
    = Some (en_id (mkEnabled "join" (Some 12))) ∧
    (en_id (mkEnabled "join" (Some 12)) ∉ dom (activities (bpmn_handler join_computer))) ∧
    is_end_event (bpmn_handler join_computer) (en_id (mkEnabled "join" (Some 12))) = false ∧
    en_enabled_time (mkEnabled "join" (Some 12)) = Some t ∧
    e ∈ rows_of "c1" (event_log_df join_computer) ∧ end_time e = Some t.
Proof.
  apply (emitted_enabled_gateways_are_sound join_computer
           (returned (compute_case_states join_computer))
           (compute_case_states join_computer).2 "c1"
           (mkCaseState ["f1"; "f2"] [] [] []
              [mkEnabled "join" (Some 12); mkEnabled "join" (Some 12)])).
  - vm_compute. reflexivity.
  - vm_compute. reflexivity.
  - simpl. left.
Defined.

(** X13: the ongoing activities of an emitted case are one record for each
    row of the case without end time, in the order of their start times
    (rows without start time last); a record has the start time and the
    resource of its row, and an enabled time only when the row has a start
    time and its activity name resolves to a model id: then it is the
    enabled time of the row. *)
Theorem emitted_ongoing_records_follow_start_time
    (self : StateComputer) (cs : gmap string CaseState) (self' : StateComputer)
    (cid : string) (st : CaseState) :
  compute_case_states self = (Ok cs, self') →
  cs !! cid = Some st →
  og_row <$> ongoing_activities st
  ≡ₚ event_row <$> filter (λ e, end_time e = None) (rows_of cid (event_log_df self)) ∧
  StronglySorted og_starts_no_later (ongoing_activities st) ∧
  ∀ o, o ∈ ongoing_activities st →
    ∃ e, e ∈ rows_of cid (event_log_df self) ∧ end_time e = None ∧
         og_row o = event_row e ∧
         og_id o = get_task_id_by_name (bpmn_handler self) (activity e) ∧
         (og_enabled_time o = None ∨
          (og_enabled_time o = enabled_time e ∧ start_time e ≠ None ∧ og_id o ≠ None)).
Proof.
  intros Hrun Hst.
  destruct (compute_case_states_emitted_run _ _ _ _ _ Hrun Hst)
    as (g & s1 & s2 & fl & gws & Hg & Hframe & _ & _ & _ & _ & _ & _ & Hon & _).
  destruct Hframe as [(_ & _ & _ & Hh & _) _].
  apply elem_of_groupby in Hg as [_ ->]. fold (rows_of cid (event_log_df self)) in Hon.
  rewrite Hon. unfold case_ongoing. rewrite Hh. split_and!.
  - rewrite og_row_collect_ongoing. by rewrite sort_values_perm.
  - unfold collect_ongoing.
    apply (StronglySorted_fmap _ starts_no_later); [done|].
    apply StronglySorted_filter, sort_values_sorted.
  - intros o (e & -> & [Hend He]%list_elem_of_filter)%list_elem_of_fmap.
    rewrite sort_values_perm in He. exists e. split_and!; try done.
    destruct (og_enabled_time (ongoing_record _ _ e)) eqn:E; [|by left].
    right. rewrite <- E.
    destruct (ongoing_record_enabled (bpmn_handler self) (concurrency_oracle s1) e)
      as (? & ? & _ & ?); [congruence|done].
Qed.

(** At the case c1 of the example log, in which B is running. *)
Lemma emitted_ongoing_records_follow_start_time_witness :
  og_row <$> ongoing_activities
               (mkCaseState ["f2"] [Some "task_B"]
                  [mkOngoing (Some "task_B") (Some 12) "ann" None] [] [])
  ≡ₚ event_row <$> filter (λ e, end_time e = None)
                     (rows_of "c1" (event_log_df example_computer)) ∧
  StronglySorted og_starts_no_later
    (ongoing_activities
       (mkCaseState ["f2"] [Some "task_B"]
          [mkOngoing (Some "task_B") (Some 12) "ann" None] [] [])) ∧
  ∀ o, o ∈ ongoing_activities
             (mkCaseState ["f2"] [Some "task_B"]
                [mkOngoing (Some "task_B") (Some 12) "ann" None] [] []) →
    ∃ e, e ∈ rows_of "c1" (event_log_df example_computer) ∧ end_time e = None ∧
         og_row o = event_row e ∧
         og_id o = get_task_id_by_name (bpmn_handler example_computer) (activity e) ∧
         (og_enabled_time o = None ∨
          (og_enabled_time o = enabled_time e ∧ start_time e ≠ None ∧ og_id o ≠ None)).
Proof.
  apply (emitted_ongoing_records_follow_start_time example_computer
           (returned (compute_case_states example_computer))
           (compute_case_states example_computer).2 "c1").
  - vm_compute. reflexivity.
  - vm_compute. reflexivity.
Defined.

(** X14: a case none of whose events is finished is always emitted, with no
    enabled gateway, and each of its enabled activities is enabled since
    the earliest start time of the case (no time when no row of the case
    has a start time). *)
Theorem case_without_finished_events_bootstraps
    (self : StateComputer) (cs : gmap string CaseState) (self' : StateComputer)
    (cid : string) (group : list Event) :
  compute_case_states self = (Ok cs, self') →
  (cid, group) ∈ groupby (event_log_df self) →
  (∀ e, e ∈ group → end_time e = None) →
  ∃ st t, cs !! cid = Some st ∧ enabled_gateways st = [] ∧
          is_earliest_start group t ∧
          ∀ a, a ∈ enabled_activities st → en_enabled_time a = t.
Proof.
  intros Hrun Hg Hall.
  destruct (proj2 (compute_case_states_cases _ _ _ Hrun) cid group Hg)
    as (s1 & s2 & r & Hframe & Hcase & Hr).
  apply compute_case_run in Hcase as (fl & en & gws & Hfl & Hen & Hgw & ->).
  assert (filter (λ e, end_time e ≠ None) (sort_values group) = []) as Hfin.
  { apply filter_nil_iff. intros e He Hne. rewrite sort_values_perm in He. by apply Hne, Hall. }
  rewrite Hfin in Hen.
  assert (gws = []) as ->.
  { unfold case_gateways in Hgw. rewrite Hfl in Hgw. simpl in Hgw. rewrite Hfin in Hgw.
    destruct gws as [|gw gws]; [done|]. exfalso.
    assert (gw ∈ gw :: gws) as Hin by left.
    apply (collect_enabled_gateways_spec _ _ _ _ _ _ Hgw) in Hin
      as (_ & _ & _ & _ & _ & _ & _ & _ & Hdef & Htime).
    destruct (en_enabled_time gw) as [t|]; [|done].
    apply compute_gateway_enabled_time_Some in Htime as (e & He & _).
    by apply elem_of_nil in He. }
  simpl in Hr.
  destruct (py_min_sort_values group (groupby_nonempty _ _ _ Hg)) as (t & Hmin & Hearliest).
  eexists _, t. split; [exact Hr|]. simpl. split; [done|]. split; [done|].
  intros a Ha. apply for_each_enabled_activity_run in Hen as [_ Hboot].
  destruct (Hboot eq_refl) as [_ Htimes].
  destruct (Htimes a Ha) as [Hnil|Ht]; [by apply elem_of_nil in Hnil|]. congruence.
Qed.

(** At the case that has only started. *)
Lemma case_without_finished_events_bootstraps_witness :
  ∃ st t, returned (compute_case_states bootstrap_computer) !! "c1" = Some st ∧
          enabled_gateways st = [] ∧
          is_earliest_start [mkEvent "c1" "A" "ann" (Some 5) None None] t ∧
          ∀ a, a ∈ enabled_activities st → en_enabled_time a = t.
Proof.
  apply (case_without_finished_events_bootstraps bootstrap_computer
           (returned (compute_case_states bootstrap_computer))
           (compute_case_states bootstrap_computer).2 "c1").
  - vm_compute. reflexivity.
  - vm_compute. left.
  - intros e ->%list_elem_of_singleton. reflexivity.
Defined.

(** X15: a case none of whose events is running, and any case whose matched
    marking is not a node of the reachability graph, keeps the marking of
    the trace matcher as it is; in the first case the state has no
    activities. *)
Theorem case_keeps_matched_marking_without_correction
    (self : StateComputer) (cs : gmap string CaseState) (self' : StateComputer)
    (cid : string) (st : CaseState) :
  compute_case_states self = (Ok cs, self') →
  cs !! cid = Some st →
  ((∀ e, e ∈ rows_of cid (event_log_df self) → end_time e ≠ None) →
   cfs_flows st
   = elements (matched_marking (n_gram_index self)
                 (sort_values (rows_of cid (event_log_df self)))) ∧
   cfs_activities st = [] ∧ ongoing_activities st = []) ∧
  (marking_to_key (reachability_graph self)
   !! sorted (elements (matched_marking (n_gram_index self)
                          (sort_values (rows_of cid (event_log_df self))))) = None →
   cfs_flows st
   = elements (matched_marking (n_gram_index self)
                 (sort_values (rows_of cid (event_log_df self))))).
Proof.
  intros Hrun Hst.
  destruct (compute_case_states_emitted_run _ _ _ _ _ Hrun Hst)
    as (g & s1 & s2 & fl & gws & Hg & Hframe & Hfl & _ & _ & _ & Hflows & Hact & Hon & _).
  apply elem_of_groupby in Hg as [_ ->]. fold (rows_of cid (event_log_df self)) in *.
  split.
  - intros Hall.
    assert (∀ h o, collect_ongoing h o (sort_values (rows_of cid (event_log_df self))) = [])
      as Hnone.
    { intros h o. unfold collect_ongoing. rewrite filter_nil_iff; [done|].
      intros e He Hend. rewrite sort_values_perm in He. by apply (Hall e). }
    unfold case_flows, case_ongoing in Hfl. rewrite Hnone in Hfl.
    unfold correct_flows in Hfl.
    assert (fl = matched_marking (n_gram_index self)
                   (sort_values (rows_of cid (event_log_df self)))) as ->.
    { destruct (marking_to_key _ !! _); simpl in Hfl; congruence. }
    split; [done|]. unfold case_ongoing in Hact, Hon. rewrite Hnone in Hact, Hon.
    split; [|done]. rewrite Hact. unfold ongoing_ids. simpl. apply elements_empty.
  - intros Hnode. unfold case_flows, correct_flows in Hfl. rewrite Hnode in Hfl.
    congruence.
Qed.

(** At the case of the joining model, in which A and B are finished. *)
Lemma case_keeps_matched_marking_without_correction_witness :
  cfs_flows (mkCaseState ["f1"; "f2"] [] [] []
               [mkEnabled "join" (Some 12); mkEnabled "join" (Some 12)])
  = elements (matched_marking (n_gram_index join_computer)
                (sort_values (rows_of "c1" (event_log_df join_computer)))) ∧
  cfs_activities (mkCaseState ["f1"; "f2"] [] [] []
                    [mkEnabled "join" (Some 12); mkEnabled "join" (Some 12)]) = [] ∧
  ongoing_activities (mkCaseState ["f1"; "f2"] [] [] []
                        [mkEnabled "join" (Some 12); mkEnabled "join" (Some 12)]) = [].
Proof.
  apply (case_keeps_matched_marking_without_correction join_computer
           (returned (compute_case_states join_computer))
           (compute_case_states join_computer).2 "c1").
  - vm_compute. reflexivity.
  - vm_compute. reflexivity.
  - intros e He. vm_compute in He.
    apply elem_of_cons in He as [->|He]; [done|].
    apply list_elem_of_singleton in He as ->. done.
Defined.

(** ** The oracle's table *)

(** X16: a name whose entry in the table of the oracle is not the same
    after a run, whether the run returns or raises, had no entry before, has
    the empty entry after, and is the name of a model activity. *)
Theorem registered_names_are_model_activity_names (self : StateComputer) (name : string) :
  concurrency (concurrency_oracle (compute_case_states self).2) !! name
  ≠ concurrency (concurrency_oracle self) !! name →
  concurrency (concurrency_oracle self) !! name = None ∧
  concurrency (concurrency_oracle (compute_case_states self).2) !! name = Some ∅ ∧
  ∃ t, activities (bpmn_handler self) !! t = Some name.
Proof.
  intros Hne. destruct (compute_case_states self) as [r self'] eqn:Hrun. simpl in *.
  destruct (keeps_registration_compute_case_states _ _ _ Hrun) as [[_ Hext] Hreg].
  destruct (Hext name) as [?|[? ?]]; [done|]. split; [done|]. split; [done|].
  by apply Hreg.
Qed.

(** At the name B, which the run on the example log registers. *)
Lemma registered_names_are_model_activity_names_witness :
  concurrency (concurrency_oracle example_computer) !! "B" = None ∧
  concurrency (concurrency_oracle (compute_case_states example_computer).2) !! "B" = Some ∅ ∧
  ∃ t, activities (bpmn_handler example_computer) !! t = Some "B".
Proof.
  apply (registered_names_are_model_activity_names example_computer "B").
  vm_compute. discriminate.
Defined.

(** X17: when the oracle has an entry for the name of every model activity,
    a run changes nothing at all in the state computer, whether it returns
    or raises. *)
Theorem run_changes_nothing_when_oracle_knows_model (self : StateComputer) :
  oracle_knows_model self → (compute_case_states self).2 = self.
Proof.
  intros Hknows. destruct (compute_case_states self) as [r self'] eqn:Hrun. simpl.
  destruct (keeps_registration_compute_case_states _ _ _ Hrun) as [[Hsame Hext] Hreg].
  apply StateComputer_eq; [done|]. apply map_eq. intros name.
  destruct (decide (concurrency (concurrency_oracle self') !! name
                    = concurrency (concurrency_oracle self) !! name)) as [|Hne]; [done|].
  exfalso. destruct (Hreg name Hne) as [t Ht].
  apply Hknows, elem_of_dom in Ht as [x Hx].
  destruct (Hext name) as [?|[? ?]]; congruence.
Qed.

(** At the example computer with an oracle that has entries for A and B. *)
Lemma run_changes_nothing_when_oracle_knows_model_witness :
  (compute_case_states informed_computer).2 = informed_computer.
Proof.
  apply (run_changes_nothing_when_oracle_knows_model informed_computer).
  change (map_Forall
            (λ _ name, name ∈ dom (concurrency (concurrency_oracle informed_computer)))
            (activities (bpmn_handler informed_computer))).
  apply (bool_decide_unpack _). vm_compute. exact I.
Defined.

(** ** The cases among each other *)

(** X18: whether a case is emitted, and the flows, the activities, the
    enabled gateways and the ids of the enabled and of the ongoing
    activities of its state depend on the rows of the case only: they are
    the same for every log with these rows and for every oracle. *)
Theorem case_state_depends_on_its_rows_only
    (self1 self2 : StateComputer) (cs1 cs2 : gmap string CaseState)
    (self1' self2' : StateComputer) (cid : string) :
  n_gram_index self1 = n_gram_index self2 →
  reachability_graph self1 = reachability_graph self2 →
  bpmn_handler self1 = bpmn_handler self2 →
  rows_of cid (event_log_df self1) = rows_of cid (event_log_df self2) →
  compute_case_states self1 = (Ok cs1, self1') →
  compute_case_states self2 = (Ok cs2, self2') →
  match cs1 !! cid, cs2 !! cid with
  | Some st1, Some st2 =>
      cfs_flows st1 = cfs_flows st2 ∧
      cfs_activities st1 = cfs_activities st2 ∧
      enabled_gateways st1 = enabled_gateways st2 ∧
      en_id <$> enabled_activities st1 = en_id <$> enabled_activities st2 ∧
      og_id <$> ongoing_activities st1 = og_id <$> ongoing_activities st2 ∧
      og_row <$> ongoing_activities st1 = og_row <$> ongoing_activities st2
  | None, None => True
  | _, _ => False
  end.
Proof.
  intros Hn Hr Hh Hrows Hrun1 Hrun2.
  destruct (decide (cid ∈ case_id <$> event_log_df self1)) as [Hin1|Hout1].
  - assert (cid ∈ case_id <$> event_log_df self2) as Hin2.
    { apply list_elem_of_fmap in Hin1 as (e & -> & He).
      assert (e ∈ rows_of (case_id e) (event_log_df self2)) as [_ ?]%list_elem_of_filter.
      { rewrite <- Hrows. by apply list_elem_of_filter. }
      apply list_elem_of_fmap. by exists e. }
    assert ((cid, rows_of cid (event_log_df self1)) ∈ groupby (event_log_df self1)) as Hg1
      by (by apply elem_of_groupby).
    assert ((cid, rows_of cid (event_log_df self1)) ∈ groupby (event_log_df self2)) as Hg2
      by (rewrite Hrows; by apply elem_of_groupby).
    set (g := sort_values (rows_of cid (event_log_df self1))) in *.
    destruct (proj2 (compute_case_states_cases _ _ _ Hrun1) _ _ Hg1)
      as (s1 & s1' & r1 & Hf1 & Hc1 & Hr1).
    destruct (proj2 (compute_case_states_cases _ _ _ Hrun2) _ _ Hg2)
      as (s2 & s2' & r2 & Hf2 & Hc2 & Hr2).
    fold g in Hc1, Hc2.
    destruct Hf1 as [(Hn1 & Hr1' & _ & Hh1 & _) _], Hf2 as [(Hn2 & Hr2' & _ & Hh2 & _) _].
    assert (n_gram_index s1 = n_gram_index s2) as Hn' by congruence.
    assert (reachability_graph s1 = reachability_graph s2) as Hr' by congruence.
    assert (bpmn_handler s1 = bpmn_handler s2) as Hh' by congruence.
    apply compute_case_run in Hc1 as (fl1 & en1 & gws1 & Hfl1 & Hen1 & Hgw1 & ->).
    apply compute_case_run in Hc2 as (fl2 & en2 & gws2 & Hfl2 & Hen2 & Hgw2 & ->).
    rewrite (case_flows_ext s1 s2) in Hfl1 by done.
    rewrite (case_gateways_ext s1 s2) in Hgw1 by done.
    assert (fl1 = fl2) as -> by congruence. assert (gws1 = gws2) as -> by congruence.
    apply for_each_enabled_activity_run in Hen1 as [Hids1 _].
    apply for_each_enabled_activity_run in Hen2 as [Hids2 _].
    rewrite Hh' in Hr1. rewrite Hr1, Hr2. clear Hr1 Hr2.
    destruct (existsb _ gws2); simpl; [exact I|]. split_and!; try done.
    + by rewrite (ongoing_ids_ext s1 s2).
    + rewrite Hids1, Hids2. by rewrite Hh'.
    + unfold case_ongoing. rewrite Hh'. apply collect_ongoing_ids.
    + unfold case_ongoing. by rewrite !og_row_collect_ongoing.
  - assert (cid ∉ case_id <$> event_log_df self2) as Hout2.
    { intros (e & -> & He)%list_elem_of_fmap. apply Hout1.
      assert (e ∈ rows_of (case_id e) (event_log_df self1)) as [_ ?]%list_elem_of_filter.
      { rewrite Hrows. by apply list_elem_of_filter. }
      apply list_elem_of_fmap. by exists e. }
    assert (∀ df, cid ∉ case_id <$> df → cid ∉ (groupby df).*1) as Hkeys.
    { intros df Hout Hin. apply Hout.
      apply list_elem_of_fmap in Hin as ([k g] & -> & Hin).
      by apply elem_of_groupby in Hin as [? _]. }
    rewrite (proj1 (compute_case_states_cases _ _ _ Hrun1) cid (Hkeys _ Hout1)).
    rewrite (proj1 (compute_case_states_cases _ _ _ Hrun2) cid (Hkeys _ Hout2)).
    done.
Qed.

(** At the case c1 of the example log and of a log that has it among other
    rows, with an oracle that knows nothing. *)
Lemma case_state_depends_on_its_rows_only_witness :
  match returned (compute_case_states example_computer) !! "c1",
        returned (compute_case_states lone_case_computer) !! "c1" with
  | Some st1, Some st2 =>
      cfs_flows st1 = cfs_flows st2 ∧
      cfs_activities st1 = cfs_activities st2 ∧
      enabled_gateways st1 = enabled_gateways st2 ∧
      en_id <$> enabled_activities st1 = en_id <$> enabled_activities st2 ∧
      og_id <$> ongoing_activities st1 = og_id <$> ongoing_activities st2 ∧
      og_row <$> ongoing_activities st1 = og_row <$> ongoing_activities st2
  | None, None => True
  | _, _ => False
  end.
Proof.
  apply (case_state_depends_on_its_rows_only example_computer lone_case_computer
           (returned (compute_case_states example_computer))
           (returned (compute_case_states lone_case_computer))
           (compute_case_states example_computer).2
           (compute_case_states lone_case_computer).2 "c1").
  - reflexivity.
  - reflexivity.
  - reflexivity.
  - vm_compute. reflexivity.
  - vm_compute. reflexivity.
  - vm_compute. reflexivity.
Defined.

(** ** The filters on event logs *)

(** On the example log: the cut-off at 10 removes the event of c3 that
    ended at 9, and the horizon 2 then removes what is left of c3, which now
    starts at 14; the window from 2 to 20 removes c1, which starts at 1, and
    keeps c3 with its running event. *)
Example preprocess_example_frame :
  preprocess_alog example_frame (Some 10) (Some 2)
  = Ok (mkDataFrame log_columns
          [ mkEvent "c1" "A" "ann" (Some 1) (Some 10) (Some 0);
            mkEvent "c2" "A" "bob" (Some 2) (Some 11) (Some 0);
            mkEvent "c1" "B" "ann" (Some 12) None (Some 10);
            mkEvent "c2" "B" "bob" (Some 13) (Some 20) (Some 11) ]) ∧
  discard_partial_cases example_frame 2 20
  = Ok (mkDataFrame log_columns
          [ mkEvent "c2" "A" "bob" (Some 2) (Some 11) (Some 0);
            mkEvent "c2" "B" "bob" (Some 13) (Some 20) (Some 11);
            mkEvent "c3" "A" "eve" (Some 3) (Some 9) (Some 0);
            mkEvent "c3" "X" "eve" (Some 14) None None ]).
Proof. split; vm_compute; reflexivity. Qed.

(** X19: the horizon removes whole cases and nothing else: a case stays,
    with all its rows and in their order, when none of its rows has a start
    time or one of them starts by the horizon, and it is removed with all
    its rows otherwise; the columns stay as they are. *)
Theorem preprocess_glog_removes_late_cases (df : DataFrame) (horizon : Z) (out : DataFrame) :
  "start_time" ∈ columns df →
  preprocess_glog df (Some horizon) = Ok out →
  columns out = columns df ∧
  rows out `sublist_of` rows df ∧
  ∀ cid,
    (case_starts_by horizon (rows_of cid (rows df)) →
     rows_of cid (rows out) = rows_of cid (rows df)) ∧
    (¬ case_starts_by horizon (rows_of cid (rows df)) → rows_of cid (rows out) = []).
Proof.
  intros Hst Hrun.
  apply preprocess_glog_Ok in Hrun as [Hcols [[[?|?] _]|(hz & [= <-] & _ & _ & Hrows)]];
    [done..|].
  split; [done|]. rewrite Hrows. split; [apply sublist_filter|].
  intros cid. rewrite horizon_rows.
  destruct (case_filter_rows
              (λ g, time_lt (Some horizon) (series_min (start_time <$> g)) = false)
              (rows df) cid) as [Hkeep Hdrop].
  split; intros Hcase.
  - apply Hkeep. by apply min_start_by_horizon.
  - apply Hdrop. by rewrite min_start_by_horizon.
Qed.

(** At the example log with the horizon 2, which removes the case c3. *)
Lemma preprocess_glog_removes_late_cases_witness :
  columns (mkDataFrame log_columns
             [ mkEvent "c1" "A" "ann" (Some 1) (Some 10) (Some 0);
               mkEvent "c2" "A" "bob" (Some 2) (Some 11) (Some 0);
               mkEvent "c1" "B" "ann" (Some 12) None (Some 10);
               mkEvent "c2" "B" "bob" (Some 13) (Some 20) (Some 11) ])
  = columns example_frame ∧
  rows (mkDataFrame log_columns
          [ mkEvent "c1" "A" "ann" (Some 1) (Some 10) (Some 0);
            mkEvent "c2" "A" "bob" (Some 2) (Some 11) (Some 0);
            mkEvent "c1" "B" "ann" (Some 12) None (Some 10);
            mkEvent "c2" "B" "bob" (Some 13) (Some 20) (Some 11) ])
  `sublist_of` rows example_frame ∧
  ∀ cid,
    (case_starts_by 2 (rows_of cid (rows example_frame)) →
     rows_of cid (rows (mkDataFrame log_columns
                          [ mkEvent "c1" "A" "ann" (Some 1) (Some 10) (Some 0);
                            mkEvent "c2" "A" "bob" (Some 2) (Some 11) (Some 0);
                            mkEvent "c1" "B" "ann" (Some 12) None (Some 10);
                            mkEvent "c2" "B" "bob" (Some 13) (Some 20) (Some 11) ]))
     = rows_of cid (rows example_frame)) ∧
    (¬ case_starts_by 2 (rows_of cid (rows example_frame)) →
     rows_of cid (rows (mkDataFrame log_columns
                          [ mkEvent "c1" "A" "ann" (Some 1) (Some 10) (Some 0);
                            mkEvent "c2" "A" "bob" (Some 2) (Some 11) (Some 0);
                            mkEvent "c1" "B" "ann" (Some 12) None (Some 10);
                            mkEvent "c2" "B" "bob" (Some 13) (Some 20) (Some 11) ]))
     = []).
Proof.
  apply (preprocess_glog_removes_late_cases example_frame 2).
  - apply (bool_decide_unpack _). vm_compute. exact I.
  - vm_compute. reflexivity.
Defined.

(** X20: after [preprocess_alog], [preprocess_glog] with the same horizon
    changes nothing; in particular (without cut-off, where the two are the
    same function) [preprocess_glog] changes nothing when it is applied a
    second time. *)
Theorem preprocess_glog_after_preprocess_alog_changes_nothing
    (df : DataFrame) (start horizon : option Z) (out : DataFrame) :
  preprocess_alog df start horizon = Ok out →
  preprocess_glog out horizon = Ok out ∧
  preprocess_alog df None horizon = preprocess_glog df horizon.
Proof.
  intros Hrun. split; [|done]. rewrite preprocess_alog_steps in Hrun.
  by eapply preprocess_glog_again.
Qed.

(** At the example log with the cut-off 10 and the horizon 2. *)
Lemma preprocess_glog_after_preprocess_alog_changes_nothing_witness :
  preprocess_glog
    (mkDataFrame log_columns
       [ mkEvent "c1" "A" "ann" (Some 1) (Some 10) (Some 0);
         mkEvent "c2" "A" "bob" (Some 2) (Some 11) (Some 0);
         mkEvent "c1" "B" "ann" (Some 12) None (Some 10);
         mkEvent "c2" "B" "bob" (Some 13) (Some 20) (Some 11) ]) (Some 2)
  = Ok (mkDataFrame log_columns
          [ mkEvent "c1" "A" "ann" (Some 1) (Some 10) (Some 0);
            mkEvent "c2" "A" "bob" (Some 2) (Some 11) (Some 0);
            mkEvent "c1" "B" "ann" (Some 12) None (Some 10);
            mkEvent "c2" "B" "bob" (Some 13) (Some 20) (Some 11) ]) ∧
  preprocess_alog example_frame None (Some 2) = preprocess_glog example_frame (Some 2).
Proof.
  apply (preprocess_glog_after_preprocess_alog_changes_nothing example_frame (Some 10)).
  vm_compute. reflexivity.
Defined.

(** X21: [preprocess_alog] with a cut-off and a horizon returns no row that
    ended before the cut-off, and it keeps every row that did not end
    before the cut-off and started by the horizon, running rows among them;
    it raises only for a frame without the column of the case ids. *)
Theorem preprocess_alog_cuts_and_keeps
    (df : DataFrame) (start horizon : Z) :
  "end_time" ∈ columns df → "start_time" ∈ columns df →
  match preprocess_alog df (Some start) (Some horizon) with
  | Ok out =>
      (∀ e, e ∈ rows out → e ∈ rows df ∧ ∀ t, end_time e = Some t → start ≤ t) ∧
      (∀ e t, e ∈ rows df → (end_time e = None ∨ ∃ t', end_time e = Some t' ∧ start ≤ t') →
              start_time e = Some t → t ≤ horizon → e ∈ rows out)
  | Raise e => e = KeyError ∧ "case_id" ∉ columns df
  end.
Proof.
  intros Hend Hst. rewrite preprocess_alog_steps.
  destruct (decide ("end_time" ∈ columns df)) as [_|?]; [|done].
  set (cut := filter (λ e, time_lt (end_time e) (Some start) = false) (rows df)).
  assert (∀ e, e ∈ cut ↔ e ∈ rows df ∧ time_lt (end_time e) (Some start) = false) as Hcut.
  { intros e. unfold cut. rewrite list_elem_of_filter. tauto. }
  destruct (preprocess_glog (mkDataFrame (columns df) cut) (Some horizon))
    as [out|e] eqn:Hrun.
  - apply preprocess_glog_Ok in Hrun
      as [_ [[[?|Hno] _]|(hz & [= <-] & _ & _ & Hrows)]]; [done|by destruct Hno|].
    simpl in Hrows. rewrite Hrows. split.
    + intros e [_ [Hin Hlt]%Hcut]%list_elem_of_filter. split; [done|].
      intros t Ht. rewrite Ht in Hlt. simpl in Hlt. by apply Z.ltb_ge in Hlt.
    + intros e t Hin Hended Hstart Hle.
      assert (e ∈ cut) as Hincut.
      { apply Hcut. split; [done|]. destruct Hended as [->|(t' & -> & ?)]; [done|].
        simpl. by apply Z.ltb_ge. }
      apply list_elem_of_filter. split; [|done].
      apply (min_start_by_horizon horizon (rows_of (case_id e) cut)).
      right. exists e, t. split; [|done]. by apply list_elem_of_filter.
  - unfold preprocess_glog, column in Hrun. simpl in Hrun.
    destruct (decide ("start_time" ∈ columns df)); [|done].
    destruct (decide ("case_id" ∈ columns df)); simpl in Hrun; [done|].
    by injection Hrun as <-.
Qed.

(** At the example log with the cut-off 10 and the horizon 2. *)
Lemma preprocess_alog_cuts_and_keeps_witness :
  match preprocess_alog example_frame (Some 10) (Some 2) with
  | Ok out =>
      (∀ e, e ∈ rows out → e ∈ rows example_frame ∧ ∀ t, end_time e = Some t → 10 ≤ t) ∧
      (∀ e t, e ∈ rows example_frame →
              (end_time e = None ∨ ∃ t', end_time e = Some t' ∧ 10 ≤ t') →
              start_time e = Some t → t ≤ 2 → e ∈ rows out)
  | Raise e => e = KeyError ∧ "case_id" ∉ columns example_frame
  end.
Proof.
  apply (preprocess_alog_cuts_and_keeps example_frame 10 2).
  - apply (bool_decide_unpack _). vm_compute. exact I.
  - apply (bool_decide_unpack _). vm_compute. exact I.
Defined.

(** X22: [discard_partial_cases] on a frame with columns keeps whole cases
    and nothing else: a case stays, with all its rows and in their order,
    when it has a start time and an end time, none of its start times is
    before the start of the window and none of its end times after its end;
    it is removed with all its rows otherwise. *)
Theorem discard_partial_cases_keeps_cases_within
    (df : DataFrame) (start_dt horizon_dt : Z) (out : DataFrame) :
  columns df ≠ ∅ →
  discard_partial_cases df start_dt horizon_dt = Ok out →
  columns out = columns df ∧
  rows out `sublist_of` rows df ∧
  ∀ cid,
    (case_within start_dt horizon_dt (rows_of cid (rows df)) →
     rows_of cid (rows out) = rows_of cid (rows df)) ∧
    (¬ case_within start_dt horizon_dt (rows_of cid (rows df)) →
     rows_of cid (rows out) = []).
Proof.
  intros Hcols Hrun.
  apply discard_partial_cases_Ok in Hrun
    as [Hc [[[Hnil|?] ->]|(_ & _ & _ & _ & Hrows)]]; [|done|].
  - split; [done|]. split; [done|]. intros cid. rewrite Hnil. split; [done|]. done.
  - split; [done|]. rewrite Hrows. split; [apply sublist_filter|]. intros cid.
    apply (case_filter_rows (case_within start_dt horizon_dt)).
Qed.

(** At the example log with the window from 2 to 20. *)
Lemma discard_partial_cases_keeps_cases_within_witness :
  columns (mkDataFrame log_columns
             [ mkEvent "c2" "A" "bob" (Some 2) (Some 11) (Some 0);
               mkEvent "c2" "B" "bob" (Some 13) (Some 20) (Some 11);
               mkEvent "c3" "A" "eve" (Some 3) (Some 9) (Some 0);
               mkEvent "c3" "X" "eve" (Some 14) None None ])
  = columns example_frame ∧
  rows (mkDataFrame log_columns
          [ mkEvent "c2" "A" "bob" (Some 2) (Some 11) (Some 0);
            mkEvent "c2" "B" "bob" (Some 13) (Some 20) (Some 11);
            mkEvent "c3" "A" "eve" (Some 3) (Some 9) (Some 0);
            mkEvent "c3" "X" "eve" (Some 14) None None ])
  `sublist_of` rows example_frame ∧
  ∀ cid,
    (case_within 2 20 (rows_of cid (rows example_frame)) →
     rows_of cid (rows (mkDataFrame log_columns
                          [ mkEvent "c2" "A" "bob" (Some 2) (Some 11) (Some 0);
                            mkEvent "c2" "B" "bob" (Some 13) (Some 20) (Some 11);
                            mkEvent "c3" "A" "eve" (Some 3) (Some 9) (Some 0);
                            mkEvent "c3" "X" "eve" (Some 14) None None ]))
     = rows_of cid (rows example_frame)) ∧
    (¬ case_within 2 20 (rows_of cid (rows example_frame)) →
     rows_of cid (rows (mkDataFrame log_columns
                          [ mkEvent "c2" "A" "bob" (Some 2) (Some 11) (Some 0);
                            mkEvent "c2" "B" "bob" (Some 13) (Some 20) (Some 11);
                            mkEvent "c3" "A" "eve" (Some 3) (Some 9) (Some 0);
                            mkEvent "c3" "X" "eve" (Some 14) None None ]))
     = []).
Proof.
  apply (discard_partial_cases_keeps_cases_within example_frame 2 20).
  - intros Hempty. assert ("case_id" ∈ columns example_frame) as Hin.
    { apply (bool_decide_unpack _). vm_compute. exact I. }
    rewrite Hempty in Hin. by apply elem_of_empty in Hin.
  - vm_compute. reflexivity.
Defined.

(** X23: [discard_partial_cases] changes nothing when it is applied a second
    time with the same window. *)
Theorem discard_partial_cases_again
    (df : DataFrame) (start_dt horizon_dt : Z) (out : DataFrame) :
  discard_partial_cases df start_dt horizon_dt = Ok out →
  discard_partial_cases out start_dt horizon_dt = Ok out.
Proof.
  intros Hrun.
  pose proof Hrun as [Hc [[_ ->]|(_ & Hcid & Hs & He & Hrows)]]%discard_partial_cases_Ok;
    [done|].
  destruct (discard_partial_cases out start_dt horizon_dt) as [out2|e] eqn:Hrun2.
  - f_equal.
    apply discard_partial_cases_Ok in Hrun2 as [Hc2 [[_ ->]|(_ & _ & _ & _ & Hrows2)]]; [done|].
    destruct out as [cols rws], out2 as [cols2 rws2]. simpl in *. subst cols cols2. f_equal.
    rewrite Hrows2, Hrows. apply (case_filter_again (case_within start_dt horizon_dt)).
  - exfalso.
    assert (is_Raise (discard_partial_cases out start_dt horizon_dt)) as Hraise
      by (by exists e).
    apply discard_partial_cases_Raise in Hraise as (_ & _ & Hnot).
    apply Hnot. by rewrite Hc.
Qed.

(** At the example log with the window from 2 to 20. *)
Lemma discard_partial_cases_again_witness :
  discard_partial_cases
    (mkDataFrame log_columns
       [ mkEvent "c2" "A" "bob" (Some 2) (Some 11) (Some 0);
         mkEvent "c2" "B" "bob" (Some 13) (Some 20) (Some 11);
         mkEvent "c3" "A" "eve" (Some 3) (Some 9) (Some 0);
         mkEvent "c3" "X" "eve" (Some 14) None None ]) 2 20
  = Ok (mkDataFrame log_columns
          [ mkEvent "c2" "A" "bob" (Some 2) (Some 11) (Some 0);
            mkEvent "c2" "B" "bob" (Some 13) (Some 20) (Some 11);
            mkEvent "c3" "A" "eve" (Some 3) (Some 9) (Some 0);
            mkEvent "c3" "X" "eve" (Some 14) None None ]).
Proof.
  apply (discard_partial_cases_again example_frame 2 20).
  vm_compute. reflexivity.
Defined.

(** X24: [discard_partial_cases] returns a frame without rows or without
    columns as it is, whatever its columns are; on any other frame it raises
    (a [KeyError]) exactly when the frame lacks the column of the case ids,
    of the start times or of the end times. *)
Theorem discard_partial_cases_raises_iff (df : DataFrame) (start_dt horizon_dt : Z) :
  (is_Raise (discard_partial_cases df start_dt horizon_dt) ↔
   rows df ≠ [] ∧ columns df ≠ ∅ ∧
   ¬ ("case_id" ∈ columns df ∧ "start_time" ∈ columns df ∧ "end_time" ∈ columns df)) ∧
  (discard_partial_cases df start_dt horizon_dt = Raise KeyError ∨
   is_Ok (discard_partial_cases df start_dt horizon_dt)) ∧
  (discard_partial_cases (mkDataFrame (columns df) []) start_dt horizon_dt
   = Ok (mkDataFrame (columns df) [])) ∧
  (discard_partial_cases (mkDataFrame ∅ (rows df)) start_dt horizon_dt
   = Ok (mkDataFrame ∅ (rows df))).
Proof.
  split_and!.
  - apply discard_partial_cases_Raise.
  - destruct (discard_partial_cases df start_dt horizon_dt) as [out|e] eqn:Hrun;
      [right; by eexists|left]. f_equal.
    unfold discard_partial_cases in Hrun. case_decide; [done|].
    unfold column in Hrun. destruct (decide ("case_id" ∈ columns df)); simpl in Hrun.
    + destruct (for_each _ _ _) as [keep|e'] eqn:Hloop; simpl in Hrun; [done|].
      injection Hrun as <-.
      apply for_each_Raise_inv in Hloop as (item & acc & _ & Hbody).
      unfold keep_case, column in Hbody.
      destruct (decide ("start_time" ∈ columns df)); simpl in Hbody; [|congruence].
      destruct (decide ("end_time" ∈ columns df)); simpl in Hbody; [|congruence].
      by destruct (_ && _).
    + congruence.
  - unfold discard_partial_cases. case_decide as Hempty; [done|].
    destruct Hempty. by left.
  - unfold discard_partial_cases. case_decide as Hempty; [done|].
    destruct Hempty. by right.
Qed.
